(** * node-fetch: the fetch orchestrator (src/index.js) and Response (src/response.js)

    A shallow embedding of the two source files.  Values that JavaScript
    keeps in objects are records; [null]/[undefined] are [None]; the event
    callbacks registered by [fetch] become one transition function over an
    explicit state; the [timings] object, which the code shares by reference
    between the orchestrator, the errors and the Response, lives in a store.

    The collaborators that the two files import but that are not part of
    them (headers.js, body.js, request.js, Node's url/http/zlib) appear as
    type classes or as small models whose doc comment says so. *)

From Stdlib Require Import ZArith String Ascii Bool Lia.
From stdpp Require Import base list.

Open Scope string_scope.
Open Scope list_scope.
Open Scope Z_scope.

(** ** JavaScript truthiness, as far as the two files use it *)

(** [a || d] on a possibly undefined number: 0 and undefined are falsy. *)
Definition js_or_num (a : option Z) (d : Z) : Z :=
  match a with
  | Some v => if v =? 0 then d else v
  | None => d
  end.

(** A possibly undefined string is truthy when it is defined and not empty. *)
Definition js_truthy_str (a : option string) : bool :=
  match a with
  | Some s => negb (String.eqb s "")
  | None => false
  end.

(** [a || b] on possibly undefined strings. *)
Definition js_or_str (a b : option string) : option string :=
  if js_truthy_str a then a else b.

(** ** Timings and the store that holds the timings objects *)

Module Timings.
(** The fields [fetch] writes into its [timings] object; a clock reading
    stands for the string that [timeInMilis] formats. *)
Record t := mk {
  dnsLookupTime : option Z;
  tcpConnectionTime : option Z;
  tlsHandshakeTime : option Z;
  firstByteTime : option Z;
  totalTime : option Z
}.

(** The object literal [{}]. *)
Definition empty : t := mk None None None None None.

Definition set_dnsLookupTime (v : Z) (x : t) : t :=
  mk (Some v) (tcpConnectionTime x) (tlsHandshakeTime x) (firstByteTime x) (totalTime x).
Definition set_tcpConnectionTime (v : Z) (x : t) : t :=
  mk (dnsLookupTime x) (Some v) (tlsHandshakeTime x) (firstByteTime x) (totalTime x).
Definition set_tlsHandshakeTime (v : Z) (x : t) : t :=
  mk (dnsLookupTime x) (tcpConnectionTime x) (Some v) (firstByteTime x) (totalTime x).
Definition set_firstByteTime (v : Z) (x : t) : t :=
  mk (dnsLookupTime x) (tcpConnectionTime x) (tlsHandshakeTime x) (Some v) (totalTime x).
Definition set_totalTime (v : Z) (x : t) : t :=
  mk (dnsLookupTime x) (tcpConnectionTime x) (tlsHandshakeTime x) (firstByteTime x) (Some v).
End Timings.

(** A reference to a timings object, and the store of these objects. *)
Definition loc := nat.
Abbreviation Store := (list Timings.t).

(** Allocation of a new object: it gets the next free reference. *)
Definition alloc (h : Store) (x : Timings.t) : Store * loc := (h ++ [x], length h).

(** In-place update of the object behind a reference. *)
Definition update (h : Store) (l : loc) (f : Timings.t -> Timings.t) : Store :=
  match h !! l with
  | Some x => <[l := f x]> h
  | None => h
  end.

(** ** Errors *)

Module Err.
Inductive class := TypeError | AbortError | FetchError.

(** [FetchError(message, type, systemError)], [AbortError(message)] (whose
    type is "aborted") and the TypeError of the header container; [timings]
    is the reference stored by [error.timings = timings]. *)
Record t := mk {
  name : class;
  message : string;
  type : string;
  cause : option string;
  timings : option loc
}.

Definition with_timings (l : loc) (e : t) : t :=
  mk (name e) (message e) (type e) (cause e) (Some l).
End Err.

(** ** Headers *)

(** The validation [Headers.set] applies to a value; headers.js is not among
    the sources, so the test itself is a parameter. *)
Class HeaderValidation := { legal_value : string -> bool }.

Module Headers.
(** Modelled from the spec: headers.js is missing; the spec describes the
    container as an ordered multi-value string map with case-insensitive
    keys, and says that setting a malformed value fails.  Each name occurs
    once, in insertion order, with the values appended to it. *)
Definition t := list (string * list string).

Definition lower_ascii (c : ascii) : ascii :=
  let n := nat_of_ascii c in
  if ((65 <=? n) && (n <=? 90))%nat then ascii_of_nat (n + 32) else c.

Fixpoint lower (s : string) : string :=
  match s with
  | EmptyString => EmptyString
  | String c r => String (lower_ascii c) (lower r)
  end.

Definition same_name (a b : string) : bool := String.eqb (lower a) (lower b).

Fixpoint find (h : t) (name : string) : option (list string) :=
  match h with
  | [] => None
  | (k, vs) :: r => if same_name k name then Some vs else find r name
  end.

(** Modelled from the spec: headers.js is missing.  [get] joins the values of
    a name with ", "; it is [null] when the name is absent. *)
Definition get (h : t) (name : string) : option string :=
  option_map (String.concat ", ") (find h name).

(** Modelled from the spec: headers.js is missing.  [has], [delete] and
    [append] of the case-insensitive multi-value map. *)
Definition has (h : t) (name : string) : bool :=
  match find h name with Some _ => true | None => false end.

Definition delete (h : t) (name : string) : t :=
  List.filter (fun kv => negb (same_name (fst kv) name)) h.

Definition put (h : t) (name : string) (f : list string -> list string) : t :=
  if has h name
  then List.map (fun kv => if same_name (fst kv) name then (fst kv, f (snd kv)) else kv) h
  else h ++ [(name, f [])].

Definition append (h : t) (name value : string) : t :=
  put h name (fun vs => vs ++ [value]).

(** Modelled from the spec: headers.js is missing.  [set] replaces the values
    of the name, or throws on a malformed value (spec 6, manual-mode
    contract). *)
Definition set `{HeaderValidation} (h : t) (name value : string) : Err.t + t :=
  if legal_value value
  then inr (put h name (fun _ => [value]))
  else inl (Err.mk Err.TypeError
              (String.append value " is not a legal HTTP header value") "" None None).

(** Modelled from the spec: headers.js is missing.  [new Headers(init)] is a
    copy with the same contents; it is empty for an undefined [init]. *)
Definition new (init : option t) : t :=
  match init with Some h => h | None => [] end.
End Headers.

(** ** Response (src/response.js) *)

(** The two helpers response.js imports from body.js. *)
Class BodyMixin (B : Type) := {
  extractContentType : B -> option string;
  clone : option B -> option B
}.

(** http.STATUS_CODES and url.resolve of Node. *)
Class NodeLib := {
  STATUS_CODES : Z -> option string;
  resolve_url : string -> string -> string
}.

Module Response.
(** The options object read by the constructor. *)
Record opts := mkOpts {
  opt_url : option string;
  opt_status : option Z;
  opt_statusText : option string;
  opt_headers : option Headers.t;
  opt_remoteAddress : option string
}.

(** The body together with [this[INTERNALS]]. *)
Record t (B : Type) := mk {
  body : option B;
  url : option string;
  status : Z;
  statusText : option string;
  headers : Headers.t;
  timings : loc;
  remoteAddress : option string
}.
Arguments mk {B}.
Arguments body {B}.
Arguments url {B}.
Arguments status {B}.
Arguments statusText {B}.
Arguments headers {B}.
Arguments timings {B}.
Arguments remoteAddress {B}.

Section WithBody.
Context {B : Type} `{!BodyMixin B} `{!NodeLib}.

(** The content type the constructor would add for this body. *)
Definition content_type (b : option B) : option string :=
  match b with
  | Some x => if js_truthy_str (extractContentType x) then extractContentType x else None
  | None => None
  end.

(** [constructor(body = null, opts = {}, timings = {})]: an undefined
    third argument allocates a new empty object. *)
Definition new (h : Store) (b : option B) (o : opts) (tm : option loc) : Store * t B :=
  let '(h1, l) := match tm with
                  | Some l => (h, l)
                  | None => alloc h Timings.empty
                  end in
  let st := js_or_num (opt_status o) 200 in
  let hs := Headers.new (opt_headers o) in
  let hs := match b with
            | Some _ =>
                if negb (Headers.has hs "Content-Type")
                then match content_type b with
                     | Some ct => Headers.append hs "Content-Type" ct
                     | None => hs
                     end
                else hs
            | None => hs
            end in
  (h1, mk b (opt_url o) st (js_or_str (opt_statusText o) (STATUS_CODES st)) hs l
          (opt_remoteAddress o)).

Definition ok (r : t B) : bool := (200 <=? status r) && (status r <? 300).

(** [clone()]: a new Response from the cloned body and five options. *)
Definition clone_response (h : Store) (r : t B) : Store * t B :=
  new h (clone (body r))
      (mkOpts (url r) (Some (status r)) (statusText r) (Some (headers r)) None)
      None.

(** What the constructor establishes: a status that is not falsy, a status
    text that is truthy or the table's entry, and a Content-Type header
    whenever one can be extracted from the body. *)
Definition well_formed (r : t B) : Prop :=
  status r <> 0
  /\ (js_truthy_str (statusText r) = false -> statusText r = STATUS_CODES (status r))
  /\ (content_type (body r) <> None -> Headers.has (headers r) "Content-Type" = true).
End WithBody.
End Response.

(** Cloning a body keeps the content type that can be extracted from it. *)
Class BodyMixinLaws (B : Type) `{!BodyMixin B} := {
  clone_content_type :
    forall b : option B, Response.content_type (clone b) = Response.content_type b
}.

(** ** Request descriptors *)

Module Request.
(** Modelled from the spec: body.js and request.js are missing; the spec
    classifies a request body as absent, a fixed-length source, or an
    unbounded stream. *)
Inductive source :=
| Fixed (bytes : Z)
| Readable.

(** The cancellation token, with the flag [aborted] as it is when the
    descriptor is dispatched. *)
Record token := mkToken { aborted : bool }.

Record t := mk {
  url : string;
  method : string;
  headers : Headers.t;
  body : option source;
  redirect : string;
  follow : Z;
  counter : Z;
  compress : bool;
  timeout : Z;
  size : Z;
  agent : option nat;
  signal : option token
}.

(** The object literal [requestOpts] of index.js: these eight keys and no
    other. *)
Record init := mkInit {
  init_headers : Headers.t;
  init_follow : Z;
  init_counter : Z;
  init_agent : option nat;
  init_compress : bool;
  init_method : string;
  init_body : option source;
  init_signal : option token
}.

(** Modelled from the spec: request.js is missing.  [new Request(url, init)]
    with a URL string takes from [init] what it holds (spec 4.1, step 5d)
    and leaves every other field at its default: redirect mode follow,
    timeout 0 (disabled, spec 6) and size 0. *)
Definition new (u : string) (i : init) : t :=
  mk u (init_method i) (Headers.new (Some (init_headers i))) (init_body i)
     "follow" (init_follow i) (init_counter i) (init_compress i) 0 0
     (init_agent i) (init_signal i).

(** Modelled from the spec: body.js is missing.  The total byte count of
    the request body is unknown exactly for an unbounded stream. *)
Definition getTotalBytes (r : t) : option Z :=
  match body r with
  | None => Some 0
  | Some (Fixed n) => Some n
  | Some Readable => None
  end.
End Request.

(** The options Node's transport is called with: [getNodeRequestOptions]
    of request.js, which returns them or throws. *)
Record NodeOptions := { protocol : string }.

Class RequestLib := { getNodeRequestOptions : Request.t -> Err.t + NodeOptions }.

(** ** The transport's response and the decoded body stream *)

Module Res.
(** [res] of the "response" event; [headers] is what
    [createHeadersLenient(res.headers)] returns. *)
Record t := mk {
  statusCode : Z;
  statusMessage : string;
  headers : Headers.t
}.
End Res.

Inductive zlib_transform :=
| Gunzip       (* zlib.createGunzip(zlibOptions) *)
| Inflate      (* zlib.createInflate() *)
| InflateRaw.  (* zlib.createInflateRaw() *)

(** [res.pipe(new PassThrough())], piped into a zlib transform or not. *)
Record BodyStream := Piped { transform : option zlib_transform }.

(** ** The orchestrator (src/index.js) *)

Module Fetch.

(** [fetch.isRedirect]. *)
Definition isRedirect (code : Z) : bool :=
  (code =? 301) || (code =? 302) || (code =? 303) || (code =? 307) || (code =? 308).

(** The promise returned by one call of [fetch]: pending, fulfilled with a
    Response, rejected, or resolved with the promise of the follow-up call,
    whose settlement it then takes over. *)
Inductive settlement :=
| Pending
| Fulfilled (r : Response.t BodyStream)
| Rejected (e : Err.t)
| Forwarded (next : Request.t).

(** The events for which [fetch] registers a callback; those that read the
    clock carry the reading. *)
Inductive event :=
| Socket                              (* req "socket" *)
| Lookup (now : Z)                    (* socket "lookup" *)
| Connect (now : Z)                   (* socket "connect" *)
| SecureConnect (now : Z)             (* socket "secureConnect" *)
| Timeout                             (* the timer [reqTimeout] fires *)
| ReqError (msg : string)             (* req "error" *)
| Incoming (res : Res.t) (now : Z)    (* req "response" *)
| Readable (now : Z)                  (* res "readable" *)
| Data (chunk : list Z) (now : Z)     (* raw "data", a Buffer of bytes *)
| Ended                               (* res "end" *)
| Abort.                              (* signal "abort" *)

(** The variables of one call of [fetch] and the registrations it holds. *)
Record state := mk {
  store : Store;
  timings : loc;                      (* const timings = {} *)
  promise : settlement;
  response : option (Response.t BodyStream);   (* let response = null *)
  sent : bool;                        (* const req = send(options) *)
  socket : bool;                      (* "socket" was delivered *)
  reqTimeout : bool;                  (* the timer is armed *)
  listening : bool;                   (* abortAndFinalize is registered *)
  req_aborted : bool;                 (* req.abort() was called *)
  responded : bool;                   (* "response" was delivered *)
  readable_once : bool;               (* res.once("readable") is waiting *)
  end_once : bool;                    (* res.once("end") is waiting *)
  sniff : option Response.opts;       (* raw.once("data") is waiting *)
  body_destroyed : option Err.t;      (* request.body.destroy(error) *)
  stream_errors : list Err.t          (* "error" emitted on response.body *)
}.

Definition with_store (v : Store) (s : state) : state :=
  mk v (timings s) (promise s) (response s) (sent s) (socket s) (reqTimeout s)
     (listening s) (req_aborted s) (responded s) (readable_once s) (end_once s)
     (sniff s) (body_destroyed s) (stream_errors s).
Definition with_promise (v : settlement) (s : state) : state :=
  mk (store s) (timings s) v (response s) (sent s) (socket s) (reqTimeout s)
     (listening s) (req_aborted s) (responded s) (readable_once s) (end_once s)
     (sniff s) (body_destroyed s) (stream_errors s).
Definition with_response (v : option (Response.t BodyStream)) (s : state) : state :=
  mk (store s) (timings s) (promise s) v (sent s) (socket s) (reqTimeout s)
     (listening s) (req_aborted s) (responded s) (readable_once s) (end_once s)
     (sniff s) (body_destroyed s) (stream_errors s).
Definition with_sent (v : bool) (s : state) : state :=
  mk (store s) (timings s) (promise s) (response s) v (socket s) (reqTimeout s)
     (listening s) (req_aborted s) (responded s) (readable_once s) (end_once s)
     (sniff s) (body_destroyed s) (stream_errors s).
Definition with_socket (v : bool) (s : state) : state :=
  mk (store s) (timings s) (promise s) (response s) (sent s) v (reqTimeout s)
     (listening s) (req_aborted s) (responded s) (readable_once s) (end_once s)
     (sniff s) (body_destroyed s) (stream_errors s).
Definition with_reqTimeout (v : bool) (s : state) : state :=
  mk (store s) (timings s) (promise s) (response s) (sent s) (socket s) v
     (listening s) (req_aborted s) (responded s) (readable_once s) (end_once s)
     (sniff s) (body_destroyed s) (stream_errors s).
Definition with_listening (v : bool) (s : state) : state :=
  mk (store s) (timings s) (promise s) (response s) (sent s) (socket s) (reqTimeout s)
     v (req_aborted s) (responded s) (readable_once s) (end_once s)
     (sniff s) (body_destroyed s) (stream_errors s).
Definition with_req_aborted (v : bool) (s : state) : state :=
  mk (store s) (timings s) (promise s) (response s) (sent s) (socket s) (reqTimeout s)
     (listening s) v (responded s) (readable_once s) (end_once s)
     (sniff s) (body_destroyed s) (stream_errors s).
Definition with_responded (v : bool) (s : state) : state :=
  mk (store s) (timings s) (promise s) (response s) (sent s) (socket s) (reqTimeout s)
     (listening s) (req_aborted s) v (readable_once s) (end_once s)
     (sniff s) (body_destroyed s) (stream_errors s).
Definition with_readable_once (v : bool) (s : state) : state :=
  mk (store s) (timings s) (promise s) (response s) (sent s) (socket s) (reqTimeout s)
     (listening s) (req_aborted s) (responded s) v (end_once s)
     (sniff s) (body_destroyed s) (stream_errors s).
Definition with_end_once (v : bool) (s : state) : state :=
  mk (store s) (timings s) (promise s) (response s) (sent s) (socket s) (reqTimeout s)
     (listening s) (req_aborted s) (responded s) (readable_once s) v
     (sniff s) (body_destroyed s) (stream_errors s).
Definition with_sniff (v : option Response.opts) (s : state) : state :=
  mk (store s) (timings s) (promise s) (response s) (sent s) (socket s) (reqTimeout s)
     (listening s) (req_aborted s) (responded s) (readable_once s) (end_once s)
     v (body_destroyed s) (stream_errors s).
Definition with_body_destroyed (v : option Err.t) (s : state) : state :=
  mk (store s) (timings s) (promise s) (response s) (sent s) (socket s) (reqTimeout s)
     (listening s) (req_aborted s) (responded s) (readable_once s) (end_once s)
     (sniff s) v (stream_errors s).
Definition with_stream_errors (v : list Err.t) (s : state) : state :=
  mk (store s) (timings s) (promise s) (response s) (sent s) (socket s) (reqTimeout s)
     (listening s) (req_aborted s) (responded s) (readable_once s) (end_once s)
     (sniff s) (body_destroyed s) v.

(** The outcome of the switch on [request.redirect] for one response. *)
Inductive decision :=
| DNone (hs : Headers.t)                    (* no redirect handling: on to the body *)
| DManualRewrite (hs : Headers.t)           (* manual: Location rewritten *)
| DManualCorrupt (e : Err.t) (hs : Headers.t)  (* manual: headers.set threw *)
| DError (e : Err.t)                        (* reject(fe); finalize(); return *)
| DFollow (next : Request.t).               (* resolve(fetch(...)); finalize(); return *)

(** The three ways the body of a terminal response is wired. *)
Inductive decoding := AsIs | Gunzipped | SniffDeflate.

Section Orchestrator.
Context `{!HeaderValidation} `{!NodeLib} `{!RequestLib} `{!BodyMixin BodyStream}.

(** [reject(e)]: settles a pending promise, does nothing otherwise. *)
Definition reject (e : Err.t) (s : state) : state :=
  match promise s with
  | Pending => with_promise (Rejected e) s
  | _ => s
  end.

(** [resolve(value)]: writes [timings.totalTime], then resolves the promise
    if it is still pending. *)
Definition resolve (now : Z) (v : settlement) (s : state) : state :=
  let s := with_store (update (store s) (timings s) (Timings.set_totalTime now)) s in
  match promise s with
  | Pending => with_promise v s
  | _ => s
  end.

(** [finalize()]. *)
Definition finalize (s : state) : state :=
  with_reqTimeout false (with_listening false (with_req_aborted true s)).

Definition abort_error (s : state) : Err.t :=
  Err.mk Err.AbortError "The user aborted a request." "aborted" None (Some (timings s)).

(** [abort()]. *)
Definition abort (req : Request.t) (s : state) : state :=
  let error := abort_error s in
  let s := reject error s in
  let s := match Request.body req with
           | Some Request.Readable => with_body_destroyed (Some error) s
           | _ => s
           end in
  match response s with
  | Some r =>
      match Response.body r with
      | Some _ => with_stream_errors (stream_errors s ++ [error]) s
      | None => s
      end
  | None => s
  end.

Definition abortAndFinalize (req : Request.t) (s : state) : state :=
  finalize (abort req s).

Definition fetch_error (msg type : string) (sys : option string) (s : state) : Err.t :=
  Err.mk Err.FetchError msg type sys (Some (timings s)).

(** The callback of req.once("socket"): arms the timer for a truthy timeout. *)
Definition on_socket (req : Request.t) (s : state) : state :=
  let s := with_socket true s in
  if Request.timeout req =? 0 then s else with_reqTimeout true s.

(** The timer's callback. *)
Definition timeout_error (req : Request.t) (s : state) : Err.t :=
  fetch_error (String.append "network timeout at: " (Request.url req))
              "request-timeout" None s.

Definition on_timeout (req : Request.t) (s : state) : state :=
  finalize (reject (timeout_error req s) (with_reqTimeout false s)).

(** The callback of req.on("error"). *)
Definition system_error (req : Request.t) (msg : string) (s : state) : Err.t :=
  fetch_error
    (String.append "request to "
       (String.append (Request.url req) (String.append " failed, reason: " msg)))
    "system" (Some msg) s.

Definition on_error (req : Request.t) (msg : string) (s : state) : state :=
  finalize (reject (system_error req msg s) s).

(** The object literal [requestOpts]. *)
Definition requestOpts (req : Request.t) : Request.init :=
  Request.mkInit (Headers.new (Some (Request.headers req)))
                 (Request.follow req)
                 (Request.counter req + 1)
                 (Request.agent req)
                 (Request.compress req)
                 (Request.method req)
                 (Request.body req)
                 (Request.signal req).

(** HTTP-redirect fetch step 11: the three assignments to [requestOpts]. *)
Definition rewrite_to_get (o : Request.init) : Request.init :=
  Request.mkInit (Headers.delete (Request.init_headers o) "content-length")
                 (Request.init_follow o)
                 (Request.init_counter o)
                 (Request.init_agent o)
                 (Request.init_compress o)
                 "GET"
                 None
                 (Request.init_signal o).

Definition becomes_get (req : Request.t) (res : Res.t) : bool :=
  (Res.statusCode res =? 303)
  || (((Res.statusCode res =? 301) || (Res.statusCode res =? 302))
      && String.eqb (Request.method req) "POST").

Definition unsupported_redirect (req : Request.t) (res : Res.t) : bool :=
  negb (Res.statusCode res =? 303)
  && match Request.body req with Some _ => true | None => false end
  && match Request.getTotalBytes req with None => true | Some _ => false end.

(** The three FetchErrors of the redirect handling. *)
Definition no_redirect_error (req : Request.t) (s : state) : Err.t :=
  fetch_error (String.append "redirect mode is set to error: " (Request.url req))
              "no-redirect" None s.

Definition max_redirect_error (req : Request.t) (s : state) : Err.t :=
  fetch_error (String.append "maximum redirect reached at: " (Request.url req))
              "max-redirect" None s.

Definition unsupported_redirect_error (s : state) : Err.t :=
  fetch_error "Cannot follow redirect with body being a readable stream"
              "unsupported-redirect" None s.

(** HTTP fetch step 5: the redirect handling of the "response" callback. *)
Definition redirect_decision (req : Request.t) (s : state) (res : Res.t) : decision :=
  let headers := Res.headers res in
  if isRedirect (Res.statusCode res) then
    let location := Headers.get headers "Location" in
    let locationURL := option_map (resolve_url (Request.url req)) location in
    if String.eqb (Request.redirect req) "error" then
      DError (no_redirect_error req s)
    else if String.eqb (Request.redirect req) "manual" then
      match locationURL with
      | Some u =>
          match Headers.set headers "Location" u with
          | inr hs => DManualRewrite hs
          | inl err => DManualCorrupt (Err.with_timings (timings s) err) headers
          end
      | None => DNone headers
      end
    else if String.eqb (Request.redirect req) "follow" then
      match locationURL with
      | None => DNone headers
      | Some u =>
          if Request.counter req >=? Request.follow req then
            DError (max_redirect_error req s)
          else
            let opts := requestOpts req in
            if unsupported_redirect req res then
              DError (unsupported_redirect_error s)
            else
              let opts := if becomes_get req res then rewrite_to_get opts else opts in
              DFollow (Request.new u opts)
      end
    else DNone headers
  else DNone headers.

(** A terminal response is one the redirect handling passes on to the
    body handling: it is neither rejected nor followed. *)
Definition terminal (req : Request.t) (s : state) (res : Res.t) : bool :=
  match redirect_decision req s res with
  | DError _ | DFollow _ => false
  | DNone _ | DManualRewrite _ | DManualCorrupt _ _ => true
  end.

(** [response_options]; [size] and [timeout] are read by the body mixin only. *)
Definition response_options (req : Request.t) (res : Res.t) (hs : Headers.t)
  : Response.opts :=
  Response.mkOpts (Some (Request.url req)) (Some (Res.statusCode res))
                  (Some (Res.statusMessage res)) (Some hs) None.

(** [codings == v] for the possibly null result of [headers.get]. *)
Definition codings_is (codings : option string) (v : string) : bool :=
  match codings with
  | Some c => String.eqb c v
  | None => false
  end.

Definition is_null {A : Type} (o : option A) : bool :=
  match o with Some _ => false | None => true end.

(** HTTP-network fetch step 12.1.1.4: which content coding is undone. *)
Definition content_decoding (req : Request.t) (res : Res.t) (hs : Headers.t) : decoding :=
  let codings := Headers.get hs "Content-Encoding" in
  if negb (Request.compress req)
     || String.eqb (Request.method req) "HEAD"
     || is_null codings
     || (Res.statusCode res =? 204)
     || (Res.statusCode res =? 304)
  then AsIs
  else if codings_is codings "gzip" || codings_is codings "x-gzip" then Gunzipped
  else if codings_is codings "deflate" || codings_is codings "x-deflate" then SniffDeflate
  else AsIs.

(** [response = new Response(body, response_options, timings, extra);
    resolve(response)]. *)
Definition deliver (now : Z) (b : BodyStream) (o : Response.opts) (s : state) : state :=
  let '(h, r) := Response.new (store s) (Some b) o (Some (timings s)) in
  resolve now (Fulfilled r) (with_response (Some r) (with_store h s)).

(** The rest of the "response" callback, from "prepare response" on. *)
Definition body_handling (req : Request.t) (res : Res.t) (hs : Headers.t) (now : Z)
    (s : state) : state :=
  let s := with_readable_once true (with_end_once true s) in
  let o := response_options req res hs in
  match content_decoding req res hs with
  | AsIs => deliver now (Piped None) o s
  | Gunzipped => deliver now (Piped (Some Gunzip)) o s
  | SniffDeflate => with_sniff (Some o) s
  end.

(** The callback of req.on("response"). *)
Definition on_response (req : Request.t) (res : Res.t) (now : Z) (s : state) : state :=
  let s := with_responded true (with_reqTimeout false s) in
  match redirect_decision req s res with
  | DError e => finalize (reject e s)
  | DFollow next => finalize (resolve now (Forwarded next) s)
  | DNone hs => body_handling req res hs now s
  | DManualRewrite hs => body_handling req res hs now s
  | DManualCorrupt e hs => body_handling req res hs now (reject e s)
  end.

(** [chunk[0] & 0x0f]; an undefined operand of [&] counts as 0. *)
Definition low_nibble (chunk : list Z) : Z :=
  match chunk with
  | b :: _ => Z.land b 15
  | [] => 0
  end.

(** The callback of raw.once("data"). *)
Definition on_first_chunk (chunk : list Z) (now : Z) (o : Response.opts) (s : state)
  : state :=
  let z := if low_nibble chunk =? 8 then Inflate else InflateRaw in
  deliver now (Piped (Some z)) o (with_sniff None s).

(** A request that was sent, not aborted, and has no response yet: to such
    a request only the transport delivers "socket" and "response", once. *)
Definition awaiting (s : state) : bool :=
  sent s && negb (req_aborted s) && negb (responded s).

Definition stamp (f : Z -> Timings.t -> Timings.t) (now : Z) (s : state) : state :=
  with_store (update (store s) (timings s) (f now)) s.

(** One event, delivered to the callback registered for it; an event for
    which no callback is registered leaves the state as it is.  What is
    assumed of Node: "socket" and "response" come at most once and only to a
    request that awaits its response; the socket's own events come after
    "socket"; the timer fires only while it is armed, and the signal is heard
    only while the listener is registered. *)
Definition step (req : Request.t) (s : state) (ev : event) : state :=
  match ev with
  | Socket => if awaiting s && negb (socket s) then on_socket req s else s
  | Lookup now => if socket s then stamp Timings.set_dnsLookupTime now s else s
  | Connect now => if socket s then stamp Timings.set_tcpConnectionTime now s else s
  | SecureConnect now => if socket s then stamp Timings.set_tlsHandshakeTime now s else s
  | Timeout => if reqTimeout s then on_timeout req s else s
  | ReqError msg => if sent s then on_error req msg s else s
  | Incoming res now => if awaiting s then on_response req res now s else s
  | Readable now => if readable_once s
                    then stamp Timings.set_firstByteTime now (with_readable_once false s)
                    else s
  | Data chunk now => match sniff s with
                      | Some o => on_first_chunk chunk now o s
                      | None => s
                      end
  | Ended => if end_once s then with_listening false (with_end_once false s) else s
  | Abort => if listening s then abortAndFinalize req s else s
  end.

Definition run (req : Request.t) (s : state) (evs : list event) : state :=
  fold_left (step req) evs s.

(** The body of the promise executor up to the point where it returns: the
    options are computed (or the executor throws), the timings object is
    allocated, an already signalled token aborts at once, otherwise the
    request is sent and the abort listener registered. *)
Definition dispatch (h : Store) (req : Request.t) : Err.t + state :=
  match getNodeRequestOptions req with
  | inl e => inl e
  | inr _ =>
      let '(h1, l) := alloc h Timings.empty in
      let s0 := mk h1 l Pending None false false false false false false false false
                   None None [] in
      match Request.signal req with
      | Some tok =>
          if Request.aborted tok then inr (abort req s0)
          else inr (with_listening true (with_sent true s0))
      | None => inr (with_sent true s0)
      end
  end.

(** A whole call of [fetch]: each hop of the redirect chain gets the events
    the transport delivers to it; a promise resolved with the follow-up's
    promise settles as the follow-up does. *)
Fixpoint fetch (hops : list (list event)) (h : Store) (req : Request.t)
  : settlement * Store :=
  match dispatch h req with
  | inl e => (Rejected e, h)
  | inr s0 =>
      match hops with
      | [] => (promise s0, store s0)
      | evs :: rest =>
          let s := run req s0 evs in
          match promise s with
          | Forwarded next => fetch rest (store s) next
          | p => (p, store s)
          end
      end
  end.

(** *** Redirect chains, as the transport plays them *)

(** The events of the socket's life; they settle nothing. *)
Definition quiet (ev : event) : bool :=
  match ev with
  | Socket | Lookup _ | Connect _ | SecureConnect _ => true
  | _ => false
  end.

(** One hop that gets a response: socket events, the response, and the
    events after it. *)
Record hop := mkHop {
  before : list event;
  answer : Res.t;
  clock : Z;
  after : list event
}.

Definition events (hp : hop) : list event :=
  before hp ++ Incoming (answer hp) (clock hp) :: after hp.

(** The request a followed redirect to [location] dispatches. *)
Definition follow_up (req : Request.t) (res : Res.t) (location : string) : Request.t :=
  Request.new (resolve_url (Request.url req) location)
              (if becomes_get req res then rewrite_to_get (requestOpts req)
               else requestOpts req).

Definition accepted (req : Request.t) : bool :=
  match getNodeRequestOptions req with inr _ => true | inl _ => false end.

Definition pre_aborted (req : Request.t) : bool :=
  match Request.signal req with
  | Some tok => Request.aborted tok
  | None => false
  end.

(** Every hop answers 302 with a Location after socket events only, and the
    request the Location leads to is accepted by [getNodeRequestOptions]. *)
Fixpoint redirects_302 (req : Request.t) (hops : list hop) : bool :=
  match hops with
  | [] => true
  | hp :: rest =>
      forallb quiet (before hp)
      && (Res.statusCode (answer hp) =? 302)
      && match Headers.get (Res.headers (answer hp)) "Location" with
         | Some location =>
             accepted (follow_up req (answer hp) location)
             && redirects_302 (follow_up req (answer hp) location) rest
         | None => false
         end
  end.

(** The request at the end of the chain. *)
Fixpoint destination (req : Request.t) (hops : list hop) : Request.t :=
  match hops with
  | [] => req
  | hp :: rest =>
      match Headers.get (Res.headers (answer hp)) "Location" with
      | Some location => destination (follow_up req (answer hp) location) rest
      | None => req
      end
  end.

(** The states one call can be in. *)
Inductive reachable (req : Request.t) : state -> Prop :=
| reach_dispatch h s : dispatch h req = inr s -> reachable req s
| reach_step s ev : reachable req s -> reachable req (step req s ev).


(** What holds in every reachable state: a request that still awaits its
    response has a pending promise; a pending promise has no Response yet; a
    fulfilled promise holds the Response of the variable [response]; while
    the first chunk is awaited there is no Response; a Response has a body. *)
Record inv (s : state) : Prop := mk_inv {
  inv_awaiting : awaiting s = true -> promise s = Pending;
  inv_pending : promise s = Pending -> response s = None;
  inv_fulfilled : forall r, promise s = Fulfilled r -> response s = Some r;
  inv_sniff : sniff s <> None -> response s = None /\ responded s = true;
  inv_body : forall r, response s = Some r -> Response.body r <> None;
  inv_listening : listening s = true -> sent s = true /\ req_aborted s = false;
  inv_forwarded : forall n, promise s = Forwarded n ->
                  listening s = false /\ req_aborted s = true;
  inv_timer : reqTimeout s = true -> awaiting s = true
}.

(** What a settled promise says about the timings object. *)
Definition timed (s : state) : Prop :=
  (forall e, promise s = Rejected e -> Err.timings e = Some (timings s))
  /\ (forall r, promise s = Fulfilled r -> Response.timings r = timings s)
  /\ ((exists r, promise s = Fulfilled r) \/ (exists n, promise s = Forwarded n) ->
      exists x, store s !! timings s = Some x /\ Timings.totalTime x <> None).

(** The events that bring neither data nor the end of the call. *)
Definition uneventful (ev : event) : bool :=
  match ev with
  | Data _ _ | Abort | ReqError _ => false
  | _ => true
  end.

(** The requests a call can come to by followed redirects: the request
    itself, and what a followed redirect of such a request dispatches. *)
Inductive redirected : Request.t -> Request.t -> Prop :=
| redirected_here req : redirected req req
| redirected_on req res location dest :
    redirected (follow_up req res location) dest -> redirected req dest.

(** The request of the hop that settles the call: the request itself, or,
    when the hop resolves the call with a follow-up, what settles that. *)
Fixpoint last_hop (hops : list (list event)) (h : Store) (req : Request.t)
  : Request.t :=
  match dispatch h req with
  | inl _ => req
  | inr s0 =>
      match hops with
      | [] => req
      | evs :: rest =>
          let s := run req s0 evs in
          match promise s with
          | Forwarded next => last_hop rest (store s) next
          | _ => req
          end
      end
  end.

End Orchestrator.
End Fetch.

(** ** Concrete collaborators and inputs, used by the examples below *)

Module Example.

(** A validation in the manner of HTTP field values: tab, the printable
    ASCII range, and 0x80 to 0xff are accepted. *)
Definition legal_char (c : ascii) : bool :=
  let n := nat_of_ascii c in
  ((n =? 9) || ((32 <=? n) && (n <=? 126)) || (128 <=? n))%nat.

Fixpoint all_chars (p : ascii -> bool) (s : string) : bool :=
  match s with
  | EmptyString => true
  | String c r => p c && all_chars p r
  end.

Definition validation : HeaderValidation := {| legal_value := all_chars legal_char |}.

(** Scheme and authority of an absolute URL. *)
Definition origin (base : string) : string :=
  match String.index 0 "://" base with
  | Some i =>
      match String.index (i + 3) "/" base with
      | Some j => String.substring 0 j base
      | None => base
      end
  | None => base
  end.

Definition without_query (base : string) : string :=
  match String.index 0 "?" base with
  | Some i => String.substring 0 i base
  | None => base
  end.

(** A resolver for the three shapes the examples use: a Location that is
    absolute already, a Location that is a query only, and a Location that
    is an absolute path. *)
Definition resolve (base location : string) : string :=
  match String.index 0 "://" location with
  | Some _ => location
  | None =>
      if String.prefix "?" location
      then String.append (without_query base) location
      else String.append (origin base) location
  end.

Definition status_codes (code : Z) : option string :=
  if code =? 200 then Some "OK"
  else if code =? 204 then Some "No Content"
  else if code =? 301 then Some "Moved Permanently"
  else if code =? 302 then Some "Found"
  else if code =? 303 then Some "See Other"
  else if code =? 304 then Some "Not Modified"
  else if code =? 307 then Some "Temporary Redirect"
  else if code =? 308 then Some "Permanent Redirect"
  else None.

Definition node : NodeLib := {| STATUS_CODES := status_codes; resolve_url := resolve |}.

(** Only http and https URLs are accepted. *)
Definition options (r : Request.t) : Err.t + NodeOptions :=
  if String.prefix "http://" (Request.url r) then inr {| protocol := "http:" |}
  else if String.prefix "https://" (Request.url r) then inr {| protocol := "https:" |}
  else inl (Err.mk Err.TypeError "Only HTTP(S) protocols are supported" "" None None).

Definition request_lib : RequestLib := {| getNodeRequestOptions := options |}.

(** No content type is read off a stream, and the clone of a stream is a
    stream piped the same way. *)
Definition streams : BodyMixin BodyStream :=
  {| extractContentType := fun _ => None; clone := fun b => b |}.

(** Text bodies: the content type of text, and a clone with the same text. *)
Definition texts : BodyMixin string :=
  {| extractContentType := fun _ => Some "text/plain;charset=UTF-8"; clone := fun b => b |}.

(** GET http://h/a, following at most 20 redirects. *)
Definition get_a : Request.t :=
  Request.mk "http://h/a" "GET" [] None "follow" 20 0 true 0 0 None None.

Definition with_mode (mode : string) (r : Request.t) : Request.t :=
  Request.mk (Request.url r) (Request.method r) (Request.headers r) (Request.body r)
             mode (Request.follow r) (Request.counter r) (Request.compress r)
             (Request.timeout r) (Request.size r) (Request.agent r) (Request.signal r).

Definition with_timeout (ms : Z) (r : Request.t) : Request.t :=
  Request.mk (Request.url r) (Request.method r) (Request.headers r) (Request.body r)
             (Request.redirect r) (Request.follow r) (Request.counter r)
             (Request.compress r) ms (Request.size r) (Request.agent r)
             (Request.signal r).

Definition with_follow (n : Z) (r : Request.t) : Request.t :=
  Request.mk (Request.url r) (Request.method r) (Request.headers r) (Request.body r)
             (Request.redirect r) n (Request.counter r)
             (Request.compress r) (Request.timeout r) (Request.size r) (Request.agent r)
             (Request.signal r).

Definition with_signal (r : Request.t) : Request.t :=
  Request.mk (Request.url r) (Request.method r) (Request.headers r) (Request.body r)
             (Request.redirect r) (Request.follow r) (Request.counter r)
             (Request.compress r) (Request.timeout r) (Request.size r) (Request.agent r)
             (Some (Request.mkToken false)).

Definition sending (m : string) (b : Request.source) (hs : Headers.t)
    (r : Request.t) : Request.t :=
  Request.mk (Request.url r) m hs (Some b)
             (Request.redirect r) (Request.follow r) (Request.counter r)
             (Request.compress r) (Request.timeout r) (Request.size r) (Request.agent r)
             (Request.signal r).

Definition at_url (u : string) (r : Request.t) : Request.t :=
  Request.mk u (Request.method r) (Request.headers r) (Request.body r)
             (Request.redirect r) (Request.follow r) (Request.counter r)
             (Request.compress r) (Request.timeout r) (Request.size r) (Request.agent r)
             (Request.signal r).

(** POST of five bytes, with its Content-Length header. *)
Definition post_a : Request.t :=
  sending "POST" (Request.Fixed 5) [("Content-Length", ["5"])] get_a.

(** PUT of a stream: no size is known. *)
Definition put_stream : Request.t := sending "PUT" Request.Readable [] get_a.

(** A URL whose path ends in the character 0x7f, which [validation] does
    not accept in a header value. *)
Definition odd_url : string := String.append "http://h/a" (String "127"%char "").

(** A response with the given status and headers. *)
Definition answer (code : Z) (hs : Headers.t) : Res.t := Res.mk code "" hs.

Definition redirect_to (code : Z) (location : string) : Res.t :=
  answer code [("Location", [location])].

Definition encoded (coding : string) (res : Res.t) : Res.t :=
  Res.mk (Res.statusCode res) (Res.statusMessage res)
         (Res.headers res ++ [("Content-Encoding", [coding])]).

(** The state in which the request has just been sent, in an empty store. *)
Definition sent_state (req : Request.t) : Fetch.state :=
  match @Fetch.dispatch request_lib [] req with
  | inr s => s
  | inl _ => Fetch.mk [] 0%nat Fetch.Pending None false false false false false false
                      false false None None []
  end.

(** One hop: the socket is assigned, then the response arrives at time 5. *)
Definition plain_hop (res : Res.t) : Fetch.hop := Fetch.mkHop [Fetch.Socket] res 5 [].

(** A timings object that is not empty, and a text Response that holds a
    reference to it. *)
Definition measured : Timings.t := Timings.mk (Some 1) (Some 2) None (Some 7) (Some 9).

Definition hello : Response.t string :=
  Response.mk (Some "hello") (Some "http://h/a") 200 (Some "OK")
              [("Content-Type", ["text/plain;charset=UTF-8"]); ("X-Served-By", ["h"])]
              0%nat None.

(** The same request with a signal that is aborted already. *)
Definition with_aborted_signal (r : Request.t) : Request.t :=
  Request.mk (Request.url r) (Request.method r) (Request.headers r) (Request.body r)
             (Request.redirect r) (Request.follow r) (Request.counter r)
             (Request.compress r) (Request.timeout r) (Request.size r) (Request.agent r)
             (Some (Request.mkToken true)).

(** A redirect to /b, then the answer 200 with its "readable". *)
Definition two_hops : list (list Fetch.event) :=
  [[Fetch.Socket; Fetch.Incoming (redirect_to 302 "/b") 5];
   [Fetch.Socket; Fetch.Lookup 1; Fetch.Incoming (answer 200 []) 9; Fetch.Readable 10]].

End Example.

(** * Properties *)

(** ** The header container *)

Module HeadersFacts.

Lemma same_name_refl (a : string) : Headers.same_name a a = true.
Proof. unfold Headers.same_name. apply String.eqb_refl. Qed.

Lemma same_name_trans (a b c : string) :
  Headers.same_name a b = true -> Headers.same_name a c = true ->
  Headers.same_name b c = true.
Proof.
  unfold Headers.same_name. rewrite !String.eqb_eq. congruence.
Qed.

Lemma find_delete (h : Headers.t) (name : string) :
  Headers.find (Headers.delete h name) name = None.
Proof.
  induction h as [|[k vs] r IH]; simpl; [reflexivity|].
  destruct (Headers.same_name k name) eqn:E; simpl; [exact IH|].
  rewrite E. exact IH.
Qed.

Lemma get_delete (h : Headers.t) (name : string) :
  Headers.get (Headers.delete h name) name = None.
Proof. unfold Headers.get. now rewrite find_delete. Qed.

Lemma has_delete (h : Headers.t) (name : string) :
  Headers.has (Headers.delete h name) name = false.
Proof. unfold Headers.has. now rewrite find_delete. Qed.

Lemma find_app_new (h : Headers.t) (k name : string) (vs : list string) :
  Headers.find h name = None ->
  Headers.find (h ++ [(k, vs)]) name
  = if Headers.same_name k name then Some vs else None.
Proof.
  induction h as [|[k' vs'] r IH]; simpl; [reflexivity|].
  destruct (Headers.same_name k' name); [discriminate|]. exact IH.
Qed.

Lemma find_app_old (h : Headers.t) (k name : string) (vs ws : list string) :
  Headers.find h name = Some ws ->
  Headers.find (h ++ [(k, vs)]) name = Some ws.
Proof.
  induction h as [|[k' vs'] r IH]; simpl; [discriminate|].
  destruct (Headers.same_name k' name); [trivial|]. exact IH.
Qed.

Lemma find_map_same (h : Headers.t) (name : string) (f : list string -> list string) :
  Headers.find
    (List.map (fun kv => if Headers.same_name (fst kv) name
                         then (fst kv, f (snd kv)) else kv) h) name
  = option_map f (Headers.find h name).
Proof.
  induction h as [|[k vs] r IH]; simpl; [reflexivity|].
  destruct (Headers.same_name k name) eqn:E; simpl; rewrite E; [reflexivity|exact IH].
Qed.

Lemma find_map_other (h : Headers.t) (name other : string)
    (f : list string -> list string) :
  Headers.same_name name other = false ->
  Headers.find
    (List.map (fun kv => if Headers.same_name (fst kv) name
                         then (fst kv, f (snd kv)) else kv) h) other
  = Headers.find h other.
Proof.
  intros Hne. induction h as [|[k vs] r IH]; simpl; [reflexivity|].
  destruct (Headers.same_name k name) eqn:E; simpl.
  - destruct (Headers.same_name k other) eqn:E'; [|exact IH].
    rewrite (same_name_trans _ _ _ E E') in Hne. discriminate.
  - destruct (Headers.same_name k other); [reflexivity|exact IH].
Qed.

Lemma find_put_same (h : Headers.t) (name : string) (f : list string -> list string) :
  Headers.find (Headers.put h name f) name
  = Some (f (match Headers.find h name with Some vs => vs | None => [] end)).
Proof.
  unfold Headers.put, Headers.has.
  destruct (Headers.find h name) as [vs|] eqn:E.
  - rewrite find_map_same, E. reflexivity.
  - rewrite (find_app_new _ _ _ _ E), same_name_refl. reflexivity.
Qed.

Lemma find_put_other (h : Headers.t) (name other : string)
    (f : list string -> list string) :
  Headers.same_name name other = false ->
  Headers.find (Headers.put h name f) other = Headers.find h other.
Proof.
  intros Hne. unfold Headers.put.
  destruct (Headers.has h name); [now apply find_map_other|].
  destruct (Headers.find h other) as [ws|] eqn:E.
  - now apply find_app_old.
  - rewrite (find_app_new _ _ _ _ E), Hne. reflexivity.
Qed.

Lemma has_append (h : Headers.t) (name value : string) :
  Headers.has (Headers.append h name value) name = true.
Proof. unfold Headers.has, Headers.append. now rewrite find_put_same. Qed.

Lemma get_append_other (h : Headers.t) (name other value : string) :
  Headers.same_name name other = false ->
  Headers.get (Headers.append h name value) other = Headers.get h other.
Proof.
  intros Hne. unfold Headers.get, Headers.append. now rewrite find_put_other.
Qed.


Lemma get_set_other `{HeaderValidation} (h h' : Headers.t) (name other value : string) :
  Headers.same_name name other = false ->
  Headers.set h name value = inr h' -> Headers.get h' other = Headers.get h other.
Proof.
  intros Hne. unfold Headers.set. destruct (legal_value value); [|discriminate].
  intros [= <-]. unfold Headers.get. now rewrite find_put_other.
Qed.


Lemma set_illegal `{HeaderValidation} (h : Headers.t) (name value : string) :
  legal_value value = false -> exists e, Headers.set h name value = inl e
    /\ Err.name e = Err.TypeError.
Proof. intros Hl. unfold Headers.set. rewrite Hl. eauto. Qed.

End HeadersFacts.

(** ** Response *)

Module ResponseFacts.
Section WithBody.
Context {B : Type} {BM : BodyMixin B} {NL : NodeLib}.

Lemma js_or_num_idem (v d : Z) : v <> 0 -> js_or_num (Some v) d = v.
Proof.
  intros Hv. unfold js_or_num. destruct (v =? 0) eqn:E; [|reflexivity].
  apply Z.eqb_eq in E. contradiction.
Qed.

Lemma js_or_num_nonzero (a : option Z) (d : Z) : d <> 0 -> js_or_num a d <> 0.
Proof.
  intros Hd. unfold js_or_num. destruct a as [v|]; [|exact Hd].
  destruct (v =? 0) eqn:E; [exact Hd|]. now apply Z.eqb_neq in E.
Qed.

(** The constructor establishes the invariant of its instances. *)
Lemma new_well_formed (h : Store) (b : option B) (o : Response.opts) (tm : option loc) :
  Response.well_formed (snd (Response.new h b o tm)).
Proof.
  unfold Response.new, Response.well_formed.
  destruct (match tm with Some l => (h, l) | None => alloc h Timings.empty end)
    as [h1 l]. simpl.
  split; [|split].
  - apply js_or_num_nonzero. lia.
  - unfold js_or_str. destruct (js_truthy_str (Response.opt_statusText o)) eqn:E.
    + intros Hf. rewrite Hf in E. discriminate.
    + reflexivity.
  - intros Hct. destruct b as [x|]; [|now elim Hct].
    destruct (Headers.has (Headers.new (Response.opt_headers o)) "Content-Type") eqn:E;
      cbn [negb]; [exact E|].
    destruct (Response.content_type (Some x)) as [ct|]; [|now elim Hct].
    apply HeadersFacts.has_append.
Qed.

Lemma lookup_alloc (h : Store) (x : Timings.t) :
  fst (alloc h x) !! snd (alloc h x) = Some x.
Proof.
  unfold alloc. simpl. rewrite lookup_app_r by lia.
  now rewrite Nat.sub_diag.
Qed.

Lemma alloc_fresh (h : Store) (x : Timings.t) : h !! snd (alloc h x) = None.
Proof. unfold alloc. simpl. apply lookup_ge_None. lia. Qed.

Lemma alloc_keeps (h : Store) (x y : Timings.t) (l : loc) :
  h !! l = Some y -> fst (alloc h x) !! l = Some y.
Proof. intros Hl. unfold alloc. simpl. now apply lookup_app_l_Some. Qed.

(** C10. [clone()] gives a Response with the url, status, status text and
    headers of the original, and with a timings object of its own that is
    empty: a new object in the store, whatever the timings object of the
    original holds, which stays as it was. *)
Theorem clone_keeps_metadata_and_drops_timings `{!BodyMixinLaws B}
    (h : Store) (r : Response.t B) :
  Response.well_formed r ->
  let h' := fst (Response.clone_response h r) in
  let c := snd (Response.clone_response h r) in
  Response.url c = Response.url r
  /\ Response.status c = Response.status r
  /\ Response.statusText c = Response.statusText r
  /\ Response.headers c = Response.headers r
  /\ h' !! Response.timings c = Some Timings.empty
  /\ h !! Response.timings c = None
  /\ (forall x, h !! Response.timings r = Some x -> h' !! Response.timings r = Some x).
Proof.
  intros (Hst & Htxt & Hct). unfold Response.clone_response, Response.new.
  cbn [alloc fst snd Response.opt_url Response.opt_status Response.opt_statusText
       Response.opt_headers Response.opt_remoteAddress Response.url Response.status
       Response.statusText Response.headers Response.timings Headers.new].
  rewrite (js_or_num_idem _ _ Hst).
  repeat split.
  - unfold js_or_str. destruct (js_truthy_str (Response.statusText r)) eqn:E;
      [reflexivity|]. symmetry. now apply Htxt.
  - destruct (clone (Response.body r)) as [x|] eqn:Ec; [|reflexivity].
    destruct (Headers.has (Response.headers r) "Content-Type") eqn:E; cbn [negb];
      [reflexivity|].
    rewrite <- Ec, clone_content_type.
    destruct (Response.content_type (Response.body r)) as [ct|] eqn:Et; [|reflexivity].
    assert (Hh : false = true) by (apply Hct; congruence).
    discriminate Hh.
  - apply (lookup_alloc h Timings.empty).
  - apply (alloc_fresh h Timings.empty).
  - intros x Hx. now apply (alloc_keeps h Timings.empty).
Qed.

Ltac splits := repeat match goal with |- _ /\ _ => split end.

Lemma get_append_new (h : Headers.t) (name value : string) :
  Headers.has h name = false ->
  Headers.get (Headers.append h name value) name = Some value.
Proof.
  unfold Headers.has, Headers.get, Headers.append. intros E.
  rewrite HeadersFacts.find_put_same. destruct (Headers.find h name); [discriminate|].
  reflexivity.
Qed.

(** X18.  The constructor never replaces a Content-Type that the given
    headers have; it appends one exactly when there is a body, the headers
    have none, and a type that is not empty can be read off the body: that
    type is then the header's value.  All other headers are the given
    ones. *)
Theorem constructor_content_type (h : Store) (b : option B) (o : Response.opts)
    (tm : option loc) :
  let r := snd (Response.new h b o tm) in
  let given := Headers.new (Response.opt_headers o) in
  (Headers.has given "Content-Type" = true -> Response.headers r = given)
  /\ (Headers.has given "Content-Type" = false ->
      match b with
      | Some x =>
          if js_truthy_str (extractContentType x)
          then Headers.get (Response.headers r) "Content-Type" = extractContentType x
          else Response.headers r = given
      | None => Response.headers r = given
      end)
  /\ (forall name, Headers.same_name "Content-Type" name = false ->
        Headers.get (Response.headers r) name = Headers.get given name).
Proof.
  intros r given. subst r given. unfold Response.new.
  destruct (match tm with Some l => (h, l) | None => alloc h Timings.empty end)
    as [h1 l]. cbn [snd Response.headers]. splits.
  - intros E. rewrite E. now destruct b.
  - intros E. rewrite E. cbn [negb]. destruct b as [x|]; [|reflexivity].
    unfold Response.content_type.
    destruct (js_truthy_str (extractContentType x)) eqn:T; [|reflexivity].
    destruct (extractContentType x) as [ct|]; [|discriminate].
    now apply get_append_new.
  - intros name N. destruct b as [x|]; [|reflexivity].
    destruct (negb (Headers.has (Headers.new (Response.opt_headers o)) "Content-Type"));
      [|reflexivity].
    destruct (Response.content_type (Some x)); [|reflexivity].
    now apply HeadersFacts.get_append_other.
Qed.

(** X19.  A clone can be cloned: whatever Response is cloned, the clone is
    well formed, so that a clone of it has its url, status, status text and
    headers again.  A clone has no remote address, and it is ok exactly when
    the well-formed original is. *)
Theorem clone_is_well_formed `{!BodyMixinLaws B} (h : Store) (r : Response.t B) :
  let h' := fst (Response.clone_response h r) in
  let c := snd (Response.clone_response h r) in
  let c2 := snd (Response.clone_response h' c) in
  Response.well_formed c
  /\ Response.remoteAddress c = None
  /\ (Response.well_formed r -> Response.ok c = Response.ok r)
  /\ Response.url c2 = Response.url c
  /\ Response.status c2 = Response.status c
  /\ Response.statusText c2 = Response.statusText c
  /\ Response.headers c2 = Response.headers c
  /\ Response.timings c2 <> Response.timings c.
Proof.
  intros h' c c2.
  assert (W : Response.well_formed c) by apply new_well_formed.
  assert (K : forall (g : Store) (x : Response.t B), Response.well_formed x ->
            Response.url (snd (Response.clone_response g x)) = Response.url x
            /\ Response.status (snd (Response.clone_response g x)) = Response.status x
            /\ Response.statusText (snd (Response.clone_response g x))
               = Response.statusText x
            /\ Response.headers (snd (Response.clone_response g x)) = Response.headers x).
  { intros g x (Hst & Htxt & Hct). unfold Response.clone_response, Response.new.
    cbn [alloc fst snd Response.opt_url Response.opt_status Response.opt_statusText
         Response.opt_headers Response.opt_remoteAddress Response.url Response.status
         Response.statusText Response.headers Response.timings Headers.new].
    rewrite (js_or_num_idem _ _ Hst). splits; try reflexivity.
    - unfold js_or_str. destruct (js_truthy_str (Response.statusText x)) eqn:E;
        [reflexivity|]. symmetry. now apply Htxt.
    - destruct (clone (Response.body x)) as [y|] eqn:Ec; [|reflexivity].
      destruct (Headers.has (Response.headers x) "Content-Type") eqn:E; cbn [negb];
        [reflexivity|].
      rewrite <- Ec, clone_content_type.
      destruct (Response.content_type (Response.body x)) as [ct|] eqn:Et; [|reflexivity].
      assert (Hh : false = true) by (apply Hct; congruence).
      discriminate Hh. }
  destruct (K h' c W) as (K1 & K2 & K3 & K4).
  splits; auto.
  - intros Wr. destruct (K h r Wr) as (_ & St & _). unfold Response.ok.
    fold c in St. now rewrite St.
  - subst c2 c h'. unfold Response.clone_response, Response.new, alloc.
    cbn [fst snd Response.timings]. rewrite length_app. cbn. lia.
Qed.

End WithBody.
End ResponseFacts.

(** ** The orchestrator: invariants of one call *)

Module FetchFacts.
Import Fetch.
Section Orchestrator.
Context {HV : HeaderValidation} {NL : NodeLib} {RL : RequestLib}
        {BM : BodyMixin BodyStream}.

Ltac flags := unfold awaiting in *; cbn in *.
Ltac splits := repeat match goal with |- _ /\ _ => split end.

Lemma deliver_fields (now : Z) (b : BodyStream) (o : Response.opts) (s : state) :
  let r := snd (Response.new (store s) (Some b) o (Some (timings s))) in
  response (deliver now b o s) = Some r
  /\ promise (deliver now b o s)
     = match promise s with Pending => Fulfilled r | p => p end
  /\ Response.body r = Some b
  /\ timings (deliver now b o s) = timings s
  /\ sent (deliver now b o s) = sent s
  /\ socket (deliver now b o s) = socket s
  /\ reqTimeout (deliver now b o s) = reqTimeout s
  /\ listening (deliver now b o s) = listening s
  /\ req_aborted (deliver now b o s) = req_aborted s
  /\ responded (deliver now b o s) = responded s
  /\ sniff (deliver now b o s) = sniff s
  /\ stream_errors (deliver now b o s) = stream_errors s
  /\ body_destroyed (deliver now b o s) = body_destroyed s.
Proof.
  unfold deliver, Response.new, resolve. cbn.
  destruct (promise s) eqn:E; cbn; rewrite ?E; repeat split; reflexivity.
Qed.

Ltac bools :=
  repeat match goal with
  | H : _ && _ = true |- _ => apply andb_true_iff in H; destruct H
  | H : negb _ = true |- _ => apply negb_true_iff in H
  end.
Ltac close_inv_with Hp Hf Hs Hl Hfw :=
  constructor; flags; intros;
  repeat match goal with
  | E : promise ?s = _, H : promise ?s = _ |- _ => rewrite E in H
  end;
  try congruence;
  bools; repeat split;
  try congruence; try tauto; eauto;
  try (apply Hf; congruence);
  try (apply Hp; congruence);
  try (edestruct Hfw as [? ?]; [eassumption|]; congruence);
  try (edestruct Hl as [? ?]; [eassumption|]; congruence);
  try (edestruct Hs as [? ?]; [eassumption|]; congruence);
  try (intuition (subst; eauto; congruence)).
Ltac close_inv :=
  constructor; flags; intros; try congruence; bools; repeat split;
  try congruence; try tauto; eauto.

Lemma inv_dispatch (h : Store) (req : Request.t) (s : state) :
  dispatch h req = inr s -> inv s.
Proof.
  unfold dispatch. destruct (getNodeRequestOptions req); [discriminate|].
  cbn. destruct (Request.signal req) as [[a]|]; [destruct a|]; cbn; intros [= <-].
  - unfold abort, reject; cbn. destruct (Request.body req) as [[]|]; cbn; close_inv.
  - close_inv.
  - close_inv.
Qed.

Lemma inv_finalize_reject (e : Err.t) (s : state) : inv s -> inv (finalize (reject e s)).
Proof.
  intros [Ha Hp Hf Hs Hb Hl Hfw Ht]. unfold finalize, reject.
  destruct (promise s) eqn:E; close_inv_with Hp Hf Hs Hl Hfw.
Qed.

Lemma inv_reject (e : Err.t) (s : state) :
  inv s -> awaiting s = false -> inv (reject e s).
Proof.
  intros [Ha Hp Hf Hs Hb Hl Hfw Ht] Hw. unfold reject.
  destruct (promise s) eqn:E; close_inv_with Hp Hf Hs Hl Hfw.
Qed.

Lemma inv_deliver (now : Z) (b : BodyStream) (o : Response.opts) (s : state) :
  inv s -> responded s = true -> sniff s = None ->
  (forall r, promise s <> Fulfilled r) ->
  inv (deliver now b o s).
Proof.
  intros [Ha Hp Hf Hs Hb Hl Hfw Ht] Hr Hn Hnf.
  destruct (deliver_fields now b o s)
    as (Eresp & Eprom & Ebody & _ & Esent & _ & Etimer & Elist & Eab & Eresd & Esn & _).
  constructor; unfold awaiting; 
    rewrite ?Eresp, ?Eprom, ?Esent, ?Etimer, ?Elist, ?Eab, ?Eresd, ?Esn.
  - rewrite Hr, andb_false_r. discriminate.
  - destruct (promise s); discriminate.
  - intros r. destruct (promise s) eqn:E; try discriminate.
    + now intros [= <-].
    + intros H. now elim (Hnf r).
  - now rewrite Hn.
  - intros r Hr'.
    match type of Ebody with Response.body ?t = _ => assert (r = t) as -> by congruence end.
    rewrite Ebody. discriminate.
  - exact Hl.
  - intros n. destruct (promise s) eqn:E; try discriminate. exact (Hfw n).
  - intros H. apply Ht in H. unfold awaiting in H.
    rewrite Hr, andb_false_r in H. discriminate.
Qed.


Lemma inv_same (s s' : state) :
  promise s' = promise s -> response s' = response s -> sent s' = sent s ->
  req_aborted s' = req_aborted s -> responded s' = responded s ->
  sniff s' = sniff s -> listening s' = listening s -> reqTimeout s' = reqTimeout s ->
  inv s -> inv s'.
Proof.
  intros E1 E2 E3 E4 E5 E6 E7 E8 [Ha Hp Hf Hs Hb Hl Hfw Ht].
  constructor; unfold awaiting; rewrite ?E1, ?E2, ?E3, ?E4, ?E5, ?E6, ?E7, ?E8;
    assumption.
Qed.

Lemma inv_finalize_forward (now : Z) (next : Request.t) (s : state) :
  inv s -> inv (finalize (resolve now (Forwarded next) s)).
Proof.
  intros [Ha Hp Hf Hs Hb Hl Hfw Ht]. unfold finalize, resolve. cbn.
  destruct (promise s) eqn:E; close_inv_with Hp Hf Hs Hl Hfw.
Qed.

Lemma inv_body_handling (req : Request.t) (res : Res.t) (hs : Headers.t) (now : Z)
    (s : state) :
  inv s -> responded s = true -> sniff s = None -> response s = None ->
  (forall r, promise s <> Fulfilled r) ->
  inv (body_handling req res hs now s).
Proof.
  intros Hinv Hr Hn Hresp Hnf. unfold body_handling.
  assert (Hinv' : inv (with_readable_once true (with_end_once true s)))
    by (revert Hinv; apply inv_same; reflexivity).
  destruct (content_decoding req res hs).
  - apply inv_deliver; assumption.
  - apply inv_deliver; assumption.
  - destruct Hinv as [Ha Hp Hf Hs Hb Hl Hfw Ht].
    constructor; flags; intros; try congruence; eauto.
Qed.

Lemma inv_abort (req : Request.t) (s : state) :
  inv s -> inv (abortAndFinalize req s).
Proof.
  intros Hinv. unfold abortAndFinalize.
  apply (inv_same (finalize (reject (abort_error s) s))).
  9: now apply inv_finalize_reject.
  all: unfold abort, finalize, reject;
    destruct (promise s); cbn;
    destruct (Request.body req) as [[]|]; cbn;
    destruct (response s) as [r'|] eqn:E; try destruct (Response.body r');
    cbn; rewrite ?E; reflexivity.
Qed.

Lemma inv_step (req : Request.t) (s : state) (ev : event) :
  inv s -> inv (step req s ev).
Proof.
  intros Hinv. destruct ev; cbn [step].
  - (* Socket *)
    destruct (awaiting s && negb (socket s)) eqn:G; [|exact Hinv].
    apply andb_true_iff in G. destruct G as [G _].
    unfold on_socket. destruct (Request.timeout req =? 0).
    + revert Hinv. apply inv_same; reflexivity.
    + destruct Hinv as [Ha Hp Hf Hs Hb Hl Hfw Ht].
      constructor; unfold awaiting in *; cbn; try assumption. intros _. exact G.
  - destruct (socket s); [|exact Hinv]. revert Hinv. apply inv_same; reflexivity.
  - destruct (socket s); [|exact Hinv]. revert Hinv. apply inv_same; reflexivity.
  - destruct (socket s); [|exact Hinv]. revert Hinv. apply inv_same; reflexivity.
  - (* Timeout *)
    destruct (reqTimeout s) eqn:G; [|exact Hinv]. unfold on_timeout.
    apply inv_finalize_reject.
    destruct Hinv as [Ha Hp Hf Hs Hb Hl Hfw Ht]. constructor; cbn; try assumption.
    discriminate.
  - destruct (sent s); [|exact Hinv]. unfold on_error. now apply inv_finalize_reject.
  - (* Incoming *)
    destruct (awaiting s) eqn:G; [|exact Hinv]. unfold on_response.
    set (s1 := with_responded true (with_reqTimeout false s)).
    assert (Hw1 : awaiting s1 = false)
      by (unfold awaiting; cbn; now rewrite andb_false_r).
    assert (H1 : inv s1).
    { destruct Hinv as [Ha Hp Hf Hs Hb Hl Hfw Ht].
      constructor; fold (awaiting s1); rewrite ?Hw1; cbn; try assumption;
        try discriminate.
      intros Hsn. destruct (Hs Hsn) as [? Hr]. unfold awaiting in G.
      rewrite Hr, andb_false_r in G. discriminate. }
    assert (Hpend : promise s1 = Pending) by (apply (inv_awaiting s Hinv G)).
    assert (Hresp : response s1 = None) by (apply (inv_pending s Hinv), Hpend).
    assert (Hsn : sniff s1 = None).
    { cbn. destruct (sniff s) eqn:E; [|reflexivity].
      destruct (inv_sniff s Hinv) as [_ Hr]; [congruence|].
      unfold awaiting in G. rewrite Hr, andb_false_r in G. discriminate. }
    destruct (redirect_decision req s1 res).
    + apply inv_body_handling; try assumption; try reflexivity. congruence.
    + apply inv_body_handling; try assumption; try reflexivity. congruence.
    + apply inv_body_handling; try assumption; try reflexivity.
      * now apply inv_reject.
      * unfold reject. now rewrite Hpend.
      * unfold reject. now rewrite Hpend.
      * unfold reject. now rewrite Hpend.
      * unfold reject. rewrite Hpend. cbn. congruence.
    + now apply inv_finalize_reject.
    + now apply inv_finalize_forward.
  - (* Readable *)
    destruct (readable_once s); [|exact Hinv]. revert Hinv. apply inv_same; reflexivity.
  - (* Data *)
    destruct (sniff s) as [o|] eqn:G; [|exact Hinv]. unfold on_first_chunk.
    destruct (inv_sniff s Hinv) as [Hresp Hr]; [congruence|].
    apply inv_deliver; try assumption; try reflexivity.
    + destruct Hinv as [Ha Hp Hf Hs Hb Hl Hfw Ht].
      constructor; flags; try assumption. congruence.
    + cbn. intros r Hf. apply (inv_fulfilled s Hinv) in Hf. congruence.
  - (* Ended *)
    destruct (end_once s); [|exact Hinv].
    destruct Hinv as [Ha Hp Hf Hs Hb Hl Hfw Ht].
    constructor; flags; try assumption; try discriminate.
    intros n Hn. destruct (Hfw n Hn). now split.
  - (* Abort *)
    destruct (listening s); [|exact Hinv]. now apply inv_abort.
Qed.

Lemma reachable_inv (req : Request.t) (s : state) : reachable req s -> inv s.
Proof.
  induction 1 as [h s Hd|s ev _ IH].
  - exact (inv_dispatch h req s Hd).
  - now apply inv_step.
Qed.
(** A settled promise stays as it is: a promise is settled once. *)
Lemma settled_reject (e : Err.t) (s : state) :
  promise s <> Pending -> promise (reject e s) = promise s.
Proof. intros H. unfold reject. destruct (promise s) eqn:E; cbn; congruence. Qed.

Lemma settled_resolve (now : Z) (v : settlement) (s : state) :
  promise s <> Pending -> promise (resolve now v s) = promise s.
Proof. intros H. unfold resolve. cbn. destruct (promise s) eqn:E; cbn; congruence. Qed.

Lemma settled_deliver (now : Z) (b : BodyStream) (o : Response.opts) (s : state) :
  promise s <> Pending -> promise (deliver now b o s) = promise s.
Proof.
  intros Hs. destruct (deliver_fields now b o s) as (_ & -> & _).
  destruct (promise s) eqn:E; congruence.
Qed.

Lemma settled_body_handling (req : Request.t) (res : Res.t) (hs : Headers.t) (now : Z)
    (s : state) :
  promise s <> Pending -> promise (body_handling req res hs now s) = promise s.
Proof.
  intros Hs. unfold body_handling.
  destruct (content_decoding req res hs); try reflexivity;
    now rewrite settled_deliver.
Qed.

Lemma promise_abort (req : Request.t) (s : state) :
  promise (abort req s) = promise (reject (abort_error s) s).
Proof.
  unfold abort, reject. destruct (promise s) eqn:Ep; cbn;
    destruct (Request.body req) as [[]|]; cbn;
    destruct (response s) as [r'|] eqn:E; try destruct (Response.body r');
    cbn; rewrite ?E, ?Ep; reflexivity.
Qed.

Lemma settled_step (req : Request.t) (s : state) (ev : event) :
  promise s <> Pending -> promise (step req s ev) = promise s.
Proof.
  intros Hs. destruct ev; cbn [step].
  - destruct (awaiting s && negb (socket s)); [|reflexivity].
    unfold on_socket. now destruct (Request.timeout req =? 0).
  - now destruct (socket s).
  - now destruct (socket s).
  - now destruct (socket s).
  - destruct (reqTimeout s); [|reflexivity]. unfold on_timeout, finalize. cbn.
    now rewrite settled_reject.
  - destruct (sent s); [|reflexivity]. unfold on_error, finalize. cbn.
    now rewrite settled_reject.
  - destruct (awaiting s); [|reflexivity]. unfold on_response.
    set (s1 := with_responded true (with_reqTimeout false s)).
    assert (H1 : promise s1 <> Pending) by exact Hs.
    change (promise s) with (promise s1).
    destruct (redirect_decision req s1 res).
    + now rewrite settled_body_handling.
    + now rewrite settled_body_handling.
    + rewrite settled_body_handling; rewrite settled_reject; trivial.
    + unfold finalize. cbn. now rewrite settled_reject.
    + unfold finalize. cbn. now rewrite settled_resolve.
  - now destruct (readable_once s).
  - destruct (sniff s); [|reflexivity]. unfold on_first_chunk.
    now rewrite settled_deliver.
  - now destruct (end_once s).
  - destruct (listening s); [|reflexivity]. unfold abortAndFinalize, finalize. cbn.
    rewrite promise_abort. now apply settled_reject.
Qed.

Lemma settled_run (req : Request.t) (evs : list event) (s : state) :
  promise s <> Pending -> promise (run req s evs) = promise s.
Proof.
  revert s. induction evs as [|ev evs IH]; intros s Hs; [reflexivity|].
  change (run req s (ev :: evs)) with (run req (step req s ev) evs).
  rewrite IH; rewrite settled_step; trivial.
Qed.


(** *** What the "response" callback does, by the decision it takes *)

Lemma redirect_decision_frame (req : Request.t) (s s' : state) (res : Res.t) :
  timings s' = timings s -> redirect_decision req s' res = redirect_decision req s res.
Proof.
  intros E. unfold redirect_decision, no_redirect_error, max_redirect_error,
    unsupported_redirect_error, fetch_error. now rewrite E.
Qed.

Lemma awaiting_pending (req : Request.t) (s : state) :
  reachable req s -> awaiting s = true ->
  promise s = Pending /\ response s = None /\ sniff s = None.
Proof.
  intros Hr Hw. pose proof (reachable_inv req s Hr) as Hinv.
  assert (Hp : promise s = Pending) by exact (inv_awaiting s Hinv Hw).
  repeat split; trivial.
  - exact (inv_pending s Hinv Hp).
  - destruct (sniff s) eqn:E; [|reflexivity].
    destruct (inv_sniff s Hinv) as [_ Hd]; [congruence|].
    unfold awaiting in Hw. rewrite Hd, andb_false_r in Hw. discriminate.
Qed.

Lemma on_response_error (req : Request.t) (s : state) (res : Res.t) (now : Z)
    (e : Err.t) :
  promise s = Pending -> redirect_decision req s res = DError e ->
  let s' := on_response req res now s in
  promise s' = Rejected e /\ req_aborted s' = true /\ listening s' = false
  /\ reqTimeout s' = false /\ response s' = response s.
Proof.
  intros Hp Hd. unfold on_response. cbv zeta.
  rewrite (redirect_decision_frame req s
             (with_responded true (with_reqTimeout false s)) res eq_refl), Hd.
  unfold finalize, reject. cbn. rewrite Hp. cbn. repeat split; reflexivity.
Qed.

Lemma on_response_follow (req : Request.t) (s : state) (res : Res.t) (now : Z)
    (next : Request.t) :
  promise s = Pending -> redirect_decision req s res = DFollow next ->
  let s' := on_response req res now s in
  promise s' = Forwarded next /\ req_aborted s' = true /\ listening s' = false
  /\ reqTimeout s' = false /\ response s' = response s
  /\ store s' = update (store s) (timings s) (Timings.set_totalTime now).
Proof.
  intros Hp Hd. unfold on_response. cbv zeta.
  rewrite (redirect_decision_frame req s
             (with_responded true (with_reqTimeout false s)) res eq_refl), Hd.
  unfold finalize, resolve. cbn. rewrite Hp. cbn. repeat split; reflexivity.
Qed.

(** C9. In redirect mode error, a response with a redirect status rejects
    the pending call at once with the redirect-policy error: the FetchError
    of type "no-redirect" whose message is "redirect mode is set to error: "
    followed by the request URL, which has no system error as its cause and
    carries the timings object; the request is torn down and no follow-up
    is issued, then or later; nothing is asked of the headers, so a Location
    header may be present or absent. *)
Theorem error_mode_rejects_redirect (req : Request.t) (s : state) (res : Res.t)
    (now : Z) :
  reachable req s -> awaiting s = true ->
  Request.redirect req = "error" ->
  isRedirect (Res.statusCode res) = true ->
  let s' := step req s (Incoming res now) in
  (exists e,
     promise s' = Rejected e
     /\ Err.name e = Err.FetchError
     /\ Err.type e = "no-redirect"
     /\ Err.message e
        = String.append "redirect mode is set to error: " (Request.url req)
     /\ Err.cause e = None
     /\ Err.timings e = Some (timings s))
  /\ promise s' = Rejected (no_redirect_error req s)
  /\ Err.timings (no_redirect_error req s) = Some (timings s)
  /\ req_aborted s' = true /\ listening s' = false /\ reqTimeout s' = false
  /\ (forall evs next, promise (run req s' evs) <> Forwarded next).
Proof.
  intros Hr Hw Hmode Hred s'.
  destruct (awaiting_pending req s Hr Hw) as (Hp & _).
  assert (Hd : redirect_decision req s res = DError (no_redirect_error req s)).
  { unfold redirect_decision. rewrite Hred, Hmode. reflexivity. }
  subst s'. cbn [step]. rewrite Hw.
  destruct (on_response_error req s res now _ Hp Hd) as (E1 & E2 & E3 & E4 & _).
  split.
  { exists (no_redirect_error req s). split; [exact E1|].
    split; [reflexivity|]. split; [reflexivity|]. split; [reflexivity|].
    split; reflexivity. }
  repeat split; trivial.
  intros evs next. rewrite settled_run; rewrite E1; discriminate.
Qed.


(** *** Follow mode *)

(** The follow-up descriptor the code builds for a Location. *)
Lemma follow_decision (req : Request.t) (s : state) (res : Res.t) (location : string) :
  Request.redirect req = "follow" ->
  isRedirect (Res.statusCode res) = true ->
  Headers.get (Res.headers res) "Location" = Some location ->
  redirect_decision req s res
  = if Request.counter req >=? Request.follow req then DError (max_redirect_error req s)
    else if unsupported_redirect req res then DError (unsupported_redirect_error s)
    else DFollow (Request.new (resolve_url (Request.url req) location)
                    (if becomes_get req res then rewrite_to_get (requestOpts req)
                     else requestOpts req)).
Proof.
  intros Hmode Hred Hloc. unfold redirect_decision.
  rewrite Hred, Hmode, Hloc. reflexivity.
Qed.

Lemma follow_decision_inv (req : Request.t) (s : state) (res : Res.t) (next : Request.t) :
  redirect_decision req s res = DFollow next ->
  Request.redirect req = "follow"
  /\ isRedirect (Res.statusCode res) = true
  /\ Request.counter req < Request.follow req
  /\ unsupported_redirect req res = false
  /\ exists location,
       Headers.get (Res.headers res) "Location" = Some location
       /\ next = Request.new (resolve_url (Request.url req) location)
                   (if becomes_get req res then rewrite_to_get (requestOpts req)
                    else requestOpts req).
Proof.
  unfold redirect_decision.
  destruct (isRedirect (Res.statusCode res)); [|discriminate].
  destruct (String.eqb (Request.redirect req) "error"); [discriminate|].
  destruct (String.eqb (Request.redirect req) "manual").
  { destruct (Headers.get (Res.headers res) "Location"); cbn; [|discriminate].
    destruct (Headers.set _ _ _); discriminate. }
  destruct (String.eqb (Request.redirect req) "follow") eqn:Hm; [|discriminate].
  apply String.eqb_eq in Hm.
  destruct (Headers.get (Res.headers res) "Location") as [location|]; cbn;
    [|discriminate].
  destruct (Request.counter req >=? Request.follow req) eqn:Hc; [discriminate|].
  destruct (unsupported_redirect req res); [discriminate|].
  intros [= <-]. repeat split; trivial.
  - rewrite Z.geb_leb in Hc. now apply Z.leb_gt in Hc.
  - eauto.
Qed.

Lemma not_forwarded_deliver (now : Z) (b : BodyStream) (o : Response.opts) (s : state) :
  (forall n, promise s <> Forwarded n) ->
  forall n, promise (deliver now b o s) <> Forwarded n.
Proof.
  intros Hs n. destruct (deliver_fields now b o s) as (_ & -> & _).
  destruct (promise s) eqn:E; try discriminate. apply Hs.
Qed.

Lemma not_forwarded_body_handling (req : Request.t) (res : Res.t) (hs : Headers.t)
    (now : Z) (s : state) :
  (forall n, promise s <> Forwarded n) ->
  forall n, promise (body_handling req res hs now s) <> Forwarded n.
Proof.
  intros Hs n. unfold body_handling.
  destruct (content_decoding req res hs).
  - now apply not_forwarded_deliver.
  - now apply not_forwarded_deliver.
  - apply Hs.
Qed.

(** Only the decision to follow resolves the promise with a follow-up. *)
Lemma forwarded_decision (req : Request.t) (s : state) (res : Res.t) (now : Z)
    (next : Request.t) :
  promise s = Pending ->
  promise (on_response req res now s) = Forwarded next ->
  redirect_decision req s res = DFollow next.
Proof.
  intros Hp. unfold on_response. cbv zeta.
  rewrite (redirect_decision_frame req s
             (with_responded true (with_reqTimeout false s)) res eq_refl).
  destruct (redirect_decision req s res) as [hs|hs|e hs|e|n].
  - intros H. apply not_forwarded_body_handling in H; [easy|]. cbn. congruence.
  - intros H. apply not_forwarded_body_handling in H; [easy|]. cbn. congruence.
  - intros H. apply not_forwarded_body_handling in H; [easy|].
    unfold reject. cbn. rewrite Hp. cbn. congruence.
  - unfold finalize, reject. cbn. rewrite Hp. cbn. discriminate.
  - unfold finalize, resolve. cbn. rewrite Hp. cbn. congruence.
Qed.

Lemma becomes_get_true (req : Request.t) (res : Res.t) :
  becomes_get req res = true <->
  (Res.statusCode res = 303
   \/ ((Res.statusCode res = 301 \/ Res.statusCode res = 302)
       /\ Request.method req = "POST")).
Proof.
  unfold becomes_get.
  rewrite orb_true_iff, andb_true_iff, orb_true_iff, !Z.eqb_eq, String.eqb_eq.
  tauto.
Qed.

(** C1. When the call is resolved with a follow-up request (the redirect is
    followed), the mode is follow, the status is a redirect status, the
    Location resolves to the follow-up's URL and the counter is below the
    bound; for status 303, and for 301 or 302 on a POST, the follow-up is a
    GET without body and without a content-length header; for 307, 308, and
    301 or 302 on another method, it keeps the method and the body. *)
Theorem followed_redirect_descriptor (req : Request.t) (s : state) (res : Res.t)
    (now : Z) (next : Request.t) :
  reachable req s -> awaiting s = true ->
  promise (step req s (Incoming res now)) = Forwarded next ->
  (Request.redirect req = "follow"
   /\ isRedirect (Res.statusCode res) = true
   /\ Request.counter req < Request.follow req
   /\ exists location,
        Headers.get (Res.headers res) "Location" = Some location
        /\ Request.url next = resolve_url (Request.url req) location)
  /\ ((Res.statusCode res = 303
       \/ ((Res.statusCode res = 301 \/ Res.statusCode res = 302)
           /\ Request.method req = "POST")) ->
      Request.method next = "GET"
      /\ Request.body next = None
      /\ Headers.has (Request.headers next) "content-length" = false
      /\ Headers.get (Request.headers next) "content-length" = None)
  /\ ((Res.statusCode res = 307 \/ Res.statusCode res = 308
       \/ ((Res.statusCode res = 301 \/ Res.statusCode res = 302)
           /\ Request.method req <> "POST")) ->
      Request.method next = Request.method req
      /\ Request.body next = Request.body req).
Proof.
  intros Hr Hw Hf. destruct (awaiting_pending req s Hr Hw) as (Hp & _).
  cbn [step] in Hf. rewrite Hw in Hf.
  apply (forwarded_decision req s res now next Hp) in Hf.
  apply follow_decision_inv in Hf.
  destruct Hf as (Hmode & Hred & Hc & _ & location & Hloc & ->).
  split; [|split].
  - repeat split; trivial. exists location. split; trivial.
  - intros Hget. apply becomes_get_true in Hget. rewrite Hget. cbn.
    repeat split.
    + apply HeadersFacts.has_delete.
    + apply HeadersFacts.get_delete.
  - intros Hkeep.
    assert (Hg : becomes_get req res = false).
    { destruct (becomes_get req res) eqn:E; [|reflexivity].
      apply becomes_get_true in E. exfalso.
      destruct Hkeep as [H|[H|[H Hm]]], E as [E|[E Em]]; try lia; congruence. }
    rewrite Hg. cbn. split; reflexivity.
Qed.

(** C8. A redirect in follow mode with a Location and a counter below the
    bound: when the status is not 303 and the request has a body whose total
    size is unknown, the call is rejected with the unsupported-redirect
    FetchError and no follow-up is dispatched; when the status is 303, or
    there is no body, or the size is known, the redirect is followed, so this
    error is not raised. *)
Theorem unsupported_redirect_exactly (req : Request.t) (s : state) (res : Res.t)
    (now : Z) (location : string) :
  reachable req s -> awaiting s = true ->
  Request.redirect req = "follow" ->
  isRedirect (Res.statusCode res) = true ->
  Headers.get (Res.headers res) "Location" = Some location ->
  Request.counter req < Request.follow req ->
  let s' := step req s (Incoming res now) in
  ((Res.statusCode res <> 303 /\ Request.body req <> None
    /\ Request.getTotalBytes req = None) ->
   promise s' = Rejected (unsupported_redirect_error s)
   /\ Err.type (unsupported_redirect_error s) = "unsupported-redirect"
   /\ req_aborted s' = true
   /\ forall evs next, promise (run req s' evs) <> Forwarded next)
  /\ ((Res.statusCode res = 303 \/ Request.body req = None
       \/ Request.getTotalBytes req <> None) ->
      (exists next, promise s' = Forwarded next)
      /\ forall e, promise s' = Rejected e -> Err.type e <> "unsupported-redirect").
Proof.
  intros Hr Hw Hmode Hred Hloc Hc s'.
  destruct (awaiting_pending req s Hr Hw) as (Hp & _).
  pose proof (follow_decision req s res location Hmode Hred Hloc) as Hd.
  assert (Hge : (Request.counter req >=? Request.follow req) = false)
    by (rewrite Z.geb_leb; apply Z.leb_gt; exact Hc).
  rewrite Hge in Hd. subst s'. cbn [step]. rewrite Hw. split.
  - intros (H303 & Hbody & Hbytes).
    assert (Hu : unsupported_redirect req res = true).
    { unfold unsupported_redirect. rewrite Hbytes.
      destruct (Request.body req); [|now elim Hbody].
      apply Z.eqb_neq in H303. now rewrite H303. }
    rewrite Hu in Hd.
    destruct (on_response_error req s res now _ Hp Hd) as (E1 & E2 & _).
    repeat split; trivial.
    intros evs next. rewrite settled_run; rewrite E1; discriminate.
  - intros Hok.
    assert (Hu : unsupported_redirect req res = false).
    { unfold unsupported_redirect.
      destruct Hok as [H|[H|H]].
      - apply Z.eqb_eq in H. now rewrite H.
      - rewrite H. now rewrite andb_false_r.
      - destruct (Request.getTotalBytes req); [|now elim H].
        now rewrite andb_false_r. }
    rewrite Hu in Hd.
    destruct (on_response_follow req s res now _ Hp Hd) as (E1 & _).
    split; [eauto|]. intros e He. rewrite E1 in He. discriminate.
Qed.

(** *** Terminal responses and the decoding of their body *)

(** The headers a terminal response goes on with differ from the received
    ones in Location at most. *)
Lemma terminal_headers (req : Request.t) (s : state) (res : Res.t) :
  terminal req s res = true ->
  exists hs,
    (redirect_decision req s res = DNone hs
     \/ redirect_decision req s res = DManualRewrite hs
     \/ exists e, redirect_decision req s res = DManualCorrupt e hs)
    /\ forall name, Headers.same_name "Location" name = false ->
                    Headers.get hs name = Headers.get (Res.headers res) name.
Proof.
  unfold terminal, redirect_decision.
  destruct (isRedirect (Res.statusCode res)); [|eauto].
  destruct (String.eqb (Request.redirect req) "error"); [discriminate|].
  destruct (String.eqb (Request.redirect req) "manual").
  { destruct (Headers.get (Res.headers res) "Location"); cbn [option_map]; [|eauto].
    destruct (Headers.set _ _ _) as [e|hs] eqn:E; [eauto 6|].
    intros _. exists hs. split; [auto|].
    intros name Hn. exact (HeadersFacts.get_set_other _ _ _ _ _ Hn E). }
  destruct (String.eqb (Request.redirect req) "follow"); [|eauto].
  destruct (Headers.get (Res.headers res) "Location"); cbn [option_map]; [|eauto].
  destruct (Request.counter req >=? Request.follow req); [discriminate|].
  destruct (unsupported_redirect req res); discriminate.
Qed.

Lemma content_decoding_headers (req : Request.t) (res : Res.t) (hs hs' : Headers.t) :
  Headers.get hs "Content-Encoding" = Headers.get hs' "Content-Encoding" ->
  content_decoding req res hs = content_decoding req res hs'.
Proof. intros E. unfold content_decoding. now rewrite E. Qed.

(** The body handling of a terminal response, on a call that still awaits
    its response. *)
Lemma terminal_step (req : Request.t) (s : state) (res : Res.t) (now : Z) :
  awaiting s = true -> promise s = Pending -> terminal req s res = true ->
  exists hs s1,
    step req s (Incoming res now) = body_handling req res hs now s1
    /\ content_decoding req res hs = content_decoding req res (Res.headers res)
    /\ (forall name, Headers.same_name "Location" name = false ->
                     Headers.get hs name = Headers.get (Res.headers res) name)
    /\ response s1 = response s /\ sniff s1 = sniff s
    /\ timings s1 = timings s /\ store s1 = store s
    /\ stream_errors s1 = stream_errors s
    /\ listening s1 = listening s
    /\ (promise s1 = Pending
        \/ exists e, redirect_decision req s res = DManualCorrupt e hs
                     /\ promise s1 = Rejected e).
Proof.
  intros Hw Hp Ht. destruct (terminal_headers req s res Ht) as (hs & Hd & Hget).
  cbn [step]. rewrite Hw. unfold on_response. cbv zeta.
  rewrite (redirect_decision_frame req s
             (with_responded true (with_reqTimeout false s)) res eq_refl).
  assert (Hc : content_decoding req res hs = content_decoding req res (Res.headers res))
    by (apply content_decoding_headers, Hget; reflexivity).
  destruct Hd as [Hd|[Hd|[e Hd]]]; rewrite Hd.
  - exists hs, (with_responded true (with_reqTimeout false s)).
    repeat split; auto.
  - exists hs, (with_responded true (with_reqTimeout false s)).
    repeat split; auto.
  - exists hs, (reject e (with_responded true (with_reqTimeout false s))).
    unfold reject. cbn. rewrite Hp. cbn. repeat split; eauto.
Qed.

Lemma content_decoding_as_is (req : Request.t) (res : Res.t) (hs : Headers.t) :
  content_decoding req res hs = AsIs <->
  (Request.compress req = false
   \/ Request.method req = "HEAD"
   \/ Headers.get hs "Content-Encoding" = None
   \/ Res.statusCode res = 204
   \/ Res.statusCode res = 304
   \/ exists codings,
        Headers.get hs "Content-Encoding" = Some codings
        /\ codings <> "gzip" /\ codings <> "x-gzip"
        /\ codings <> "deflate" /\ codings <> "x-deflate").
Proof.
  unfold content_decoding.
  destruct (Request.compress req); cbn [negb orb]; [|intuition].
  destruct (String.eqb (Request.method req) "HEAD") eqn:Em; cbn [orb].
  { apply String.eqb_eq in Em. intuition. }
  apply String.eqb_neq in Em.
  destruct (Headers.get hs "Content-Encoding") as [c|]; cbn [is_null orb];
    [|intuition].
  destruct (Res.statusCode res =? 204) eqn:E4; cbn [orb].
  { apply Z.eqb_eq in E4. intuition. }
  destruct (Res.statusCode res =? 304) eqn:E3; cbn [orb].
  { apply Z.eqb_eq in E3. intuition. }
  apply Z.eqb_neq in E4, E3. unfold codings_is.
  destruct (String.eqb c "gzip") eqn:G1; cbn [orb].
  { apply String.eqb_eq in G1. split; [discriminate|].
    intros [H|[H|[H|[H|[H|(c' & [= <-] & H & _)]]]]]; congruence. }
  destruct (String.eqb c "x-gzip") eqn:G2; cbn [orb].
  { apply String.eqb_eq in G2. split; [discriminate|].
    intros [H|[H|[H|[H|[H|(c' & [= <-] & _ & H & _)]]]]]; congruence. }
  destruct (String.eqb c "deflate") eqn:D1; cbn [orb].
  { apply String.eqb_eq in D1. split; [discriminate|].
    intros [H|[H|[H|[H|[H|(c' & [= <-] & _ & _ & H & _)]]]]]; congruence. }
  destruct (String.eqb c "x-deflate") eqn:D2; cbn [orb].
  { apply String.eqb_eq in D2. split; [discriminate|].
    intros [H|[H|[H|[H|[H|(c' & [= <-] & _ & _ & _ & H)]]]]]; congruence. }
  apply String.eqb_neq in G1, G2, D1, D2.
  split; [|reflexivity]. intros _. do 5 right. exists c. auto.
Qed.

(** C6. For a terminal response the Response is built at once on the body as
    it comes from the transport, with no zlib transform, exactly when
    compression support is off, or the method is HEAD, or there is no
    Content-Encoding header, or the status is 204 or 304, or the
    Content-Encoding is none of gzip, x-gzip, deflate and x-deflate. *)
Theorem passes_body_through_exactly (req : Request.t) (s : state) (res : Res.t)
    (now : Z) :
  reachable req s -> awaiting s = true -> terminal req s res = true ->
  let s' := step req s (Incoming res now) in
  let codings := Headers.get (Res.headers res) "Content-Encoding" in
  (exists r, response s' = Some r /\ Response.body r = Some (Piped None))
  <->
  (Request.compress req = false
   \/ Request.method req = "HEAD"
   \/ codings = None
   \/ Res.statusCode res = 204
   \/ Res.statusCode res = 304
   \/ exists c, codings = Some c
        /\ c <> "gzip" /\ c <> "x-gzip" /\ c <> "deflate" /\ c <> "x-deflate").
Proof.
  intros Hr Hw Ht s' codings.
  destruct (awaiting_pending req s Hr Hw) as (Hp & Hresp & Hsn).
  destruct (terminal_step req s res now Hw Hp Ht)
    as (hs & s1 & Hstep & Hc & _ & Hr1 & _).
  subst s' codings. rewrite Hstep, <- content_decoding_as_is, <- Hc.
  unfold body_handling.
  destruct (content_decoding req res hs).
  - split; [reflexivity|]. intros _.
    destruct (deliver_fields now (Piped None) (response_options req res hs)
                (with_readable_once true (with_end_once true s1)))
      as (E1 & _ & E3 & _).
    eauto.
  - split; [|discriminate]. intros (r & Hs' & Hb).
    destruct (deliver_fields now (Piped (Some Gunzip)) (response_options req res hs)
                (with_readable_once true (with_end_once true s1)))
      as (E1 & _ & E3 & _).
    match type of E3 with Response.body ?t = _ => assert (r = t) as -> by congruence end.
    congruence.
  - split; [|discriminate]. intros (r & Hs' & _). cbn in Hs'. congruence.
Qed.


Lemma content_decoding_sniff (req : Request.t) (res : Res.t) (hs : Headers.t)
    (c : string) :
  Request.compress req = true -> Request.method req <> "HEAD" ->
  Res.statusCode res <> 204 -> Res.statusCode res <> 304 ->
  Headers.get hs "Content-Encoding" = Some c ->
  c = "deflate" \/ c = "x-deflate" ->
  content_decoding req res hs = SniffDeflate.
Proof.
  intros Hc Hm H4 H3 Hg Hd. unfold content_decoding. rewrite Hc, Hg.
  apply String.eqb_neq in Hm. apply Z.eqb_neq in H4, H3. rewrite Hm, H4, H3.
  destruct Hd as [-> | ->]; reflexivity.
Qed.

(** Without a waiting raw.once("data") callback a chunk changes nothing. *)
Lemma data_idle (req : Request.t) (s : state) (chunks : list (list Z * Z)) :
  sniff s = None ->
  run req s (List.map (fun c => Data (fst c) (snd c)) chunks) = s.
Proof.
  intros Hs. induction chunks as [|c chunks IH]; [reflexivity|].
  cbn [List.map]. unfold run in *. cbn [fold_left step]. rewrite Hs. exact IH.
Qed.

(** C7. For a terminal response with Content-Encoding deflate or x-deflate
    whose decoding is not skipped, no Response exists until the first chunk;
    the first chunk builds it, on zlib inflate when the low nibble of the
    first byte is 8 and on raw inflate otherwise, whatever the other bytes
    are; the chunks after the first change neither the Response nor the
    promise. *)
Theorem deflate_sniffs_first_byte_once (req : Request.t) (s : state) (res : Res.t)
    (now : Z) (c : string) :
  reachable req s -> awaiting s = true -> terminal req s res = true ->
  Request.compress req = true -> Request.method req <> "HEAD" ->
  Res.statusCode res <> 204 -> Res.statusCode res <> 304 ->
  Headers.get (Res.headers res) "Content-Encoding" = Some c ->
  c = "deflate" \/ c = "x-deflate" ->
  let s1 := step req s (Incoming res now) in
  response s1 = None
  /\ forall (b : Z) (rest : list Z) (t : Z),
       let s2 := step req s1 (Data (b :: rest) t) in
       exists r,
         response s2 = Some r
         /\ Response.body r
            = Some (Piped (Some (if Z.land b 15 =? 8 then Inflate else InflateRaw)))
         /\ (promise s1 = Pending -> promise s2 = Fulfilled r)
         /\ forall later : list (list Z * Z),
              run req s2 (List.map (fun c => Data (fst c) (snd c)) later) = s2.
Proof.
  intros Hr Hw Ht Hc Hm H4 H3 Hg Hd s1.
  destruct (awaiting_pending req s Hr Hw) as (Hp & Hresp & Hsn).
  destruct (terminal_step req s res now Hw Hp Ht)
    as (hs & s0 & Hstep & Hcd & _ & Hr0 & _).
  assert (Hsniff : content_decoding req res hs = SniffDeflate).
  { rewrite Hcd. now apply (content_decoding_sniff req res _ c). }
  subst s1. rewrite Hstep. unfold body_handling. rewrite Hsniff.
  split; [cbn; congruence|].
  intros b rest t. cbn [step sniff with_sniff]. unfold on_first_chunk.
  cbn [low_nibble].
  set (z := if Z.land b 15 =? 8 then Inflate else InflateRaw).
  set (o := response_options req res hs).
  set (s2 := with_sniff None _).
  destruct (deliver_fields t (Piped (Some z)) o s2)
    as (E1 & E2 & E3 & _ & _ & _ & _ & _ & _ & _ & E4 & _).
  eexists. split; [exact E1|]. split; [exact E3|]. split.
  - intros Hpend. rewrite E2. cbn in Hpend |- *. now rewrite Hpend.
  - intros later. apply data_idle. rewrite E4. reflexivity.
Qed.

(** *** Manual mode *)

Lemma manual_decision (req : Request.t) (s : state) (res : Res.t) (location : string) :
  Request.redirect req = "manual" ->
  isRedirect (Res.statusCode res) = true ->
  Headers.get (Res.headers res) "Location" = Some location ->
  redirect_decision req s res
  = match Headers.set (Res.headers res) "Location"
            (resolve_url (Request.url req) location) with
    | inr hs => DManualRewrite hs
    | inl err => DManualCorrupt (Err.with_timings (timings s) err) (Res.headers res)
    end.
Proof.
  intros Hmode Hred Hloc. unfold redirect_decision.
  rewrite Hred, Hmode, Hloc. reflexivity.
Qed.

(** The constructor leaves every header but Content-Type as the options
    give it. *)
Lemma new_headers_get (h : Store) (b : option BodyStream) (o : Response.opts)
    (tm : option loc) (name : string) :
  Headers.same_name "Content-Type" name = false ->
  Headers.get (Response.headers (snd (Response.new h b o tm))) name
  = Headers.get (Headers.new (Response.opt_headers o)) name.
Proof.
  intros Hn. unfold Response.new.
  destruct (match tm with Some l => (h, l) | None => alloc h Timings.empty end)
    as [h1 l]. cbn [snd Response.headers].
  destruct b as [x|]; [|reflexivity].
  destruct (negb (Headers.has (Headers.new (Response.opt_headers o)) "Content-Type"));
    [|reflexivity].
  destruct (Response.content_type (Some x)); [|reflexivity].
  now apply HeadersFacts.get_append_other.
Qed.

Lemma reject_cases (e : Err.t) (s : state) :
  (promise s <> Pending /\ reject e s = s)
  \/ (promise s = Pending /\ reject e s = with_promise (Rejected e) s).
Proof.
  unfold reject. destruct (promise s) eqn:E; [right|left..]; split; congruence.
Qed.

Lemma abort_fields (req : Request.t) (s : state) :
  response (abort req s) = response s
  /\ sniff (abort req s) = sniff s
  /\ responded (abort req s) = responded s
  /\ timings (abort req s) = timings s.
Proof.
  unfold abort.
  destruct (reject_cases (abort_error s) s) as [[_ ->]|[_ ->]];
    destruct (Request.body req) as [[]|]; cbn;
    destruct (response s) as [r|] eqn:E; try destruct (Response.body r);
    cbn; rewrite ?E; repeat split; reflexivity.
Qed.










(** *** Redirect chains *)

Lemma reachable_run (req : Request.t) (evs : list event) (s : state) :
  reachable req s -> reachable req (run req s evs).
Proof.
  revert s. induction evs as [|ev evs IH]; intros s H; [exact H|].
  change (run req s (ev :: evs)) with (run req (step req s ev) evs).
  apply IH. now constructor.
Qed.

Lemma run_app (req : Request.t) (evs evs' : list event) (s : state) :
  run req s (evs ++ evs') = run req (run req s evs) evs'.
Proof. unfold run. apply fold_left_app. Qed.

Lemma dispatch_sends (h : Store) (req : Request.t) :
  accepted req = true -> pre_aborted req = false ->
  exists s0, dispatch h req = inr s0 /\ awaiting s0 = true.
Proof.
  unfold accepted, pre_aborted, dispatch.
  destruct (getNodeRequestOptions req); [discriminate|]. intros _. cbn.
  destruct (Request.signal req) as [tok|].
  - intros ->. eexists. split; reflexivity.
  - intros _. eexists. split; reflexivity.
Qed.

Lemma quiet_step (req : Request.t) (s : state) (ev : event) :
  quiet ev = true -> awaiting s = true -> awaiting (step req s ev) = true.
Proof.
  intros Hq Hw. destruct ev; try discriminate; cbn [step].
  - destruct (awaiting s && negb (socket s)); [|exact Hw].
    unfold on_socket. now destruct (Request.timeout req =? 0).
  - now destruct (socket s).
  - now destruct (socket s).
  - now destruct (socket s).
Qed.

Lemma quiet_run (req : Request.t) (evs : list event) (s : state) :
  forallb quiet evs = true -> awaiting s = true -> awaiting (run req s evs) = true.
Proof.
  revert s. induction evs as [|ev evs IH]; intros s Hq Hw; [exact Hw|].
  cbn in Hq. apply andb_true_iff in Hq. destruct Hq as [Hq Hqs].
  change (run req s (ev :: evs)) with (run req (step req s ev) evs).
  apply IH; [exact Hqs|]. now apply quiet_step.
Qed.

(** A request whose body can be sent again: there is none, or its size is
    known. *)
Lemma replayable_supported (req : Request.t) (res : Res.t) :
  Request.body req = None \/ Request.getTotalBytes req <> None ->
  unsupported_redirect req res = false.
Proof.
  unfold unsupported_redirect. intros [H|H].
  - rewrite H. now rewrite andb_false_r.
  - destruct (Request.getTotalBytes req); [|now elim H]. now rewrite andb_false_r.
Qed.

Lemma follow_up_fields (req : Request.t) (res : Res.t) (location : string) :
  let next := follow_up req res location in
  Request.redirect next = "follow"
  /\ Request.counter next = Request.counter req + 1
  /\ Request.follow next = Request.follow req
  /\ Request.signal next = Request.signal req
  /\ Request.url next = resolve_url (Request.url req) location
  /\ Request.timeout next = 0
  /\ (Request.body next = None \/ Request.body next = Request.body req).
Proof.
  unfold follow_up. destruct (becomes_get req res); cbn; splits; auto.
Qed.

Lemma follow_up_replayable (req : Request.t) (res : Res.t) (location : string) :
  Request.body req = None \/ Request.getTotalBytes req <> None ->
  let next := follow_up req res location in
  Request.body next = None \/ Request.getTotalBytes next <> None.
Proof.
  intros H next.
  destruct (follow_up_fields req res location) as (_ & _ & _ & _ & _ & _ & [Hb|Hb]);
    fold next in Hb; [now left|].
  unfold Request.getTotalBytes in *. rewrite Hb. exact H.
Qed.

(** One hop of a chain: the redirect is followed. *)
Lemma hop_follows (req : Request.t) (s : state) (hp : hop) (location : string) :
  reachable req s -> awaiting s = true ->
  Request.redirect req = "follow" ->
  forallb quiet (before hp) = true ->
  isRedirect (Res.statusCode (answer hp)) = true ->
  Headers.get (Res.headers (answer hp)) "Location" = Some location ->
  Request.counter req < Request.follow req ->
  unsupported_redirect req (answer hp) = false ->
  promise (run req s (events hp)) = Forwarded (follow_up req (answer hp) location).
Proof.
  intros Hr Hw Hmode Hq Hred Hloc Hc Hu. unfold events. rewrite run_app.
  set (s1 := run req s (before hp)).
  assert (Hr1 : reachable req s1) by now apply reachable_run.
  assert (Hw1 : awaiting s1 = true) by now apply quiet_run.
  destruct (awaiting_pending req s1 Hr1 Hw1) as (Hp & _).
  change (run req s1 (Incoming (answer hp) (clock hp) :: after hp))
    with (run req (step req s1 (Incoming (answer hp) (clock hp))) (after hp)).
  pose proof (follow_decision req s1 (answer hp) location Hmode Hred Hloc) as Hd.
  assert (Hge : (Request.counter req >=? Request.follow req) = false)
    by (rewrite Z.geb_leb; apply Z.leb_gt; exact Hc).
  rewrite Hge, Hu in Hd. fold (follow_up req (answer hp) location) in Hd.
  destruct (on_response_follow req s1 (answer hp) (clock hp) _ Hp Hd) as (E & _).
  cbn [step]. rewrite Hw1. rewrite settled_run; rewrite E; [reflexivity|discriminate].
Qed.

(** One hop at the bound: the redirect is refused. *)
Lemma hop_at_bound (req : Request.t) (s : state) (hp : hop) (location : string) :
  reachable req s -> awaiting s = true ->
  Request.redirect req = "follow" ->
  forallb quiet (before hp) = true ->
  isRedirect (Res.statusCode (answer hp)) = true ->
  Headers.get (Res.headers (answer hp)) "Location" = Some location ->
  Request.follow req <= Request.counter req ->
  exists e, promise (run req s (events hp)) = Rejected e
            /\ Err.name e = Err.FetchError /\ Err.type e = "max-redirect".
Proof.
  intros Hr Hw Hmode Hq Hred Hloc Hc. unfold events. rewrite run_app.
  set (s1 := run req s (before hp)).
  assert (Hr1 : reachable req s1) by now apply reachable_run.
  assert (Hw1 : awaiting s1 = true) by now apply quiet_run.
  destruct (awaiting_pending req s1 Hr1 Hw1) as (Hp & _).
  change (run req s1 (Incoming (answer hp) (clock hp) :: after hp))
    with (run req (step req s1 (Incoming (answer hp) (clock hp))) (after hp)).
  pose proof (follow_decision req s1 (answer hp) location Hmode Hred Hloc) as Hd.
  assert (Hge : (Request.counter req >=? Request.follow req) = true)
    by (rewrite Z.geb_leb; apply Z.leb_le; exact Hc).
  rewrite Hge in Hd.
  destruct (on_response_error req s1 (answer hp) (clock hp) _ Hp Hd) as (E & _).
  cbn [step]. rewrite Hw1. exists (max_redirect_error req s1).
  rewrite settled_run; rewrite E; splits; trivial; discriminate.
Qed.


Lemma fetch_cons (evs : list event) (rest : list (list event)) (h : Store)
    (req : Request.t) :
  fetch (evs :: rest) h req
  = match dispatch h req with
    | inl e => (Rejected e, h)
    | inr s0 =>
        let s := run req s0 evs in
        match promise s with
        | Forwarded next => fetch rest (store s) next
        | p => (p, store s)
        end
    end.
Proof. reflexivity. Qed.

(** A chain of 302 responses that stays within the bound is followed to its
    destination. *)
Lemma chain_follows (hops : list hop) :
  forall (req : Request.t) (h : Store) (tail : list (list event)),
  Request.redirect req = "follow" ->
  accepted req = true -> pre_aborted req = false ->
  (Request.body req = None \/ Request.getTotalBytes req <> None) ->
  redirects_302 req hops = true ->
  Z.of_nat (length hops) <= Request.follow req - Request.counter req ->
  let dest := destination req hops in
  (exists h', fetch (List.map events hops ++ tail) h req = fetch tail h' dest)
  /\ Request.redirect dest = "follow"
  /\ accepted dest = true /\ pre_aborted dest = false
  /\ Request.counter dest = Request.counter req + Z.of_nat (length hops)
  /\ Request.follow dest = Request.follow req.
Proof.
  induction hops as [|hp rest IH]; intros req h tail Hmode Hacc Hpre Hbody Hch Hlen.
  - cbn. splits; eauto. lia.
  - cbn [redirects_302] in Hch.
    apply andb_true_iff in Hch. destruct Hch as [Hch Hrest].
    apply andb_true_iff in Hch. destruct Hch as [Hq H302].
    apply Z.eqb_eq in H302.
    cbn [destination].
    destruct (Headers.get (Res.headers (answer hp)) "Location") as [location|] eqn:Hloc;
      [|discriminate].
    apply andb_true_iff in Hrest. destruct Hrest as [Hacc' Hrest].
    set (next := follow_up req (answer hp) location) in *.
    destruct (follow_up_fields req (answer hp) location)
      as (Fm & Fc & Ff & Fs & _). fold next in Fm, Fc, Ff, Fs.
    cbn [length] in Hlen.
    assert (Hpre' : pre_aborted next = false) by (unfold pre_aborted; now rewrite Fs).
    assert (Hbody' : Request.body next = None \/ Request.getTotalBytes next <> None)
      by now apply follow_up_replayable.
    assert (Hlen' : Z.of_nat (length rest)
                    <= Request.follow next - Request.counter next) by lia.
    destruct (dispatch_sends h req Hacc Hpre) as (s0 & Hd & Hw).
    assert (Hf : promise (run req s0 (events hp)) = Forwarded next).
    { apply hop_follows; trivial.
      - now apply (reach_dispatch req h).
      - rewrite H302. reflexivity.
      - lia.
      - now apply replayable_supported. }
    destruct (IH next (store (run req s0 (events hp))) tail Fm Hacc' Hpre' Hbody'
                Hrest Hlen') as ((h' & E) & D2 & D3 & D4 & D5 & D6).
    splits; trivial; try congruence.
    + exists h'. cbn [List.map app]. rewrite fetch_cons, Hd. cbv zeta.
      rewrite Hf. exact E.
    + rewrite D5, Fc. cbn [length]. lia.
Qed.

Lemma new_fields (h : Store) (b : option BodyStream) (o : Response.opts)
    (tm : option loc) :
  Response.url (snd (Response.new h b o tm)) = Response.opt_url o
  /\ Response.status (snd (Response.new h b o tm))
     = js_or_num (Response.opt_status o) 200.
Proof.
  unfold Response.new.
  destruct (match tm with Some l => (h, l) | None => alloc h Timings.empty end).
  split; reflexivity.
Qed.

Lemma deliver_result (now : Z) (b : BodyStream) (req : Request.t) (res : Res.t)
    (hs : Headers.t) (s : state) :
  promise s = Pending ->
  exists r, promise (deliver now b (response_options req res hs) s) = Fulfilled r
            /\ Response.url r = Some (Request.url req)
            /\ Response.status r = js_or_num (Some (Res.statusCode res)) 200.
Proof.
  intros Hp.
  destruct (deliver_fields now b (response_options req res hs) s) as (_ & E2 & _).
  rewrite E2, Hp. eexists. split; [reflexivity|]. apply new_fields.
Qed.

(** The hop that gets a response without redirect status settles the call
    with the Response for it, at the latest with the first chunk. *)
(** *** Cancellation *)

Lemma stream_errors_abort (req : Request.t) (s : state) :
  stream_errors (abort req s)
  = match response s with
    | Some r => match Response.body r with
                | Some _ => stream_errors s ++ [abort_error s]
                | None => stream_errors s
                end
    | None => stream_errors s
    end.
Proof.
  unfold abort.
  destruct (reject_cases (abort_error s) s) as [[_ ->]|[_ ->]];
    destruct (Request.body req) as [[]|]; cbn;
    destruct (response s) as [r|] eqn:E; try destruct (Response.body r);
    cbn; rewrite ?E; reflexivity.
Qed.

(** A signal that finds the promise pending rejects it with the AbortError,
    which carries the timings object, and emits nothing on a stream. *)
Lemma abort_while_pending (req : Request.t) (s : state) :
  reachable req s -> listening s = true -> promise s = Pending ->
  let s' := step req s Abort in
  promise s' = Rejected (abort_error s)
  /\ Err.name (abort_error s) = Err.AbortError
  /\ Err.timings (abort_error s) = Some (timings s)
  /\ stream_errors s' = stream_errors s.
Proof.
  intros Hr Hl Hp s'. subst s'. cbn [step]. rewrite Hl.
  unfold abortAndFinalize, finalize. cbn.
  rewrite promise_abort, stream_errors_abort.
  rewrite (inv_pending s (reachable_inv req s Hr) Hp).
  unfold reject. rewrite Hp. splits; reflexivity.
Qed.

(** A signal that finds the promise fulfilled leaves it so and emits the
    AbortError on the body stream of the Response the caller holds. *)
Lemma abort_after_fulfilment (req : Request.t) (s : state) (r : Response.t BodyStream) :
  reachable req s -> listening s = true -> promise s = Fulfilled r ->
  let s' := step req s Abort in
  promise s' = Fulfilled r
  /\ response s = Some r
  /\ stream_errors s' = stream_errors s ++ [abort_error s].
Proof.
  intros Hr Hl Hp s'. subst s'. cbn [step]. rewrite Hl.
  unfold abortAndFinalize, finalize. cbn.
  rewrite promise_abort, stream_errors_abort.
  pose proof (reachable_inv req s Hr) as Hinv.
  pose proof (inv_fulfilled s Hinv r Hp) as Hresp. rewrite Hresp.
  pose proof (inv_body s Hinv r Hresp) as Hb.
  destruct (Response.body r); [|now elim Hb].
  rewrite settled_reject; rewrite Hp; splits; trivial; discriminate.
Qed.

(** No signal both rejects the promise and emits on a stream. *)
Lemma abort_never_both (req : Request.t) (s : state) :
  reachable req s ->
  let s' := step req s Abort in
  ~ (promise s' <> promise s /\ stream_errors s' <> stream_errors s).
Proof.
  intros Hr s' [H1 H2]. subst s'. cbn [step] in *.
  destruct (listening s); [|now elim H1].
  unfold abortAndFinalize, finalize in *. cbn in *.
  rewrite promise_abort in H1. rewrite stream_errors_abort in H2.
  destruct (reject_cases (abort_error s) s) as [[_ E]|[Hp _]].
  - rewrite E in H1. now elim H1.
  - rewrite (inv_pending s (reachable_inv req s Hr) Hp) in H2. now elim H2.
Qed.

(** *** The timer *)

(** The "socket" event arms the timer for a timeout that is not 0. *)
Lemma socket_arms_timer (req : Request.t) (s : state) :
  awaiting s = true -> socket s = false ->
  reqTimeout (step req s Socket) = negb (Request.timeout req =? 0) || reqTimeout s.
Proof.
  intros Hw Hs. cbn [step]. rewrite Hw, Hs. cbn. unfold on_socket.
  now destruct (Request.timeout req =? 0).
Qed.

(** A timer that fires rejects the pending call with the request-timeout
    FetchError and tears the request down. *)
Lemma timer_rejects (req : Request.t) (s : state) :
  reachable req s -> reqTimeout s = true ->
  let s' := step req s Timeout in
  promise s' = Rejected (timeout_error req s)
  /\ Err.type (timeout_error req s) = "request-timeout"
  /\ req_aborted s' = true /\ reqTimeout s' = false.
Proof.
  intros Hr Ht s'. subst s'. cbn [step]. rewrite Ht.
  pose proof (reachable_inv req s Hr) as Hinv.
  pose proof (inv_awaiting s Hinv (inv_timer s Hinv Ht)) as Hp.
  unfold on_timeout, finalize, reject. cbn. rewrite Hp. splits; reflexivity.
Qed.

(** Once the response has arrived, the timer of this call never fires. *)
Lemma no_timer_after_response (req : Request.t) (s : state) :
  reachable req s -> responded s = true -> step req s Timeout = s.
Proof.
  intros Hr Hd. cbn [step].
  destruct (reqTimeout s) eqn:Ht; [|reflexivity].
  pose proof (inv_timer s (reachable_inv req s Hr) Ht) as Hw.
  unfold awaiting in Hw. rewrite Hd, andb_false_r in Hw. discriminate.
Qed.

Lemma responded_incoming (req : Request.t) (s : state) (res : Res.t) (now : Z) :
  awaiting s = true -> responded (step req s (Incoming res now)) = true.
Proof.
  intros Hw. cbn [step]. rewrite Hw. unfold on_response. cbv zeta.
  set (s1 := with_responded true (with_reqTimeout false s)).
  assert (H1 : responded s1 = true) by reflexivity.
  assert (Hb : forall hs s2, responded s2 = true ->
                             responded (body_handling req res hs now s2) = true).
  { intros hs s2 H2. unfold body_handling.
    destruct (content_decoding req res hs); trivial.
    - destruct (deliver_fields now (Piped None) (response_options req res hs)
                  (with_readable_once true (with_end_once true s2)))
        as (_ & _ & _ & _ & _ & _ & _ & _ & _ & E & _). now rewrite E.
    - destruct (deliver_fields now (Piped (Some Gunzip)) (response_options req res hs)
                  (with_readable_once true (with_end_once true s2)))
        as (_ & _ & _ & _ & _ & _ & _ & _ & _ & E & _). now rewrite E. }
  destruct (redirect_decision req s1 res).
  - now apply Hb.
  - now apply Hb.
  - apply Hb. unfold reject. now destruct (promise s1).
  - unfold finalize, reject. now destruct (promise s1).
  - unfold finalize, resolve. cbn. now destruct (promise s).
Qed.

(** So a response that arrives before the timer fires is never followed by
    a timeout of this call. *)
Lemma no_timeout_after_response (req : Request.t) (s : state) (res : Res.t) (now : Z) :
  reachable req s -> awaiting s = true ->
  step req (step req s (Incoming res now)) Timeout = step req s (Incoming res now).
Proof.
  intros Hr Hw. apply no_timer_after_response.
  - now constructor.
  - now apply responded_incoming.
Qed.

(** The follow-up request of a redirect has timeout 0, whatever the timeout
    of the request that was redirected. *)
Lemma follow_up_without_timeout (req : Request.t) (res : Res.t) (location : string) :
  Request.timeout (follow_up req res location) = 0.
Proof. apply follow_up_fields. Qed.

(** C3. Where cancellation reaches neither the promise nor a stream.  In
    manual mode, when the header container refuses the resolved Location of
    a redirect whose body is deflate-encoded, the "response" callback
    rejects with the container's error and goes on, without teardown, to
    wait for the first chunk: the abort listener stays registered, the
    promise is settled and there is no Response.  A signal that arrives then
    is heard, yet it neither rejects the promise with the AbortError nor
    emits it on a body stream. *)
Theorem abort_reaches_nobody (req : Request.t) (s : state) (res : Res.t) (now : Z)
    (location : string) :
  reachable req s -> awaiting s = true -> listening s = true ->
  Request.redirect req = "manual" ->
  isRedirect (Res.statusCode res) = true ->
  Headers.get (Res.headers res) "Location" = Some location ->
  legal_value (resolve_url (Request.url req) location) = false ->
  content_decoding req res (Res.headers res) = SniffDeflate ->
  let s1 := step req s (Incoming res now) in
  let s2 := step req s1 Abort in
  listening s1 = true
  /\ (exists e, promise s1 = Rejected e /\ Err.name e = Err.TypeError)
  /\ response s1 = None
  /\ promise s2 = promise s1
  /\ (forall e, promise s2 = Rejected e -> Err.name e <> Err.AbortError)
  /\ stream_errors s2 = stream_errors s1
  /\ listening s2 = false.
Proof.
  intros Hr Hw Hl Hmode Hred Hloc Hillegal Hsd s1 s2.
  destruct (awaiting_pending req s Hr Hw) as (Hp & Hresp & Hsn).
  pose proof (manual_decision req s res location Hmode Hred Hloc) as Hd.
  destruct (HeadersFacts.set_illegal (Res.headers res) "Location" _ Hillegal)
    as (e & Hset & Hname).
  rewrite Hset in Hd.
  assert (Hstep : s1 = with_sniff (Some (response_options req res (Res.headers res)))
                         (with_readable_once true
                            (with_end_once true
                               (with_promise (Rejected (Err.with_timings (timings s) e))
                                  (with_responded true (with_reqTimeout false s)))))).
  { subst s1. cbn [step]. rewrite Hw. unfold on_response. cbv zeta.
    rewrite (redirect_decision_frame req s
               (with_responded true (with_reqTimeout false s)) res eq_refl), Hd.
    unfold body_handling. rewrite Hsd. unfold reject. cbn. rewrite Hp. reflexivity. }
  assert (Hl1 : listening s1 = true) by (rewrite Hstep; exact Hl).
  assert (Hp1 : promise s1 = Rejected (Err.with_timings (timings s) e))
    by (rewrite Hstep; reflexivity).
  assert (Hr1 : response s1 = None) by (rewrite Hstep; exact Hresp).
  assert (Hp2 : promise s2 = promise s1).
  { subst s2. apply settled_step. rewrite Hp1. discriminate. }
  splits; trivial.
  - exists (Err.with_timings (timings s) e). split; [exact Hp1|exact Hname].
  - intros e' He'. rewrite Hp2, Hp1 in He'. injection He' as <-. cbn.
    rewrite Hname. discriminate.
  - subst s2. cbn [step]. rewrite Hl1. unfold abortAndFinalize, finalize.
    cbn [stream_errors with_reqTimeout with_listening with_req_aborted].
    rewrite stream_errors_abort, Hr1. reflexivity.
  - subst s2. cbn [step]. rewrite Hl1. reflexivity.
Qed.

(** The timer is armed only for a request whose timeout is not 0. *)
Lemma timer_needs_timeout (req : Request.t) (s : state) :
  reachable req s -> reqTimeout s = true -> Request.timeout req <> 0.
Proof.
  intros Hr. induction Hr as [h s Hd|s ev Hr IH].
  - unfold dispatch in Hd. destruct (getNodeRequestOptions req); [discriminate|].
    cbn in Hd. destruct (Request.signal req) as [[[]]|]; injection Hd as <-.
    + unfold abort, reject. cbn. destruct (Request.body req) as [[]|]; discriminate.
    + discriminate.
    + discriminate.
  - intros Ht.
    pose proof (inv_timer _ (reachable_inv req _ (reach_step req s ev Hr)) Ht) as Hw.
    destruct ev; cbn [step] in Ht, Hw.
    + destruct (awaiting s && negb (socket s)); [|auto].
      unfold on_socket in Ht.
      destruct (Request.timeout req =? 0) eqn:E; [auto|]. now apply Z.eqb_neq in E.
    + destruct (socket s); auto.
    + destruct (socket s); auto.
    + destruct (socket s); auto.
    + destruct (reqTimeout s) eqn:G; [discriminate Ht|]. rewrite G in Ht. discriminate.
    + destruct (sent s); [discriminate Ht|auto].
    + destruct (awaiting s) eqn:G; [|auto].
      pose proof (responded_incoming req s res now G) as Hd.
      cbn [step] in Hd. rewrite G in Hd.
      unfold awaiting in Hw. rewrite Hd, andb_false_r in Hw. discriminate.
    + destruct (readable_once s); auto.
    + destruct (sniff s) eqn:G; [|auto]. unfold on_first_chunk in Ht.
      match type of Ht with reqTimeout (deliver ?t ?b ?o ?s0) = _ =>
        destruct (deliver_fields t b o s0) as (_ & _ & _ & _ & _ & _ & E & _) end.
      rewrite E in Ht. auto.
    + destruct (end_once s); auto.
    + destruct (listening s); [discriminate Ht|auto].
Qed.

(** C4. Where the timeout is lost.  A followed redirect resolves the call
    with a follow-up request whose timeout is 0, whatever the timeout of the
    request that was redirected: in no state of the follow-up call is a timer
    armed, so none can fire there and reject with the request-timeout
    error. *)
Theorem timeout_lost_on_redirect (req : Request.t) (s : state) (res : Res.t)
    (now : Z) (next : Request.t) :
  reachable req s -> awaiting s = true ->
  promise (step req s (Incoming res now)) = Forwarded next ->
  Request.timeout next = 0
  /\ forall t, reachable next t ->
               reqTimeout t = false /\ step next t Timeout = t.
Proof.
  intros Hr Hw Hf. destruct (awaiting_pending req s Hr Hw) as (Hp & _).
  cbn [step] in Hf. rewrite Hw in Hf.
  apply (forwarded_decision req s res now next Hp) in Hf.
  apply follow_decision_inv in Hf.
  destruct Hf as (_ & _ & _ & _ & location & _ & ->).
  fold (follow_up req res location).
  pose proof (follow_up_without_timeout req res location) as H0.
  split; [exact H0|]. intros t Ht.
  assert (Hoff : reqTimeout t = false).
  { destruct (reqTimeout t) eqn:E; [|reflexivity].
    now elim (timer_needs_timeout _ t Ht E). }
  split; [exact Hoff|]. cbn [step]. now rewrite Hoff.
Qed.

(** ** The timings object of a call *)

Lemma update_lookup (h : Store) (l : loc) (f : Timings.t -> Timings.t) (x : Timings.t) :
  h !! l = Some x -> update h l f !! l = Some (f x).
Proof.
  intros E. unfold update. rewrite E. apply list_lookup_insert_eq.
  apply lookup_lt_is_Some. now exists x.
Qed.

Lemma update_lookup_other (h : Store) (l l' : loc) (f : Timings.t -> Timings.t) :
  l' <> l -> update h l f !! l' = h !! l'.
Proof.
  intros N. unfold update. destruct (h !! l); [|reflexivity].
  apply list_lookup_insert_ne. congruence.
Qed.

Lemma timings_reject (e : Err.t) (s : state) : timings (reject e s) = timings s.
Proof. unfold reject. now destruct (promise s). Qed.

Lemma store_reject (e : Err.t) (s : state) : store (reject e s) = store s.
Proof. unfold reject. now destruct (promise s). Qed.

Lemma timings_resolve (now : Z) (v : settlement) (s : state) :
  timings (resolve now v s) = timings s.
Proof. unfold resolve. cbn. now destruct (promise s). Qed.

Lemma store_resolve (now : Z) (v : settlement) (s : state) :
  store (resolve now v s) = update (store s) (timings s) (Timings.set_totalTime now).
Proof. unfold resolve. cbn. now destruct (promise s). Qed.

Lemma store_deliver (now : Z) (b : BodyStream) (o : Response.opts) (s : state) :
  store (deliver now b o s) = update (store s) (timings s) (Timings.set_totalTime now).
Proof. unfold deliver, Response.new. cbn. now rewrite store_resolve. Qed.

Lemma store_abort (req : Request.t) (s : state) : store (abort req s) = store s.
Proof.
  unfold abort. cbv zeta.
  destruct (Request.body req) as [[|]|]; cbn;
    destruct (response (reject (abort_error s) s)) as [r|]; cbn;
    try destruct (Response.body r); cbn; apply store_reject.
Qed.

Lemma timings_body_handling (req : Request.t) (res : Res.t) (hs : Headers.t) (now : Z)
    (s : state) :
  timings (body_handling req res hs now s) = timings s.
Proof.
  unfold body_handling. cbv zeta.
  destruct (content_decoding req res hs); [| |reflexivity];
    match goal with |- context [deliver ?n ?b ?o ?t] =>
      destruct (deliver_fields n b o t) as (_ & _ & _ & -> & _) end; reflexivity.
Qed.

(** What one response writes: nothing, or the total time. *)
Lemma store_body_handling (req : Request.t) (res : Res.t) (hs : Headers.t) (now : Z)
    (s : state) :
  store (body_handling req res hs now s)
  = match content_decoding req res hs with
    | SniffDeflate => store s
    | _ => update (store s) (timings s) (Timings.set_totalTime now)
    end.
Proof.
  unfold body_handling. cbv zeta.
  destruct (content_decoding req res hs); [| |reflexivity]; now rewrite store_deliver.
Qed.

(** The variable [timings] is a constant of the call. *)
Lemma timings_step (req : Request.t) (s : state) (ev : event) :
  timings (step req s ev) = timings s.
Proof.
  destruct ev; unfold step.
  - destruct (awaiting s && negb (socket s)); [|reflexivity].
    unfold on_socket. now destruct (Request.timeout req =? 0).
  - now destruct (socket s).
  - now destruct (socket s).
  - now destruct (socket s).
  - destruct (reqTimeout s); [|reflexivity]. unfold on_timeout. cbn.
    now rewrite timings_reject.
  - destruct (sent s); [|reflexivity]. unfold on_error. cbn. now rewrite timings_reject.
  - destruct (awaiting s); [|reflexivity]. unfold on_response. cbv zeta.
    destruct (redirect_decision req _ res); cbn;
      rewrite ?timings_body_handling, ?timings_reject, ?timings_resolve; reflexivity.
  - now destruct (readable_once s).
  - destruct (sniff s); [|reflexivity]. unfold on_first_chunk. cbv zeta.
    match goal with |- context [deliver ?n ?b ?o ?t] =>
      destruct (deliver_fields n b o t) as (_ & _ & _ & -> & _) end. reflexivity.
  - now destruct (end_once s).
  - destruct (listening s); [|reflexivity]. unfold abortAndFinalize. cbn.
    apply abort_fields.
Qed.

Lemma timings_run (req : Request.t) (evs : list event) (s : state) :
  timings (run req s evs) = timings s.
Proof.
  revert s. induction evs as [|ev evs IH]; intros s; [reflexivity|].
  change (run req s (ev :: evs)) with (run req (step req s ev) evs).
  now rewrite IH, timings_step.
Qed.

(** One event writes nothing, or one field of the call's own timings
    object. *)
Lemma store_step (req : Request.t) (s : state) (ev : event) :
  store (step req s ev) = store s
  \/ exists f, store (step req s ev) = update (store s) (timings s) f
               /\ forall x, Timings.totalTime x <> None -> Timings.totalTime (f x) <> None.
Proof.
  destruct ev; unfold step.
  - left. destruct (awaiting s && negb (socket s)); [|reflexivity].
    unfold on_socket. now destruct (Request.timeout req =? 0).
  - destruct (socket s); [right|now left]. eexists. split; [reflexivity|]. now intros [].
  - destruct (socket s); [right|now left]. eexists. split; [reflexivity|]. now intros [].
  - destruct (socket s); [right|now left]. eexists. split; [reflexivity|]. now intros [].
  - left. destruct (reqTimeout s); [|reflexivity]. unfold on_timeout. cbn.
    now rewrite store_reject.
  - left. destruct (sent s); [|reflexivity]. unfold on_error. cbn. now rewrite store_reject.
  - destruct (awaiting s); [|now left]. unfold on_response. cbv zeta.
    destruct (redirect_decision req _ res); cbn.
    + rewrite store_body_handling. destruct (content_decoding req res hs);
        [right|right|now left]; eexists; (split; [reflexivity|]); intros []; cbn;
        congruence.
    + rewrite store_body_handling. destruct (content_decoding req res hs);
        [right|right|now left]; eexists; (split; [reflexivity|]); intros []; cbn;
        congruence.
    + rewrite store_body_handling, store_reject, timings_reject.
      destruct (content_decoding req res hs);
        [right|right|now left]; eexists; (split; [reflexivity|]); intros []; cbn;
        congruence.
    + left. now rewrite store_reject.
    + right. rewrite store_resolve. eexists. split; [reflexivity|]. intros []; cbn.
      congruence.
  - destruct (readable_once s); [right|now left]. eexists. split; [reflexivity|].
    now intros [].
  - destruct (sniff s); [right|now left]. unfold on_first_chunk.
    rewrite store_deliver. eexists. split; [reflexivity|]. intros []; cbn. congruence.
  - left. now destruct (end_once s).
  - left. destruct (listening s); [|reflexivity]. unfold abortAndFinalize. cbn.
    apply store_abort.
Qed.

Lemma dispatch_timings (h : Store) (req : Request.t) (s : state) :
  dispatch h req = inr s ->
  timings s = length h /\ store s = h ++ [Timings.empty].
Proof.
  unfold dispatch. destruct (getNodeRequestOptions req); [discriminate|]. cbn.
  destruct (Request.signal req) as [[[|]]|]; intros [= <-]; cbn;
    rewrite ?store_abort; try (split; [apply abort_fields|]); try (split; reflexivity).
Qed.

(** In every reachable state the reference [timings] is bound in the
    store. *)
Lemma timings_bound (req : Request.t) (s : state) :
  reachable req s -> exists x, store s !! timings s = Some x.
Proof.
  induction 1 as [h s E|s ev R (x & IH)].
  - apply dispatch_timings in E as (-> & ->). exists Timings.empty.
    apply list_lookup_middle. reflexivity.
  - rewrite timings_step. destruct (store_step req s ev) as [->|(f & -> & _)].
    + now exists x.
    + exists (f x). now apply update_lookup.
Qed.

Lemma update_length (h : Store) (l : loc) (f : Timings.t -> Timings.t) :
  length (update h l f) = length h.
Proof. unfold update. destruct (h !! l); [apply length_insert|reflexivity]. Qed.

(** Every error the redirect handling makes refers to the timings object. *)
Lemma decision_error_timings (req : Request.t) (s : state) (res : Res.t) (e : Err.t) :
  redirect_decision req s res = DError e
  \/ (exists hs, redirect_decision req s res = DManualCorrupt e hs) ->
  Err.timings e = Some (timings s).
Proof.
  unfold redirect_decision. cbv zeta.
  destruct (isRedirect (Res.statusCode res)); [|intros [?|[? ?]]; discriminate].
  destruct (String.eqb (Request.redirect req) "error").
  { intros [[= <-]|[? ?]]; [reflexivity|discriminate]. }
  destruct (String.eqb (Request.redirect req) "manual").
  { destruct (option_map _ _); [|intros [?|[? ?]]; discriminate].
    destruct (Headers.set _ _ _); intros [?|[? E]]; try discriminate.
    injection E as <- _. reflexivity. }
  destruct (String.eqb (Request.redirect req) "follow");
    [|intros [?|[? ?]]; discriminate].
  destruct (option_map _ _); [|intros [?|[? ?]]; discriminate].
  destruct (Request.counter req >=? Request.follow req).
  { intros [[= <-]|[? ?]]; [reflexivity|discriminate]. }
  destruct (unsupported_redirect req res).
  { intros [[= <-]|[? ?]]; [reflexivity|discriminate]. }
  intros [?|[? ?]]; discriminate.
Qed.

Lemma deliver_fulfils (now : Z) (b : BodyStream) (o : Response.opts) (s : state) :
  promise s = Pending ->
  exists r, promise (deliver now b o s) = Fulfilled r
            /\ response (deliver now b o s) = Some r
            /\ Response.timings r = timings s
            /\ Response.body r = Some b.
Proof.
  intros P. destruct (deliver_fields now b o s) as (E1 & E2 & E3 & _).
  rewrite P in E2. eexists. split; [exact E2|]. split; [exact E1|].
  split; [reflexivity|exact E3].
Qed.

(** How one event settles a pending promise: with an error that refers to
    the timings object, with a Response that refers to it, or with the
    follow-up; the two resolutions write the total time. *)
Lemma promise_step (req : Request.t) (s : state) (ev : event) :
  promise s = Pending ->
  let s' := step req s ev in
  promise s' = Pending
  \/ (exists e, promise s' = Rejected e /\ Err.timings e = Some (timings s))
  \/ (exists r now, promise s' = Fulfilled r /\ Response.timings r = timings s
                    /\ store s' = update (store s) (timings s) (Timings.set_totalTime now))
  \/ (exists n now, promise s' = Forwarded n
                    /\ store s' = update (store s) (timings s) (Timings.set_totalTime now)).
Proof.
  intros P s'. subst s'. destruct ev; unfold step.
  - left. destruct (awaiting s && negb (socket s)); [|exact P].
    unfold on_socket. now destruct (Request.timeout req =? 0).
  - left. now destruct (socket s).
  - left. now destruct (socket s).
  - left. now destruct (socket s).
  - destruct (reqTimeout s); [|now left]. right. left.
    exists (timeout_error req s). unfold on_timeout, reject. cbn. rewrite P. now cbn.
  - destruct (sent s); [|now left]. right. left.
    exists (system_error req msg s). unfold on_error, reject. cbn. rewrite P. now cbn.
  - destruct (awaiting s); [|now left]. unfold on_response. cbv zeta.
    set (s1 := with_responded true (with_reqTimeout false s)).
    assert (P1 : promise s1 = Pending) by exact P.
    destruct (redirect_decision req s1 res) eqn:D.
    + unfold body_handling. cbv zeta.
      destruct (content_decoding req res hs); [| |now left];
        right; right; left;
        match goal with |- context [deliver ?n ?b ?o ?t] =>
          destruct (deliver_fulfils n b o t P1) as (r & E & _ & T & _);
          exists r, n; rewrite store_deliver end; auto.
    + unfold body_handling. cbv zeta.
      destruct (content_decoding req res hs); [| |now left];
        right; right; left;
        match goal with |- context [deliver ?n ?b ?o ?t] =>
          destruct (deliver_fulfils n b o t P1) as (r & E & _ & T & _);
          exists r, n; rewrite store_deliver end; auto.
    + right. left. exists e. split.
      * rewrite settled_body_handling; unfold reject; rewrite P1; cbn; congruence.
      * apply (decision_error_timings req s1 res). right. now exists hs.
    + right. left. exists e. split.
      * unfold reject. rewrite P1. reflexivity.
      * apply (decision_error_timings req s1 res). now left.
    + right. right. right. exists next, now. cbn. rewrite store_resolve. split; [|reflexivity].
      unfold resolve. cbn. rewrite P. reflexivity.
  - left. now destruct (readable_once s).
  - destruct (sniff s); [|now left]. right. right. left. unfold on_first_chunk. cbv zeta.
    match goal with |- context [deliver ?n ?b ?o ?t] =>
      destruct (deliver_fulfils n b o t P) as (r & E & _ & T & _);
      exists r, n; rewrite store_deliver end; auto.
  - left. now destruct (end_once s).
  - destruct (listening s); [|now left]. right. left. exists (abort_error s).
    unfold abortAndFinalize. cbn. rewrite promise_abort. unfold reject. rewrite P. now cbn.
Qed.

Lemma timed_reachable (req : Request.t) (s : state) : reachable req s -> timed s.
Proof.
  induction 1 as [h s E|s ev R (IE & IF & IT)].
  - assert (P : promise s = Pending
               \/ exists e, promise s = Rejected e /\ Err.timings e = Some (timings s)).
    { unfold dispatch in E. destruct (getNodeRequestOptions req); [discriminate|]. cbn in E.
      destruct (Request.signal req) as [[[|]]|]; injection E as <-; try (now left).
      right. eexists. rewrite promise_abort. split; [reflexivity|].
      cbn. f_equal. symmetry. apply abort_fields. }
    unfold timed. destruct P as [P|(e0 & P & T)]; rewrite P; splits; try congruence.
    + intros [[? ?]|[? ?]]; discriminate.
    + intros [[? ?]|[? ?]]; discriminate.
  - pose proof (timings_bound req s R) as (x & B).
    destruct (promise s) eqn:P.
    + destruct (promise_step req s ev P) as [Q|[(e & Q & T)|[(r & now & Q & T & S)|(n & now & Q & S)]]];
        unfold timed; rewrite timings_step, Q; splits; try congruence.
      * intros [[? ?]|[? ?]]; discriminate.
      * intros [[? ?]|[? ?]]; discriminate.
      * intros _. rewrite S. exists (Timings.set_totalTime now x).
        split; [now apply update_lookup|discriminate].
      * intros _. rewrite S. exists (Timings.set_totalTime now x).
        split; [now apply update_lookup|discriminate].
    + assert (Q : promise (step req s ev) = Fulfilled r)
        by (rewrite settled_step; congruence).
      unfold timed. rewrite timings_step, Q. splits; try congruence.
      * intros r' [= <-]. now apply IF.
      * intros _. destruct IT as (y & Y & N); [left; now exists r|].
        destruct (store_step req s ev) as [->|(f & -> & K)].
        -- now exists y.
        -- exists (f y). split; [now apply update_lookup|now apply K].
    + assert (Q : promise (step req s ev) = Rejected e)
        by (rewrite settled_step; congruence).
      unfold timed. rewrite timings_step, Q. splits; try congruence.
      * intros e' [= <-]. now apply IE.
      * intros [[? ?]|[? ?]]; discriminate.
    + assert (Q : promise (step req s ev) = Forwarded next)
        by (rewrite settled_step; congruence).
      unfold timed. rewrite timings_step, Q. splits; try congruence.
      intros _. destruct IT as (y & Y & N); [right; now exists next|].
      destruct (store_step req s ev) as [->|(f & -> & K)].
      * now exists y.
      * exists (f y). split; [now apply update_lookup|now apply K].
Qed.


Lemma store_step_other (req : Request.t) (s : state) (ev : event) (l : loc) :
  l <> timings s -> store (step req s ev) !! l = store s !! l.
Proof.
  intros N. destruct (store_step req s ev) as [->|(f & -> & _)]; [reflexivity|].
  now apply update_lookup_other.
Qed.

Lemma store_run_other (req : Request.t) (evs : list event) (s : state) (l : loc) :
  l <> timings s -> store (run req s evs) !! l = store s !! l.
Proof.
  revert s. induction evs as [|ev evs IH]; intros s N; [reflexivity|].
  change (run req s (ev :: evs)) with (run req (step req s ev) evs).
  rewrite IH by now rewrite timings_step. now apply store_step_other.
Qed.

(** X2.  A call of fetch, with all the follow-up calls of its redirect
    chain, writes only to the timings objects these calls create: an object
    that was in the store before the call is there unchanged afterwards. *)
Theorem fetch_keeps_older_timings (hops : list (list event)) :
  forall (h : Store) (req : Request.t) (l : loc) (x : Timings.t),
  h !! l = Some x -> snd (fetch hops h req) !! l = Some x.
Proof.
  induction hops as [|evs rest IH]; intros h req l x L.
  - cbn. destruct (dispatch h req) as [e|s0] eqn:D; [exact L|]. cbn.
    apply dispatch_timings in D as (_ & ->). now apply lookup_app_l_Some.
  - rewrite fetch_cons. destruct (dispatch h req) as [e|s0] eqn:D; [exact L|].
    apply dispatch_timings in D as (T & S). cbv zeta.
    assert (K : store (run req s0 evs) !! l = Some x).
    { rewrite store_run_other.
      - rewrite S. now apply lookup_app_l_Some.
      - rewrite T. apply lookup_lt_Some in L. lia. }
    destruct (promise (run req s0 evs)); try exact K. now apply IH.
Qed.

(** X3.  The Response a call is fulfilled with holds the very timings
    object of the call, not a copy: the total time written when the promise
    was resolved is in it, and the first-byte time that "readable" writes
    after the Response was handed out shows through the Response's
    reference. *)
Theorem response_shares_timings (req : Request.t) (s : state)
    (r : Response.t BodyStream) :
  reachable req s -> promise s = Fulfilled r ->
  Response.timings r = timings s
  /\ exists x,
       store s !! Response.timings r = Some x
       /\ Timings.totalTime x <> None
       /\ forall now, readable_once s = true ->
            store (step req s (Readable now)) !! Response.timings r
            = Some (Timings.set_firstByteTime now x).
Proof.
  intros R P. destruct (timed_reachable req s R) as (_ & IF & IT).
  rewrite (IF r P). split; [reflexivity|].
  destruct IT as (x & B & N); [left; now exists r|]. exists x. splits; auto.
  intros now Ro. unfold step, stamp. rewrite Ro. cbn. now apply update_lookup.
Qed.

(** ** Calls that never reach the network, and transport errors *)

(** A state in which nothing is registered: no event changes it. *)
Lemma unregistered_step (req : Request.t) (s : state) (ev : event) :
  sent s = false -> socket s = false -> reqTimeout s = false -> listening s = false ->
  readable_once s = false -> end_once s = false -> sniff s = None ->
  step req s ev = s.
Proof.
  intros E1 E2 E3 E4 E5 E6 E7. destruct ev; unfold step, awaiting;
    rewrite ?E1, ?E2, ?E3, ?E4, ?E5, ?E6, ?E7; reflexivity.
Qed.

Lemma unregistered_run (req : Request.t) (evs : list event) (s : state) :
  sent s = false -> socket s = false -> reqTimeout s = false -> listening s = false ->
  readable_once s = false -> end_once s = false -> sniff s = None ->
  run req s evs = s.
Proof.
  intros E1 E2 E3 E4 E5 E6 E7. induction evs as [|ev evs IH]; [reflexivity|].
  change (run req s (ev :: evs)) with (run req (step req s ev) evs).
  now rewrite unregistered_step.
Qed.

(** X5.  A request whose signal is already aborted when fetch is called is
    rejected with an AbortError that refers to the new, empty timings
    object; the request is never sent and no listener is registered, a
    stream body is destroyed with the error, and whatever happens later
    changes nothing: the call is rejected with that error. *)
Theorem aborted_before_dispatch (req : Request.t) (h : Store) :
  accepted req = true -> pre_aborted req = true ->
  exists s0,
    dispatch h req = inr s0
    /\ promise s0 = Rejected (abort_error s0)
    /\ Err.name (abort_error s0) = Err.AbortError
    /\ Err.timings (abort_error s0) = Some (timings s0)
    /\ store s0 !! timings s0 = Some Timings.empty
    /\ sent s0 = false /\ listening s0 = false /\ response s0 = None
    /\ body_destroyed s0
       = match Request.body req with
         | Some Request.Readable => Some (abort_error s0)
         | _ => None
         end
    /\ (forall evs, run req s0 evs = s0)
    /\ (forall hops, fst (fetch hops h req) = Rejected (abort_error s0)).
Proof.
  unfold accepted, pre_aborted. intros A P.
  assert (D : exists s0, dispatch h req = inr s0
              /\ s0 = abort req (mk (h ++ [Timings.empty]) (length h) Pending None
                                    false false false false false false false false
                                    None None [])).
  { unfold dispatch. destruct (getNodeRequestOptions req); [discriminate|]. cbn.
    destruct (Request.signal req) as [[[|]]|]; try discriminate. eexists. eauto. }
  destruct D as (s0 & D & E). exists s0. split; [exact D|].
  assert (F : promise s0 = Rejected (abort_error s0)
              /\ store s0 !! timings s0 = Some Timings.empty
              /\ sent s0 = false /\ listening s0 = false /\ response s0 = None
              /\ body_destroyed s0
                 = match Request.body req with
                   | Some Request.Readable => Some (abort_error s0)
                   | _ => None
                   end
              /\ socket s0 = false /\ reqTimeout s0 = false
              /\ readable_once s0 = false /\ end_once s0 = false /\ sniff s0 = None).
  { rewrite E. unfold abort, reject. cbn.
    destruct (Request.body req) as [[|]|]; cbn; splits; try reflexivity;
      apply list_lookup_middle; reflexivity. }
  destruct F as (F1 & F2 & F3 & F4 & F5 & F6 & F7 & F8 & F9 & F10 & F11).
  assert (Idle : forall evs, run req s0 evs = s0)
    by (intros evs; now apply unregistered_run).
  splits; auto.
  intros [|evs rest].
  - cbn. rewrite D. exact F1.
  - rewrite fetch_cons, D. cbv zeta. rewrite Idle, F1. reflexivity.
Qed.

(** X6.  An "error" of the request while the response is awaited rejects the
    call with a FetchError of type "system" that keeps the reason and refers
    to the timings object, aborts the request, removes the abort listener
    and clears the timer; an "error" that comes when the promise is settled
    tears down in the same way and changes neither the settlement nor the
    Response's stream. *)
Theorem transport_error_rejects (req : Request.t) (s : state) (msg : string) :
  sent s = true ->
  let s' := step req s (ReqError msg) in
  (promise s = Pending ->
   promise s' = Rejected (system_error req msg s)
   /\ Err.name (system_error req msg s) = Err.FetchError
   /\ Err.type (system_error req msg s) = "system"
   /\ Err.cause (system_error req msg s) = Some msg
   /\ Err.timings (system_error req msg s) = Some (timings s))
  /\ (promise s <> Pending -> promise s' = promise s)
  /\ req_aborted s' = true /\ listening s' = false /\ reqTimeout s' = false
  /\ response s' = response s
  /\ stream_errors s' = stream_errors s
  /\ step req s' Timeout = s' /\ step req s' Abort = s'.
Proof.
  intros S s'.
  assert (E : s' = finalize (reject (system_error req msg s) s))
    by (subst s'; unfold step; now rewrite S).
  rewrite E. splits; try reflexivity.
  - intros P. unfold reject. rewrite P. splits; reflexivity.
  - intros P. cbn. now apply settled_reject.
  - cbn. unfold reject. now destruct (promise s).
  - cbn. unfold reject. now destruct (promise s).
Qed.

(** ** Responses that go on to the body handling *)

Lemma body_handling_delivers (req : Request.t) (res : Res.t) (hs : Headers.t) (now : Z)
    (s : state) :
  promise s = Pending -> content_decoding req res hs <> SniffDeflate ->
  exists r,
    promise (body_handling req res hs now s) = Fulfilled r
    /\ response (body_handling req res hs now s) = Some r
    /\ Response.url r = Some (Request.url req)
    /\ Response.status r = js_or_num (Some (Res.statusCode res)) 200
    /\ Response.statusText r
       = js_or_str (Some (Res.statusMessage res)) (STATUS_CODES (Response.status r))
    /\ (forall name, Headers.same_name "Content-Type" name = false ->
                     Headers.get (Response.headers r) name = Headers.get hs name).
Proof.
  intros P N. unfold body_handling. cbv zeta.
  destruct (content_decoding req res hs); [| |congruence];
    match goal with |- context [deliver ?n ?b ?o ?t] =>
      destruct (deliver_fields n b o t) as (E1 & E2 & _);
      change (promise t) with (promise s) in E2; rewrite P in E2;
      eexists; (split; [exact E2|]); (split; [exact E1|])
    end; splits; try reflexivity;
    intros name Hn; now rewrite new_headers_get.
Qed.

Lemma body_handling_flags (req : Request.t) (res : Res.t) (hs : Headers.t) (now : Z)
    (s : state) :
  req_aborted (body_handling req res hs now s) = req_aborted s
  /\ listening (body_handling req res hs now s) = listening s
  /\ reqTimeout (body_handling req res hs now s) = reqTimeout s
  /\ responded (body_handling req res hs now s) = responded s.
Proof.
  unfold body_handling. cbv zeta.
  destruct (content_decoding req res hs); [| |splits; reflexivity];
    match goal with |- context [deliver ?n ?b ?o ?t] =>
      destruct (deliver_fields n b o t)
        as (_ & _ & _ & _ & _ & _ & E1 & E2 & E3 & E4 & _)
    end; rewrite E1, E2, E3, E4; splits; reflexivity.
Qed.

(** What the "response" callback does with a response the redirect
    handling leaves alone. *)
Lemma passed_on (req : Request.t) (s : state) (res : Res.t) (now : Z) :
  reachable req s -> awaiting s = true ->
  redirect_decision req s res = DNone (Res.headers res) ->
  let s' := step req s (Incoming res now) in
  req_aborted s' = false /\ listening s' = listening s
  /\ (forall e, promise s' <> Rejected e)
  /\ (forall next, promise s' <> Forwarded next)
  /\ (content_decoding req res (Res.headers res) <> SniffDeflate ->
      exists r,
        promise s' = Fulfilled r
        /\ Response.url r = Some (Request.url req)
        /\ Response.status r = js_or_num (Some (Res.statusCode res)) 200
        /\ Response.statusText r
           = js_or_str (Some (Res.statusMessage res)) (STATUS_CODES (Response.status r))
        /\ forall name, Headers.same_name "Content-Type" name = false ->
             Headers.get (Response.headers r) name = Headers.get (Res.headers res) name).
Proof.
  intros R W D s'. subst s'. destruct (awaiting_pending req s R W) as (P & _ & _).
  unfold step. rewrite W. unfold on_response. cbv zeta.
  set (s1 := with_responded true (with_reqTimeout false s)).
  rewrite (redirect_decision_frame req s s1 res eq_refl), D.
  assert (P1 : promise s1 = Pending) by exact P.
  destruct (body_handling_flags req res (Res.headers res) now s1) as (F1 & F2 & _).
  rewrite F1, F2.
  assert (A : req_aborted s = false).
  { unfold awaiting in W. destruct (req_aborted s); [|reflexivity].
    rewrite andb_false_r in W. discriminate. }
  splits; auto.
  - intros e Q.
    destruct (content_decoding req res (Res.headers res)) eqn:C.
    + destruct (body_handling_delivers req res (Res.headers res) now s1 P1)
        as (r & Q' & _); congruence.
    + destruct (body_handling_delivers req res (Res.headers res) now s1 P1)
        as (r & Q' & _); congruence.
    + unfold body_handling in Q. cbv zeta in Q. rewrite C in Q. cbn in Q. congruence.
  - apply not_forwarded_body_handling. intros n. rewrite P1. discriminate.
  - intros C.
    destruct (body_handling_delivers req res (Res.headers res) now s1 P1 C)
      as (r & Q & _ & U & St & Tx & Hd).
    exists r. splits; auto.
Qed.

(** X7.  A response whose status is none of 301, 302, 303, 307 and 308 is
    never rejected and never followed, whatever the redirect mode is (mode
    "error" included): the request stays open and the call is fulfilled with
    a Response that has the request's URL, the status (200 for a status of
    0), the status message or the table's text, and the received headers. *)
Theorem non_redirect_is_delivered (req : Request.t) (s : state) (res : Res.t)
    (now : Z) :
  reachable req s -> awaiting s = true ->
  isRedirect (Res.statusCode res) = false ->
  let s' := step req s (Incoming res now) in
  req_aborted s' = false /\ listening s' = listening s
  /\ (forall e, promise s' <> Rejected e)
  /\ (forall next, promise s' <> Forwarded next)
  /\ (content_decoding req res (Res.headers res) <> SniffDeflate ->
      exists r,
        promise s' = Fulfilled r
        /\ Response.url r = Some (Request.url req)
        /\ Response.status r = js_or_num (Some (Res.statusCode res)) 200
        /\ Response.statusText r
           = js_or_str (Some (Res.statusMessage res)) (STATUS_CODES (Response.status r))
        /\ forall name, Headers.same_name "Content-Type" name = false ->
             Headers.get (Response.headers r) name = Headers.get (Res.headers res) name).
Proof.
  intros R W I. apply passed_on; auto.
  unfold redirect_decision. cbv zeta. now rewrite I.
Qed.

(** X8.  A redirect status without a Location header is not a redirect to
    the modes "manual" and "follow", and a redirect mode that is none of
    "error", "manual" and "follow" handles no redirect at all: the response
    is delivered as it was received, even when the redirect limit is
    reached or the request body is a stream. *)
Theorem redirect_without_location_is_delivered (req : Request.t) (s : state)
    (res : Res.t) (now : Z) :
  reachable req s -> awaiting s = true ->
  isRedirect (Res.statusCode res) = true ->
  (Headers.get (Res.headers res) "Location" = None /\ Request.redirect req <> "error")
  \/ (Request.redirect req <> "error" /\ Request.redirect req <> "manual"
      /\ Request.redirect req <> "follow") ->
  let s' := step req s (Incoming res now) in
  req_aborted s' = false /\ listening s' = listening s
  /\ (forall e, promise s' <> Rejected e)
  /\ (forall next, promise s' <> Forwarded next)
  /\ (content_decoding req res (Res.headers res) <> SniffDeflate ->
      exists r,
        promise s' = Fulfilled r
        /\ Response.url r = Some (Request.url req)
        /\ Response.status r = js_or_num (Some (Res.statusCode res)) 200
        /\ Response.statusText r
           = js_or_str (Some (Res.statusMessage res)) (STATUS_CODES (Response.status r))
        /\ forall name, Headers.same_name "Content-Type" name = false ->
             Headers.get (Response.headers r) name = Headers.get (Res.headers res) name).
Proof.
  intros R W I H. apply passed_on; auto.
  unfold redirect_decision. cbv zeta. rewrite I.
  destruct H as [(L & E)|(E & M & F)].
  - rewrite L. apply String.eqb_neq in E. rewrite E. cbn [option_map].
    destruct (String.eqb (Request.redirect req) "manual"); [reflexivity|].
    destruct (String.eqb (Request.redirect req) "follow"); reflexivity.
  - apply String.eqb_neq in E, M, F. now rewrite E, M, F.
Qed.

(** ** Content codings *)

Lemma content_decoding_gzip (req : Request.t) (res : Res.t) (hs : Headers.t)
    (c : string) :
  Request.compress req = true -> Request.method req <> "HEAD" ->
  Res.statusCode res <> 204 -> Res.statusCode res <> 304 ->
  Headers.get hs "Content-Encoding" = Some c ->
  c = "gzip" \/ c = "x-gzip" ->
  content_decoding req res hs = Gunzipped.
Proof.
  intros Hc Hm H4 H3 Hg Hd. unfold content_decoding. rewrite Hc, Hg.
  apply String.eqb_neq in Hm. apply Z.eqb_neq in H4, H3. rewrite Hm, H4, H3.
  destruct Hd as [-> | ->]; reflexivity.
Qed.

Lemma corrupt_only_manual (req : Request.t) (s : state) (res : Res.t) (e : Err.t)
    (hs : Headers.t) :
  redirect_decision req s res = DManualCorrupt e hs -> Request.redirect req = "manual".
Proof.
  unfold redirect_decision. cbv zeta.
  destruct (isRedirect (Res.statusCode res)); [|discriminate].
  destruct (String.eqb (Request.redirect req) "error"); [discriminate|].
  destruct (String.eqb (Request.redirect req) "manual") eqn:M.
  { intros _. now apply String.eqb_eq. }
  destruct (String.eqb (Request.redirect req) "follow"); [|discriminate].
  destruct (option_map _ _); [|discriminate].
  destruct (Request.counter req >=? Request.follow req); [discriminate|].
  destruct (unsupported_redirect req res); discriminate.
Qed.

(** X9.  A gzip or x-gzip body that is not exempt from decoding is piped
    into a gunzip transform and the Response is built on it at once, in the
    "response" callback: no first chunk is awaited, and the chunks that come
    are not looked at. *)
Theorem gzip_is_gunzipped (req : Request.t) (s : state) (res : Res.t) (now : Z)
    (c : string) :
  reachable req s -> awaiting s = true -> terminal req s res = true ->
  Request.compress req = true -> Request.method req <> "HEAD" ->
  Res.statusCode res <> 204 -> Res.statusCode res <> 304 ->
  Headers.get (Res.headers res) "Content-Encoding" = Some c ->
  c = "gzip" \/ c = "x-gzip" ->
  let s' := step req s (Incoming res now) in
  exists r,
    response s' = Some r
    /\ Response.body r = Some (Piped (Some Gunzip))
    /\ (Request.redirect req <> "manual" -> promise s' = Fulfilled r)
    /\ sniff s' = None
    /\ forall chunk t, step req s' (Data chunk t) = s'.
Proof.
  intros R W T Hc Hm H4 H3 Hg Hd s'. subst s'.
  destruct (awaiting_pending req s R W) as (P & _ & Sn).
  destruct (terminal_step req s res now W P T)
    as (hs & s1 & -> & C & _ & _ & Sn1 & _ & _ & _ & _ & P1).
  rewrite (content_decoding_gzip req res (Res.headers res) c) in C by assumption.
  unfold body_handling. cbv zeta. rewrite C.
  match goal with |- context [deliver ?n ?b ?o ?t] =>
    destruct (deliver_fields n b o t)
      as (E1 & E2 & E3 & _ & _ & _ & _ & _ & _ & _ & E4 & _)
  end.
  cbn [sniff with_readable_once with_end_once] in E4. rewrite Sn1, Sn in E4.
  eexists. split; [exact E1|]. split; [exact E3|]. splits.
  - intros M. rewrite E2. cbn [promise with_readable_once with_end_once].
    destruct P1 as [->|(e & D & _)]; [reflexivity|].
    apply corrupt_only_manual in D. contradiction.
  - exact E4.
  - intros chunk t. unfold step. now rewrite E4.
Qed.

(** While the first chunk of a deflate body is awaited, the events that
    bring no data keep the wait as it is. *)
Lemma sniffing_step (req : Request.t) (s : state) (ev : event) (o : Response.opts) :
  uneventful ev = true ->
  responded s = true -> reqTimeout s = false -> sniff s = Some o ->
  let s' := step req s ev in
  responded s' = true /\ reqTimeout s' = false /\ sniff s' = Some o
  /\ promise s' = promise s /\ response s' = response s.
Proof.
  intros U Rs Tm Sn. assert (W : awaiting s = false).
  { unfold awaiting. rewrite Rs. apply andb_false_r. }
  destruct ev; try discriminate; unfold step; rewrite ?W, ?Tm; cbn [andb];
    splits; auto.
  all: try (destruct (socket s); cbn; assumption || reflexivity).
  all: try (destruct (readable_once s); cbn; assumption || reflexivity).
  all: try (destruct (end_once s); cbn; assumption || reflexivity).
Qed.

Lemma sniffing_run (req : Request.t) (evs : list event) (s : state) (o : Response.opts) :
  forallb uneventful evs = true ->
  responded s = true -> reqTimeout s = false -> sniff s = Some o ->
  promise (run req s evs) = promise s /\ response (run req s evs) = response s
  /\ sniff (run req s evs) = Some o.
Proof.
  revert s. induction evs as [|ev evs IH]; intros s U Rs Tm Sn; [now splits|].
  cbn [forallb] in U. apply andb_prop in U as (U1 & U2).
  change (run req s (ev :: evs)) with (run req (step req s ev) evs).
  destruct (sniffing_step req s ev o U1 Rs Tm Sn) as (A & B & C & D & E).
  destruct (IH (step req s ev) U2 A B C) as (F & G & H).
  rewrite F, G, D, E. now splits.
Qed.

(** X10.  A deflate or x-deflate body that is not exempt from decoding
    gets its Response only when a first chunk arrives: as long as no chunk
    comes (the body may be empty and simply end), no Response is built and a
    pending call stays pending, whatever else happens short of an abort or
    a transport error. *)
Theorem deflate_waits_for_first_chunk (req : Request.t) (s : state) (res : Res.t)
    (now : Z) (c : string) (evs : list event) :
  reachable req s -> awaiting s = true -> terminal req s res = true ->
  Request.compress req = true -> Request.method req <> "HEAD" ->
  Res.statusCode res <> 204 -> Res.statusCode res <> 304 ->
  Headers.get (Res.headers res) "Content-Encoding" = Some c ->
  c = "deflate" \/ c = "x-deflate" ->
  forallb uneventful evs = true ->
  let s' := run req (step req s (Incoming res now)) evs in
  response s' = None
  /\ sniff s' <> None
  /\ (forall r, promise s' <> Fulfilled r)
  /\ (Request.redirect req <> "manual" -> promise s' = Pending).
Proof.
  intros R W T Hc Hm H4 H3 Hg Hd U s'. subst s'.
  destruct (awaiting_pending req s R W) as (P & Rn & Sn).
  pose proof (responded_incoming req s res now W) as Rs.
  destruct (terminal_step req s res now W P T)
    as (hs & s1 & E & C & _ & Rn1 & _ & _ & _ & _ & _ & P1).
  rewrite (content_decoding_sniff req res (Res.headers res) c) in C by assumption.
  assert (F : step req s (Incoming res now)
              = with_sniff (Some (response_options req res hs))
                  (with_readable_once true (with_end_once true s1))).
  { rewrite E. unfold body_handling. cbv zeta. now rewrite C. }
  assert (Tm : reqTimeout (step req s (Incoming res now)) = false).
  { unfold step. rewrite W. unfold on_response. cbv zeta.
    destruct (redirect_decision req _ res); cbn;
      try (match goal with |- context [body_handling ?a ?b ?c ?d ?e] =>
             destruct (body_handling_flags a b c d e) as (_ & _ & -> & _) end);
      unfold reject; cbn; try reflexivity.
    destruct (promise s); reflexivity. }
  destruct (sniffing_run req evs _ (response_options req res hs) U Rs Tm) as (A & B & D).
  { rewrite F. reflexivity. }
  rewrite A, B, D, F. cbn. rewrite Rn1, Rn. splits; auto; try discriminate.
  - intros r. destruct P1 as [->|(e & _ & ->)]; discriminate.
  - intros M. destruct P1 as [->|(e & Dc & _)]; [reflexivity|].
    apply corrupt_only_manual in Dc. contradiction.
Qed.

Lemma low_nibble_residue (b : Z) : Z.land b 15 = b mod 16.
Proof. change 15 with (Z.ones 4). rewrite Z.land_ones by lia. reflexivity. Qed.

(** X11.  The first chunk of a sniffed deflate body decides by the low four
    bits of its first byte alone: the body is inflated with the zlib
    wrapper exactly when the chunk has a first byte b with b mod 16 = 8,
    whatever its high four bits are; every other chunk, the empty one
    included, selects the raw inflater.  The Response is built in either
    case and the sniffing is over. *)
Theorem first_chunk_decides_by_low_bits (req : Request.t) (s : state)
    (o : Response.opts) (chunk : list Z) (now : Z) :
  sniff s = Some o ->
  let s' := step req s (Data chunk now) in
  exists r z,
    response s' = Some r
    /\ Response.body r = Some (Piped (Some z))
    /\ sniff s' = None
    /\ (z = Inflate <-> exists b rest, chunk = b :: rest /\ b mod 16 = 8)
    /\ (z = InflateRaw <-> ~ exists b rest, chunk = b :: rest /\ b mod 16 = 8).
Proof.
  intros Sn s'. subst s'. unfold step. rewrite Sn. unfold on_first_chunk. cbv zeta.
  match goal with |- context [deliver ?n ?b ?o ?t] =>
    destruct (deliver_fields n b o t)
      as (E1 & _ & E3 & _ & _ & _ & _ & _ & _ & _ & E4 & _)
  end.
  eexists. eexists. split; [exact E1|]. split; [exact E3|]. split; [exact E4|].
  destruct chunk as [|b rest]; cbn [low_nibble].
  - cbn. split; split; try discriminate; auto.
    + intros (b & rest & [=] & _).
    + intros _ (b & rest & [=] & _).
  - rewrite low_nibble_residue. destruct (b mod 16 =? 8) eqn:Q.
    + apply Z.eqb_eq in Q. split; split; auto; try discriminate.
      * intros _. now exists b, rest.
      * intros N. exfalso. apply N. now exists b, rest.
    + apply Z.eqb_neq in Q. split; split; auto; try discriminate.
      * intros (b' & rest' & [= <- <-] & ?). contradiction.
      * intros _ (b' & rest' & [= <- <-] & ?). contradiction.
Qed.

(** ** What is registered, and when *)

Ltac handlers :=
  unfold step, on_socket, on_timeout, on_error, on_response, body_handling,
    on_first_chunk, deliver, abortAndFinalize, abort, finalize, stamp, resolve, reject,
    Response.new in *;
  cbv zeta in *.

Ltac cases :=
  repeat match goal with
         | |- context [match ?x with _ => _ end] => destruct x eqn:?
         | |- context [if ?x then _ else _] => destruct x eqn:?
         end.

(** The abort listener is registered only for a request with a signal that
    was not aborted at dispatch; the timer is armed only on an assigned
    socket; "readable" is awaited only after the response. *)
Lemma registered (req : Request.t) (s : state) :
  reachable req s ->
  (listening s = true ->
   exists tok, Request.signal req = Some tok /\ Request.aborted tok = false)
  /\ (reqTimeout s = true -> socket s = true)
  /\ (readable_once s = true -> responded s = true).
Proof.
  induction 1 as [h s E|s ev R (I1 & I2 & I3)].
  - unfold dispatch in E. destruct (getNodeRequestOptions req); [discriminate|].
    cbn in E. destruct (Request.signal req) as [[[|]]|] eqn:G; injection E as <-.
    + handlers. cases; cbn; splits; discriminate.
    + cbn. splits; try discriminate. intros _. eexists. split; reflexivity.
    + cbn. splits; discriminate.
  - destruct ev; handlers; cases; cbn; splits; intros; auto; try discriminate;
      intuition congruence.
Qed.

(** X12.  The request of a followed redirect takes over the redirect limit,
    the agent, the compress flag and the signal of the request that was
    redirected; its counter is within the limit. *)
Theorem follow_up_inherits (req : Request.t) (s : state) (res : Res.t) (now : Z)
    (next : Request.t) :
  reachable req s -> awaiting s = true ->
  promise (step req s (Incoming res now)) = Forwarded next ->
  Request.follow next = Request.follow req
  /\ Request.agent next = Request.agent req
  /\ Request.compress next = Request.compress req
  /\ Request.signal next = Request.signal req
  /\ Request.counter next <= Request.follow next.
Proof.
  intros R W F. destruct (awaiting_pending req s R W) as (P & _).
  unfold step in F. rewrite W in F.
  apply (forwarded_decision req s res now next P) in F.
  apply follow_decision_inv in F as (_ & _ & C & _ & location & _ & ->).
  destruct (becomes_get req res); cbn; splits; auto; lia.
Qed.

Lemma store_length_step (req : Request.t) (s : state) (ev : event) :
  length (store (step req s ev)) = length (store s).
Proof.
  destruct (store_step req s ev) as [->|(f & -> & _)]; [reflexivity|].
  apply update_length.
Qed.

Lemma store_length_run (req : Request.t) (evs : list event) (s : state) :
  length (store (run req s evs)) = length (store s).
Proof.
  revert s. induction evs as [|ev evs IH]; intros s; [reflexivity|].
  change (run req s (ev :: evs)) with (run req (step req s ev) evs).
  now rewrite IH, store_length_step.
Qed.

(** X13.  When a redirect is followed to a URL for which
    [getNodeRequestOptions] throws, the call that was redirected is rejected
    with that very error, whatever the transport would deliver afterwards;
    no timings object is made for the follow-up. *)
Theorem refused_follow_up_rejects (req : Request.t) (h : Store) (hp : hop)
    (location : string) (e : Err.t) (tail : list (list event)) :
  accepted req = true -> pre_aborted req = false ->
  Request.redirect req = "follow" ->
  forallb quiet (before hp) = true ->
  isRedirect (Res.statusCode (answer hp)) = true ->
  Headers.get (Res.headers (answer hp)) "Location" = Some location ->
  Request.counter req < Request.follow req ->
  unsupported_redirect req (answer hp) = false ->
  getNodeRequestOptions (follow_up req (answer hp) location) = inl e ->
  fst (fetch (events hp :: tail) h req) = Rejected e
  /\ length (snd (fetch (events hp :: tail) h req)) = S (length h).
Proof.
  intros A Pa M Q I L C U G.
  destruct (dispatch_sends h req A Pa) as (s0 & D & W).
  pose proof (hop_follows req s0 hp location (reach_dispatch req h s0 D) W M Q I L C U)
    as F.
  rewrite fetch_cons, D. cbv zeta. rewrite F.
  assert (K : forall h', fetch tail h' (follow_up req (answer hp) location)
                         = (Rejected e, h')).
  { intros h'. destruct tail; cbn; unfold dispatch; rewrite G; reflexivity. }
  rewrite K. cbn [fst snd]. split; [reflexivity|].
  rewrite store_length_run. apply dispatch_timings in D as (_ & ->).
  rewrite length_app. cbn. lia.
Qed.

(** ** Cancellation and the timer *)

(** X14.  An abort that is heard tears the call down once: the request is
    aborted, the listener removed and the timer cleared, and a stream body of
    the request is destroyed with the AbortError.  A pending call is
    rejected with that error and no stream gets it; a fulfilled call keeps
    its Response, whose body stream gets the error.  A second abort is not
    heard. *)
Theorem abort_is_heard_once (req : Request.t) (s : state) :
  reachable req s -> listening s = true ->
  let s' := step req s Abort in
  req_aborted s' = true /\ listening s' = false /\ reqTimeout s' = false
  /\ body_destroyed s'
     = match Request.body req with
       | Some Request.Readable => Some (abort_error s)
       | _ => body_destroyed s
       end
  /\ (promise s = Pending ->
      promise s' = Rejected (abort_error s)
      /\ Err.name (abort_error s) = Err.AbortError
      /\ stream_errors s' = stream_errors s)
  /\ (forall r, promise s = Fulfilled r ->
      promise s' = Fulfilled r
      /\ stream_errors s' = stream_errors s ++ [abort_error s])
  /\ step req s' Abort = s'.
Proof.
  intros R L s'.
  assert (E : s' = abortAndFinalize req s) by (subst s'; unfold step; now rewrite L).
  splits.
  - rewrite E. reflexivity.
  - rewrite E. reflexivity.
  - rewrite E. reflexivity.
  - rewrite E. unfold abortAndFinalize, finalize, abort, reject. cbv zeta.
    destruct (Request.body req) as [[|]|]; cases; reflexivity.
  - intros P. destruct (abort_while_pending req s R L P) as (A & B & _ & C).
    now splits.
  - intros r P. destruct (abort_after_fulfilment req s r R L P) as (A & _ & C).
    now splits.
  - rewrite E. reflexivity.
Qed.

(** X15.  Without a signal no abort is ever heard; and once the response
    has ended the listener is gone: an abort after the end neither rejects
    the call nor reaches the Response's stream. *)
Theorem abort_is_not_heard (req : Request.t) (s : state) :
  reachable req s ->
  (Request.signal req = None -> step req s Abort = s)
  /\ (end_once s = true ->
      let s1 := step req s Ended in
      promise s1 = promise s /\ response s1 = response s
      /\ step req s1 Abort = s1).
Proof.
  intros R. split.
  - intros N. unfold step. destruct (listening s) eqn:L; [|reflexivity].
    destruct (registered req s R) as (I & _). destruct (I L) as (tok & T & _).
    congruence.
  - intros E s1.
    assert (F : s1 = with_listening false (with_end_once false s))
      by (subst s1; unfold step; now rewrite E).
    rewrite F. splits; reflexivity.
Qed.

(** X16.  The timer is armed only for a request with a timeout that is not
    0, on an assigned socket, while the response is awaited.  When it fires,
    the call is rejected with the FetchError "network timeout at: <url>" of
    type "request-timeout" that refers to the timings object, and is torn
    down; it does not fire again. *)
Theorem timer_fires_once (req : Request.t) (s : state) :
  reachable req s -> reqTimeout s = true ->
  (Request.timeout req <> 0 /\ socket s = true /\ awaiting s = true
   /\ promise s = Pending /\ response s = None)
  /\ let s' := step req s Timeout in
     promise s' = Rejected (timeout_error req s)
     /\ Err.name (timeout_error req s) = Err.FetchError
     /\ Err.type (timeout_error req s) = "request-timeout"
     /\ Err.message (timeout_error req s)
        = String.append "network timeout at: " (Request.url req)
     /\ Err.timings (timeout_error req s) = Some (timings s)
     /\ req_aborted s' = true /\ listening s' = false
     /\ step req s' Timeout = s'.
Proof.
  intros R T.
  pose proof (inv_timer s (reachable_inv req s R) T) as W.
  destruct (awaiting_pending req s R W) as (P & N & _).
  destruct (registered req s R) as (_ & S & _).
  split.
  - splits; auto. now apply (timer_needs_timeout req s).
  - intros s'.
    assert (E : s' = finalize (reject (timeout_error req s) (with_reqTimeout false s)))
      by (subst s'; unfold step; now rewrite T).
    rewrite E. unfold reject. cbn [promise with_reqTimeout]. rewrite P.
    splits; reflexivity.
Qed.

Lemma dispatch_unfulfilled (h : Store) (req : Request.t) (s : state)
    (r : Response.t BodyStream) :
  dispatch h req = inr s -> promise s <> Fulfilled r.
Proof.
  unfold dispatch. destruct (getNodeRequestOptions req); [discriminate|]. cbn.
  destruct (Request.signal req) as [[[|]]|]; intros [= <-]; try discriminate.
  rewrite promise_abort. discriminate.
Qed.

(** X17.  The Response a call is fulfilled with, after any number of
    followed redirects, refers to the timings object that was created last:
    the one of the hop that delivered it, with that hop's total time in it.
    What the earlier hops measured is in other objects. *)
Theorem response_timings_are_the_last_hops (hops : list (list event)) :
  forall (h : Store) (req : Request.t) (r : Response.t BodyStream),
  fst (fetch hops h req) = Fulfilled r ->
  S (Response.timings r) = length (snd (fetch hops h req))
  /\ (length h <= Response.timings r)%nat
  /\ exists x, snd (fetch hops h req) !! Response.timings r = Some x
               /\ Timings.totalTime x <> None.
Proof.
  induction hops as [|evs rest IH]; intros h req r.
  - cbn. destruct (dispatch h req) as [e|s0] eqn:D; [discriminate|]. cbn.
    intros F. now apply (dispatch_unfulfilled h req s0 r) in D.
  - rewrite fetch_cons. destruct (dispatch h req) as [e|s0] eqn:D; [discriminate|].
    cbv zeta. pose proof (reach_dispatch req h s0 D) as R0.
    pose proof (reachable_run req evs s0 R0) as R.
    apply dispatch_timings in D as (T & S0).
    destruct (promise (run req s0 evs)) as [|r'|e|next] eqn:P; try discriminate.
    + cbn [fst snd]. intros [= ->].
      destruct (timed_reachable req _ R) as (_ & IF & IT).
      rewrite (IF r P), timings_run, T, store_length_run, S0, length_app. cbn.
      split; [lia|]. split; [lia|].
      destruct IT as (x & B & N); [left; now exists r|].
      rewrite timings_run, T in B. now exists x.
    + intros F. destruct (IH _ _ _ F) as (A & B & C). split; [exact A|].
      split; [|exact C]. rewrite store_length_run, S0, length_app in B. cbn in B. lia.
Qed.

Lemma dispatch_listens (h : Store) (req : Request.t) (tok : Request.token) :
  accepted req = true -> Request.signal req = Some tok -> Request.aborted tok = false ->
  exists s0, dispatch h req = inr s0 /\ awaiting s0 = true /\ listening s0 = true.
Proof.
  unfold accepted, dispatch. intros A S T.
  destruct (getNodeRequestOptions req); [discriminate|]. cbn. rewrite S, T.
  eexists. split; [reflexivity|]. split; reflexivity.
Qed.

Lemma quiet_listening (req : Request.t) (evs : list event) (s : state) :
  forallb quiet evs = true -> listening (run req s evs) = listening s.
Proof.
  revert s. induction evs as [|ev evs IH]; intros s Q; [reflexivity|].
  cbn [forallb] in Q. apply andb_prop in Q as (Q1 & Q2).
  change (run req s (ev :: evs)) with (run req (step req s ev) evs).
  rewrite (IH _ Q2). destruct ev; try discriminate; unfold step.
  - destruct (awaiting s && negb (socket s)); [|reflexivity].
    unfold on_socket. now destruct (Request.timeout req =? 0).
  - now destruct (socket s).
  - now destruct (socket s).
  - now destruct (socket s).
Qed.

(** X20.  The signal goes with the redirect: when a redirect was followed
    and the signal is aborted while the follow-up awaits its response, the
    call that was redirected is rejected with the AbortError, whatever the
    transport delivers afterwards. *)
Theorem abort_reaches_follow_up (req : Request.t) (h : Store) (hp : hop)
    (location : string) (tok : Request.token) (pre post : list event)
    (tail : list (list event)) :
  accepted req = true ->
  Request.signal req = Some tok -> Request.aborted tok = false ->
  Request.redirect req = "follow" ->
  forallb quiet (before hp) = true ->
  isRedirect (Res.statusCode (answer hp)) = true ->
  Headers.get (Res.headers (answer hp)) "Location" = Some location ->
  Request.counter req < Request.follow req ->
  unsupported_redirect req (answer hp) = false ->
  accepted (follow_up req (answer hp) location) = true ->
  forallb quiet pre = true ->
  exists e,
    fst (fetch (events hp :: (pre ++ Abort :: post) :: tail) h req) = Rejected e
    /\ Err.name e = Err.AbortError
    /\ Err.type e = "aborted"
    /\ Err.message e = "The user aborted a request.".
Proof.
  intros A S T M Q I L C U A' Q'.
  assert (Pa : pre_aborted req = false) by (unfold pre_aborted; now rewrite S).
  destruct (dispatch_sends h req A Pa) as (s0 & D & W).
  pose proof (hop_follows req s0 hp location (reach_dispatch req h s0 D) W M Q I L C U)
    as F.
  rewrite fetch_cons, D. cbv zeta. rewrite F.
  set (next := follow_up req (answer hp) location).
  assert (S' : Request.signal next = Some tok).
  { destruct (follow_up_fields req (answer hp) location) as (_ & _ & _ & E & _).
    fold next in E. congruence. }
  destruct (dispatch_listens (store (run req s0 (events hp))) next tok A' S' T)
    as (t0 & D' & W' & L').
  rewrite fetch_cons, D'. cbv zeta. rewrite run_app.
  set (t1 := run next t0 pre).
  assert (R1 : reachable next t1)
    by (apply reachable_run; exact (reach_dispatch next _ t0 D')).
  assert (W1 : awaiting t1 = true) by now apply quiet_run.
  assert (L1 : listening t1 = true) by (unfold t1; now rewrite quiet_listening).
  destruct (awaiting_pending next t1 R1 W1) as (P1 & _).
  destruct (abort_while_pending next t1 R1 L1 P1) as (E & _).
  change (run next t1 (Abort :: post)) with (run next (step next t1 Abort) post).
  rewrite settled_run; rewrite E; [|discriminate].
  exists (abort_error t1). splits; reflexivity.
Qed.

(** ** The shape of the Response that is delivered *)

(** The Response variable changes only by a construction from options that
    are [response_options] of this request or wait for the first chunk. *)
Lemma response_step (req : Request.t) (s : state) (ev : event) :
  response (step req s ev) = response s
  \/ exists b o,
       response (step req s ev)
       = Some (snd (Response.new (store s) (Some b) o (Some (timings s))))
       /\ (sniff s = Some o \/ exists res hs, o = response_options req res hs).
Proof.
  destruct ev; unfold step.
  - left. destruct (awaiting s && negb (socket s)); [|reflexivity].
    unfold on_socket. now destruct (Request.timeout req =? 0).
  - left. now destruct (socket s).
  - left. now destruct (socket s).
  - left. now destruct (socket s).
  - left. destruct (reqTimeout s); [|reflexivity]. unfold on_timeout, reject. cbn.
    now destruct (promise s).
  - left. destruct (sent s); [|reflexivity]. unfold on_error, reject. cbn.
    now destruct (promise s).
  - destruct (awaiting s); [|now left]. unfold on_response. cbv zeta.
    set (s1 := with_responded true (with_reqTimeout false s)).
    assert (K : forall hs t, store t = store s -> timings t = timings s ->
                response t = response s ->
                response (body_handling req res hs now t) = response s
                \/ exists b o,
                     response (body_handling req res hs now t)
                     = Some (snd (Response.new (store s) (Some b) o (Some (timings s))))
                     /\ (sniff s = Some o
                         \/ exists res' hs', o = response_options req res' hs')).
    { intros hs t E1 E2 E3. unfold body_handling. cbv zeta.
      destruct (content_decoding req res hs); [| |left; exact E3];
        right;
        match goal with |- context [deliver ?n ?b ?o ?u] =>
          destruct (deliver_fields n b o u) as (F & _); exists b, o
        end;
        cbn [store timings with_readable_once with_end_once] in F;
        rewrite E1, E2 in F; (split; [exact F|]); right; eauto. }
    destruct (redirect_decision req s1 res).
    + now apply K.
    + now apply K.
    + apply K; unfold reject; cbn; now destruct (promise s).
    + left. unfold reject. cbn. now destruct (promise s).
    + left. unfold resolve. cbn. now destruct (promise s).
  - left. now destruct (readable_once s).
  - destruct (sniff s) as [o|] eqn:Sn; [|now left]. right.
    unfold on_first_chunk. cbv zeta.
    match goal with |- context [deliver ?n ?b ?o ?u] =>
      destruct (deliver_fields n b o u) as (F & _); exists b, o
    end.
    split; [exact F|]. now left.
  - left. now destruct (end_once s).
  - left. destruct (listening s); [|reflexivity]. unfold abortAndFinalize. cbn.
    apply abort_fields.
Qed.

Lemma sniff_step (req : Request.t) (s : state) (ev : event) :
  sniff (step req s ev) = sniff s
  \/ sniff (step req s ev) = None
  \/ exists res hs, sniff (step req s ev) = Some (response_options req res hs).
Proof.
  destruct ev; unfold step.
  - left. destruct (awaiting s && negb (socket s)); [|reflexivity].
    unfold on_socket. now destruct (Request.timeout req =? 0).
  - left. now destruct (socket s).
  - left. now destruct (socket s).
  - left. now destruct (socket s).
  - left. destruct (reqTimeout s); [|reflexivity]. unfold on_timeout, reject. cbn.
    now destruct (promise s).
  - left. destruct (sent s); [|reflexivity]. unfold on_error, reject. cbn.
    now destruct (promise s).
  - destruct (awaiting s); [|now left]. unfold on_response. cbv zeta.
    set (s1 := with_responded true (with_reqTimeout false s)).
    assert (K : forall hs t, sniff t = sniff s ->
                sniff (body_handling req res hs now t) = sniff s
                \/ sniff (body_handling req res hs now t) = None
                \/ exists res' hs',
                     sniff (body_handling req res hs now t)
                     = Some (response_options req res' hs')).
    { intros hs t E. unfold body_handling. cbv zeta.
      destruct (content_decoding req res hs);
        [left|left|right; right; exists res, hs; reflexivity];
        match goal with |- context [deliver ?n ?b ?o ?u] =>
          destruct (deliver_fields n b o u)
            as (_ & _ & _ & _ & _ & _ & _ & _ & _ & _ & F & _)
        end; rewrite F; exact E. }
    destruct (redirect_decision req s1 res).
    + now apply K.
    + now apply K.
    + apply K; unfold reject; cbn; now destruct (promise s).
    + left. unfold reject. cbn. now destruct (promise s).
    + left. unfold resolve. cbn. now destruct (promise s).
  - left. now destruct (readable_once s).
  - destruct (sniff s) as [o|] eqn:Sn; [|now left]. right. left.
    unfold on_first_chunk. cbv zeta.
    match goal with |- context [deliver ?n ?b ?o ?u] =>
      destruct (deliver_fields n b o u)
        as (_ & _ & _ & _ & _ & _ & _ & _ & _ & _ & F & _)
    end. rewrite F. reflexivity.
  - left. now destruct (end_once s).
  - left. destruct (listening s); [|reflexivity]. unfold abortAndFinalize. cbn.
    apply abort_fields.
Qed.

Lemma shaped_reachable (req : Request.t) (s : state) :
  reachable req s ->
  (forall r, response s = Some r ->
     Response.url r = Some (Request.url req) /\ Response.remoteAddress r = None
     /\ Response.well_formed r)
  /\ (forall o, sniff s = Some o -> exists res hs, o = response_options req res hs).
Proof.
  induction 1 as [h s E|s ev R (IR & IS)].
  - unfold dispatch in E. destruct (getNodeRequestOptions req); [discriminate|].
    cbn in E.
    assert (N : response s = None /\ sniff s = None).
    { destruct (Request.signal req) as [[[|]]|]; injection E as <-;
        try (split; reflexivity).
      destruct (abort_fields req
                  (mk (h ++ [Timings.empty]) (length h) Pending None false false false
                      false false false false false None None []))
        as (-> & -> & _). split; reflexivity. }
    destruct N as (-> & ->). split; intros; discriminate.
  - split.
    + intros r Q. destruct (response_step req s ev) as [E|(b & o & E & O)].
      * apply IR. congruence.
      * assert (r = snd (Response.new (store s) (Some b) o (Some (timings s))))
          as -> by congruence.
        assert (exists res hs, o = response_options req res hs) as (res & hs & ->).
        { destruct O as [O|O]; [now apply IS|exact O]. }
        split; [|split].
        -- unfold Response.new. reflexivity.
        -- unfold Response.new. reflexivity.
        -- apply ResponseFacts.new_well_formed.
    + intros o Q. destruct (sniff_step req s ev) as [E|[E|(res & hs & E)]].
      * apply IS. congruence.
      * congruence.
      * exists res, hs. congruence.
Qed.

(** ** The end of a redirect chain *)

Lemma non_redirect_answer (req : Request.t) (h : Store) (pre : list event)
    (res : Res.t) (now : Z) :
  accepted req = true -> pre_aborted req = false ->
  forallb quiet pre = true ->
  isRedirect (Res.statusCode res) = false ->
  exists s0 s2,
    dispatch h req = inr s0
    /\ run req s0 (pre ++ [Incoming res now])
       = body_handling req res (Res.headers res) now s2
    /\ promise s2 = Pending /\ responded s2 = true /\ reqTimeout s2 = false.
Proof.
  intros Hacc Hpre Hq Hred.
  destruct (dispatch_sends h req Hacc Hpre) as (s0 & Hd & Hw).
  set (s1 := run req s0 pre).
  assert (Hr1 : reachable req s1)
    by (apply reachable_run; now apply (reach_dispatch req h)).
  assert (Hw1 : awaiting s1 = true) by now apply quiet_run.
  destruct (awaiting_pending req s1 Hr1 Hw1) as (Hp & _ & _).
  exists s0, (with_responded true (with_reqTimeout false s1)).
  split; [exact Hd|]. split; [|now splits].
  rewrite run_app. fold s1.
  change (run req s1 [Incoming res now]) with (step req s1 (Incoming res now)).
  unfold step. rewrite Hw1. unfold on_response. cbv zeta.
  assert (D : forall t, redirect_decision req t res = DNone (Res.headers res))
    by (intros t; unfold redirect_decision; cbv zeta; now rewrite Hred).
  now rewrite D.
Qed.

(** The last hop, when the Response is built in the "response" callback. *)
Lemma final_hop_direct (req : Request.t) (h : Store) (pre post : list event)
    (res : Res.t) (now : Z) (tail : list (list event)) :
  accepted req = true -> pre_aborted req = false ->
  forallb quiet pre = true ->
  isRedirect (Res.statusCode res) = false ->
  content_decoding req res (Res.headers res) <> SniffDeflate ->
  exists r,
    fst (fetch ((pre ++ Incoming res now :: post) :: tail) h req) = Fulfilled r
    /\ Response.url r = Some (Request.url req)
    /\ Response.status r = js_or_num (Some (Res.statusCode res)) 200.
Proof.
  intros Hacc Hpre Hq Hred Hc.
  destruct (non_redirect_answer req h pre res now Hacc Hpre Hq Hred)
    as (s0 & s2 & Hd & E & P & _).
  destruct (body_handling_delivers req res (Res.headers res) now s2 P Hc)
    as (r & F & _ & U & St & _).
  rewrite fetch_cons, Hd. cbv zeta.
  change (pre ++ Incoming res now :: post) with (pre ++ [Incoming res now] ++ post).
  rewrite app_assoc, run_app, E.
  rewrite settled_run; rewrite F; [|discriminate].
  exists r. now splits.
Qed.

(** The last hop, when the Response waits for the first chunk. *)
Lemma final_hop_sniffed (req : Request.t) (h : Store) (pre mid : list event)
    (res : Res.t) (now : Z) (tail : list (list event)) :
  accepted req = true -> pre_aborted req = false ->
  forallb quiet pre = true ->
  isRedirect (Res.statusCode res) = false ->
  content_decoding req res (Res.headers res) = SniffDeflate ->
  forallb uneventful mid = true ->
  fst (fetch ((pre ++ Incoming res now :: mid) :: tail) h req) = Pending
  /\ forall (chunk : list Z) (t : Z) (post : list event),
     exists r,
       fst (fetch ((pre ++ Incoming res now :: mid ++ Data chunk t :: post) :: tail)
              h req) = Fulfilled r
       /\ Response.url r = Some (Request.url req)
       /\ Response.status r = js_or_num (Some (Res.statusCode res)) 200.
Proof.
  intros Hacc Hpre Hq Hred Hc Hm.
  destruct (non_redirect_answer req h pre res now Hacc Hpre Hq Hred)
    as (s0 & s2 & Hd & E & P & Rs & Tm).
  set (o := response_options req res (Res.headers res)).
  set (s3 := with_sniff (Some o) (with_readable_once true (with_end_once true s2))).
  assert (E3 : run req s0 (pre ++ [Incoming res now]) = s3).
  { rewrite E. unfold body_handling. cbv zeta. now rewrite Hc. }
  destruct (sniffing_run req mid s3 o Hm Rs Tm eq_refl) as (A & _ & C).
  change (promise s3) with (promise s2) in A. rewrite P in A.
  split.
  - rewrite fetch_cons, Hd. cbv zeta.
    change (pre ++ Incoming res now :: mid) with (pre ++ [Incoming res now] ++ mid).
    rewrite app_assoc, run_app, E3, A. reflexivity.
  - intros chunk t post. rewrite fetch_cons, Hd. cbv zeta.
    change (pre ++ Incoming res now :: mid ++ Data chunk t :: post)
      with (pre ++ [Incoming res now] ++ mid ++ Data chunk t :: post).
    rewrite app_assoc, run_app, E3, run_app.
    change (run req (run req s3 mid) (Data chunk t :: post))
      with (run req (step req (run req s3 mid) (Data chunk t)) post).
    assert (F : exists r,
              promise (step req (run req s3 mid) (Data chunk t)) = Fulfilled r
              /\ Response.url r = Some (Request.url req)
              /\ Response.status r = js_or_num (Some (Res.statusCode res)) 200).
    { unfold step. rewrite C. unfold on_first_chunk. cbv zeta.
      now apply deliver_result. }
    destruct F as (r & F & U & St).
    rewrite settled_run; rewrite F; [|discriminate].
    exists r. now splits.
Qed.

(** C2, for requests whose body can be sent again.  In follow mode, for a
    response with a redirect status and a Location: a counter at or above
    [follow] rejects with the max-redirect FetchError and no follow-up, then
    or later; below it, [requestOpts] and every follow-up request the call is
    resolved with have the current counter plus one, and the call is
    resolved with the follow-up unless the redirect is refused as
    unsupported.  So, for a request without body or with a body of known
    size: a chain of 302 responses that is no longer than the bound leaves
    is followed, and the call is fulfilled with the Response of the
    destination: by the response itself when its body is not a deflate body
    that is to be decoded, and otherwise by the first chunk of the body,
    without which the call stays pending; one 302 response more than the
    bound leaves is rejected with max-redirect. *)
Theorem redirect_counter_bound :
  (forall (req : Request.t) (s : state) (res : Res.t) (now : Z) (location : string),
     reachable req s -> awaiting s = true ->
     Request.redirect req = "follow" ->
     isRedirect (Res.statusCode res) = true ->
     Headers.get (Res.headers res) "Location" = Some location ->
     let s' := step req s (Incoming res now) in
     (Request.counter req >= Request.follow req ->
      promise s' = Rejected (max_redirect_error req s)
      /\ Err.type (max_redirect_error req s) = "max-redirect"
      /\ forall evs next, promise (run req s' evs) <> Forwarded next)
     /\ (Request.counter req < Request.follow req ->
         Request.init_counter (requestOpts req) = Request.counter req + 1
         /\ (forall next, promise s' = Forwarded next ->
                          Request.counter next = Request.counter req + 1)
         /\ ((Res.statusCode res = 303 \/ Request.body req = None
              \/ Request.getTotalBytes req <> None) ->
             promise s' = Forwarded (follow_up req res location))))
  /\ (forall (req : Request.t) (h : Store) (hops : list hop),
        Request.redirect req = "follow" ->
        accepted req = true -> pre_aborted req = false ->
        (Request.body req = None \/ Request.getTotalBytes req <> None) ->
        redirects_302 req hops = true ->
        (Z.of_nat (length hops) <= Request.follow req - Request.counter req ->
         forall (pre : list event) (res : Res.t) (now : Z),
           forallb quiet pre = true ->
           isRedirect (Res.statusCode res) = false ->
           let dest := destination req hops in
           (content_decoding dest res (Res.headers res) <> SniffDeflate ->
            forall post : list event,
            exists r,
              fst (fetch (List.map events hops ++ [pre ++ Incoming res now :: post])
                     h req) = Fulfilled r
              /\ Response.url r = Some (Request.url dest)
              /\ Response.status r = js_or_num (Some (Res.statusCode res)) 200)
           /\ (content_decoding dest res (Res.headers res) = SniffDeflate ->
               forall mid : list event,
               forallb uneventful mid = true ->
               fst (fetch (List.map events hops ++ [pre ++ Incoming res now :: mid])
                      h req) = Pending
               /\ forall (chunk : list Z) (t : Z) (post : list event),
                  exists r,
                    fst (fetch (List.map events hops
                                ++ [pre ++ Incoming res now
                                        :: mid ++ Data chunk t :: post]) h req)
                    = Fulfilled r
                    /\ Response.url r = Some (Request.url dest)
                    /\ Response.status r
                       = js_or_num (Some (Res.statusCode res)) 200))
        /\ (Z.of_nat (length hops) = Request.follow req - Request.counter req ->
            forall (hp : hop) (location : string) (tail : list (list event)),
              forallb quiet (before hp) = true ->
              Res.statusCode (answer hp) = 302 ->
              Headers.get (Res.headers (answer hp)) "Location" = Some location ->
              exists e,
                fst (fetch (List.map events hops ++ events hp :: tail) h req)
                = Rejected e
                /\ Err.name e = Err.FetchError /\ Err.type e = "max-redirect")).
Proof.
  split.
  - intros req s res now location Hr Hw Hmode Hred Hloc s'.
    destruct (awaiting_pending req s Hr Hw) as (Hp & _).
    pose proof (follow_decision req s res location Hmode Hred Hloc) as Hd.
    subst s'. cbn [step]. rewrite Hw. split.
    + intros Hc.
      assert (Hge : (Request.counter req >=? Request.follow req) = true)
        by (rewrite Z.geb_leb; apply Z.leb_le; lia).
      rewrite Hge in Hd.
      destruct (on_response_error req s res now _ Hp Hd) as (E & _).
      splits; trivial.
      intros evs next. rewrite settled_run; rewrite E; discriminate.
    + intros Hc. split; [reflexivity|]. split.
      * intros next Hf. apply (forwarded_decision req s res now next Hp) in Hf.
        apply follow_decision_inv in Hf.
        destruct Hf as (_ & _ & _ & _ & location' & _ & ->).
        apply (follow_up_fields req res location').
      * intros Hok.
        assert (Hge : (Request.counter req >=? Request.follow req) = false)
          by (rewrite Z.geb_leb; apply Z.leb_gt; exact Hc).
        assert (Hu : unsupported_redirect req res = false).
        { destruct Hok as [H|H]; [|now apply replayable_supported].
          unfold unsupported_redirect. apply Z.eqb_eq in H. now rewrite H. }
        rewrite Hge, Hu in Hd. fold (follow_up req res location) in Hd.
        now destruct (on_response_follow req s res now _ Hp Hd) as (E & _).
  - intros req h hops Hmode Hacc Hpre Hbody Hch. split.
    + intros Hlen pre res now Hq Hred dest. split.
      * intros Hc post.
        destruct (chain_follows hops req h [pre ++ Incoming res now :: post]
                    Hmode Hacc Hpre Hbody Hch Hlen)
          as ((h' & E) & _ & D3 & D4 & _).
        rewrite E. now apply final_hop_direct.
      * intros Hc mid Hm.
        destruct (chain_follows hops req h [pre ++ Incoming res now :: mid]
                    Hmode Hacc Hpre Hbody Hch Hlen)
          as ((h' & E) & _ & D3 & D4 & _).
        rewrite E.
        destruct (final_hop_sniffed dest h' pre mid res now [] D3 D4 Hq Hred Hc Hm)
          as (Hwait & _).
        split; [exact Hwait|].
        intros chunk t post.
        destruct (chain_follows hops req h
                    [pre ++ Incoming res now :: mid ++ Data chunk t :: post]
                    Hmode Hacc Hpre Hbody Hch Hlen)
          as ((h'' & E') & _ & _).
        rewrite E'.
        now apply (final_hop_sniffed dest h'' pre mid res now [] D3 D4 Hq Hred Hc Hm).
    + intros Hlen hp location tail Hq H302 Hloc.
      destruct (chain_follows hops req h (events hp :: tail)
                  Hmode Hacc Hpre Hbody Hch ltac:(lia))
        as ((h' & E) & D2 & D3 & D4 & D5 & D6).
      rewrite E, fetch_cons.
      destruct (dispatch_sends h' (destination req hops) D3 D4) as (s0 & Hd & Hw).
      rewrite Hd. cbv zeta.
      destruct (hop_at_bound (destination req hops) s0 hp location)
        as (e & He & Hn & Ht); trivial.
      * now apply (reach_dispatch _ h').
      * rewrite H302. reflexivity.
      * lia.
      * exists e. rewrite He. cbn. auto.
Qed.

(** ** What the whole call settles with *)

(** Only the "response" callback resolves a call with a follow-up. *)
Lemma forwarded_step (req : Request.t) (s : state) (ev : event) (next : Request.t) :
  promise s = Pending -> promise (step req s ev) = Forwarded next ->
  exists res location, next = follow_up req res location.
Proof.
  intros P F. destruct ev; unfold step in F.
  - destruct (awaiting s && negb (socket s)); [|congruence].
    unfold on_socket in F. destruct (Request.timeout req =? 0); cbn in F; congruence.
  - destruct (socket s); cbn in F; congruence.
  - destruct (socket s); cbn in F; congruence.
  - destruct (socket s); cbn in F; congruence.
  - destruct (reqTimeout s); [|congruence]. unfold on_timeout, reject in F.
    cbn in F. rewrite P in F. discriminate.
  - destruct (sent s); [|congruence]. unfold on_error, reject in F.
    cbn in F. rewrite P in F. discriminate.
  - destruct (awaiting s); [|congruence].
    apply (forwarded_decision req s res now next P) in F.
    apply follow_decision_inv in F as (_ & _ & _ & _ & location & _ & ->).
    now exists res, location.
  - destruct (readable_once s); cbn in F; congruence.
  - destruct (sniff s); [|congruence]. unfold on_first_chunk in F. cbv zeta in F.
    exfalso. revert F. apply not_forwarded_deliver. intros n. cbn. rewrite P.
    discriminate.
  - destruct (end_once s); cbn in F; congruence.
  - destruct (listening s); [|congruence]. unfold abortAndFinalize in F. cbn in F.
    rewrite promise_abort in F. unfold reject in F. rewrite P in F. discriminate.
Qed.

Lemma forwarded_is_follow_up (req : Request.t) (s : state) (next : Request.t) :
  reachable req s -> promise s = Forwarded next ->
  exists res location, next = follow_up req res location.
Proof.
  induction 1 as [h s E|s ev R IH]; intros F.
  - exfalso. unfold dispatch in E. destruct (getNodeRequestOptions req); [discriminate|].
    cbn in E. destruct (Request.signal req) as [[[|]]|]; injection E as <-;
      try discriminate.
    rewrite promise_abort in F. discriminate.
  - destruct (promise s) eqn:P.
    + now apply (forwarded_step req s ev).
    + rewrite settled_step in F; congruence.
    + rewrite settled_step in F; congruence.
    + apply IH. rewrite settled_step in F; congruence.
Qed.

(** The request of the last hop is reached by followed redirects. *)
Lemma last_hop_redirected (hops : list (list event)) :
  forall (h : Store) (req : Request.t), redirected req (last_hop hops h req).
Proof.
  induction hops as [|evs rest IH]; intros h req; cbn [last_hop].
  - destruct (dispatch h req); apply redirected_here.
  - destruct (dispatch h req) as [e|s0] eqn:D; [apply redirected_here|]. cbv zeta.
    destruct (promise (run req s0 evs)) as [| | |next] eqn:P; try apply redirected_here.
    destruct (forwarded_is_follow_up req (run req s0 evs) next) as (res & location & ->).
    + apply reachable_run. now apply (reach_dispatch req h).
    + exact P.
    + apply (redirected_on req res location). apply IH.
Qed.


(** X21.  Whatever the events were, the Response a call of fetch is
    fulfilled with, the follow-up calls of its redirects included, has a
    body stream, no remote address (the fourth constructor argument is not
    read), a status that is not 0, and is well formed as the constructor
    makes it; its url is the URL of the request of the hop that delivered
    it: of the request itself when no redirect was followed, and of the
    last follow-up request otherwise. *)
Theorem fulfilled_response_shape (hops : list (list event)) :
  forall (h : Store) (req : Request.t) (r : Response.t BodyStream),
  fst (fetch hops h req) = Fulfilled r ->
  Response.url r = Some (Request.url (last_hop hops h req))
  /\ redirected req (last_hop hops h req)
  /\ Response.remoteAddress r = None
  /\ Response.body r <> None
  /\ Response.status r <> 0
  /\ Response.well_formed r.
Proof.
  induction hops as [|evs rest IH]; intros h req r.
  - cbn. destruct (dispatch h req) as [e|s0] eqn:D; [discriminate|]. cbn.
    intros F. now apply (dispatch_unfulfilled h req s0 r) in D.
  - rewrite fetch_cons. cbn [last_hop].
    destruct (dispatch h req) as [e|s0] eqn:D; [discriminate|].
    cbv zeta. pose proof (reach_dispatch req h s0 D) as R0.
    pose proof (reachable_run req evs s0 R0) as R.
    destruct (promise (run req s0 evs)) as [|r'|e|next] eqn:P; try discriminate.
    + cbn. intros [= ->].
      pose proof (reachable_inv req _ R) as I.
      pose proof (inv_fulfilled _ I r P) as Q.
      destruct (shaped_reachable req _ R) as (S & _).
      destruct (S r Q) as (U & A & W).
      split; [exact U|]. split; [apply redirected_here|]. split; [exact A|].
      split; [now apply (inv_body _ I)|]. split; [apply W|exact W].
    + intros F. destruct (IH _ _ _ F) as (U & Rd & A & B & C & W).
      split; [exact U|]. split; [|now splits].
      destruct (forwarded_is_follow_up req _ next R P) as (res & location & ->).
      now apply (redirected_on req res location).
Qed.

End Orchestrator.
End FetchFacts.

(** * The properties at concrete inputs *)

Module Examples.
Import Fetch.
Import FetchFacts.
Import Example.

#[local] Existing Instance validation.
#[local] Existing Instance node.
#[local] Existing Instance request_lib.
#[local] Existing Instance streams.
#[local] Existing Instance texts.

Ltac conj := repeat match goal with |- _ /\ _ => split end.
Ltac by_computation := conj; vm_compute; (reflexivity || discriminate).

Lemma texts_laws : BodyMixinLaws string.
Proof. constructor. reflexivity. Qed.

(** POST http://h/a with five bytes, answered 302 to /b: the follow-up is
    GET http://h/b without body and without content-length. *)
Lemma followed_redirect_descriptor_witness :
  let s := sent_state post_a in
  let next := follow_up post_a (redirect_to 302 "/b") "/b" in
  (awaiting s = true
   /\ promise (step post_a s (Incoming (redirect_to 302 "/b") 5)) = Forwarded next)
  /\ Request.url next = "http://h/b"
  /\ Request.method next = "GET"
  /\ Request.body next = None
  /\ Headers.get (Request.headers next) "content-length" = None.
Proof.
  intros s next. split; [split; reflexivity|].
  destruct (followed_redirect_descriptor post_a s (redirect_to 302 "/b") 5 next)
    as (_ & Hget & _).
  - apply (reach_dispatch post_a []). reflexivity.
  - reflexivity.
  - reflexivity.
  - destruct Hget as (Hm & Hb & _ & Hl).
    + right. split; [right|]; reflexivity.
    + repeat split; assumption.
Defined.

(** With follow = 2: two 302 responses are followed to http://h/c and the
    call is fulfilled with the 200 response found there, whose body is not
    coded. *)
Lemma redirect_counter_bound_witness :
  let req := with_follow 2 get_a in
  let hops := [plain_hop (redirect_to 302 "/b"); plain_hop (redirect_to 302 "/c")] in
  (Request.redirect req = "follow" /\ accepted req = true /\ pre_aborted req = false
   /\ Request.body req = None /\ redirects_302 req hops = true
   /\ Z.of_nat (length hops) <= Request.follow req - Request.counter req
   /\ content_decoding (destination req hops) (answer 200 [])
        (Res.headers (answer 200 [])) <> SniffDeflate)
  /\ exists r,
       fst (fetch (List.map events hops
                   ++ [[Socket] ++ Incoming (answer 200 []) 9 :: [Readable 10; Ended]])
                  [] req) = Fulfilled r
       /\ Response.url r = Some "http://h/c".
Proof.
  intros req hops. split; [repeat split; (reflexivity || (vm_compute; discriminate))|].
  destruct redirect_counter_bound as [_ Hchain].
  destruct (Hchain req [] hops) as [Hwithin _]; try reflexivity.
  - left. reflexivity.
  - destruct (Hwithin ltac:(vm_compute; discriminate) [Socket] (answer 200 []) 9)
      as (Hdirect & _); try reflexivity.
    destruct (Hdirect ltac:(vm_compute; discriminate) [Readable 10; Ended])
      as (r & Hr & Hu & _).
    exists r. split; assumption.
Defined.

(** The bound alone does not decide a chain.  PUT of a stream: with follow =
    20 one 302 response is within the bound, yet the call does not end in
    the Response of the destination; with follow = 1 two 302 responses are
    one more than the bound, yet the call is not rejected with max-redirect.
    Both calls are rejected as unsupported at the first response. *)
Lemma redirect_counter_bound_counterexample :
  let res := redirect_to 302 "/b" in
  let final := [Socket; Incoming (answer 200 []) 9; Data [] 9] in
  let within := fetch [events (plain_hop res); final] [] put_stream in
  let beyond := fetch [events (plain_hop res); events (plain_hop res)] []
                      (with_follow 1 put_stream) in
  (Request.redirect put_stream = "follow" /\ accepted put_stream = true
   /\ pre_aborted put_stream = false
   /\ Res.statusCode res = 302
   /\ Headers.get (Res.headers res) "Location" = Some "/b"
   /\ accepted (follow_up put_stream res "/b") = true)
  /\ ~ (exists r, fst within = Fulfilled r)
  /\ ~ (exists e, fst beyond = Rejected e /\ Err.type e = "max-redirect")
  /\ (exists e, fst within = Rejected e /\ Err.type e = "unsupported-redirect")
  /\ (exists e, fst beyond = Rejected e /\ Err.type e = "unsupported-redirect").
Proof.
  intros res final within beyond. split; [by_computation|]. split; [|split; [|split]].
  - intros (r & H). vm_compute in H. discriminate H.
  - intros (e & H & Ht). vm_compute in H. injection H as <-. vm_compute in Ht.
    discriminate Ht.
  - eexists. split; vm_compute; reflexivity.
  - eexists. split; vm_compute; reflexivity.
Qed.

(** In mode error, the 302 answer to GET http://h/a is rejected with the
    no-redirect error. *)
Lemma error_mode_rejects_redirect_witness :
  let req := with_mode "error" get_a in
  let s := sent_state req in
  (awaiting s = true /\ Request.redirect req = "error"
   /\ isRedirect (Res.statusCode (redirect_to 302 "/b")) = true)
  /\ (exists e,
        promise (step req s (Incoming (redirect_to 302 "/b") 5)) = Rejected e
        /\ Err.name e = Err.FetchError
        /\ Err.type e = "no-redirect"
        /\ Err.message e = "redirect mode is set to error: http://h/a"
        /\ Err.cause e = None
        /\ Err.timings e = Some (timings s))
  /\ promise (step req s (Incoming (redirect_to 302 "/b") 5))
     = Rejected (no_redirect_error req s).
Proof.
  intros req s. split; [repeat split|].
  destruct (error_mode_rejects_redirect req s (redirect_to 302 "/b") 5)
    as (He & Hp & _).
  - apply (reach_dispatch req []). reflexivity.
  - reflexivity.
  - reflexivity.
  - reflexivity.
  - split; [exact He|exact Hp].
Defined.

(** PUT of a stream, answered 307 to /b, is rejected as unsupported. *)
Lemma unsupported_redirect_exactly_witness :
  let s := sent_state put_stream in
  let res := redirect_to 307 "/b" in
  (awaiting s = true /\ Request.redirect put_stream = "follow"
   /\ isRedirect (Res.statusCode res) = true
   /\ Headers.get (Res.headers res) "Location" = Some "/b"
   /\ Request.counter put_stream < Request.follow put_stream
   /\ Res.statusCode res <> 303 /\ Request.body put_stream <> None
   /\ Request.getTotalBytes put_stream = None)
  /\ promise (step put_stream s (Incoming res 5))
     = Rejected (unsupported_redirect_error s).
Proof.
  intros s res. split; [repeat split; (reflexivity || discriminate)|].
  destruct (unsupported_redirect_exactly put_stream s res 5 "/b") as [Hrefused _].
  - apply (reach_dispatch put_stream []). reflexivity.
  - reflexivity.
  - reflexivity.
  - reflexivity.
  - reflexivity.
  - reflexivity.
  - apply Hrefused. repeat split; (reflexivity || discriminate).
Defined.


(** A 200 response without Content-Encoding is passed through. *)
Lemma passes_body_through_exactly_witness :
  let s := sent_state get_a in
  let res := answer 200 [("Content-Type", ["text/html"])] in
  (awaiting s = true /\ terminal get_a s res = true
   /\ Headers.get (Res.headers res) "Content-Encoding" = None)
  /\ exists r, response (step get_a s (Incoming res 5)) = Some r
               /\ Response.body r = Some (Piped None).
Proof.
  intros s res. split; [repeat split|].
  apply (passes_body_through_exactly get_a s res 5).
  - apply (reach_dispatch get_a []). reflexivity.
  - reflexivity.
  - reflexivity.
  - right. right. left. reflexivity.
Defined.

(** A deflate body that starts with the zlib header 0x78 0x9c is inflated
    with the zlib wrapper. *)
Lemma deflate_sniffs_first_byte_once_witness :
  let s := sent_state get_a in
  let res := encoded "deflate" (answer 200 []) in
  (awaiting s = true /\ terminal get_a s res = true
   /\ Request.compress get_a = true /\ Request.method get_a <> "HEAD"
   /\ Res.statusCode res <> 204 /\ Res.statusCode res <> 304
   /\ Headers.get (Res.headers res) "Content-Encoding" = Some "deflate")
  /\ exists r,
       response (step get_a (step get_a s (Incoming res 5)) (Data [120; 156; 75] 6))
       = Some r
       /\ Response.body r = Some (Piped (Some Inflate)).
Proof.
  intros s res. split; [repeat split; (reflexivity || discriminate)|].
  destruct (deflate_sniffs_first_byte_once get_a s res 5 "deflate") as (_ & Hchunk).
  - apply (reach_dispatch get_a []). reflexivity.
  - reflexivity.
  - reflexivity.
  - reflexivity.
  - discriminate.
  - discriminate.
  - discriminate.
  - reflexivity.
  - left. reflexivity.
  - destruct (Hchunk 120 [156; 75] 6) as (r & Hr & Hb & _).
    exists r. split; [exact Hr|exact Hb].
Defined.

(** The clone of a text Response whose timings object is not empty. *)
Lemma clone_keeps_metadata_and_drops_timings_witness :
  let h := [measured] in
  let c := snd (Response.clone_response h hello) in
  let h' := fst (Response.clone_response h hello) in
  Response.well_formed hello
  /\ h !! Response.timings hello = Some measured
  /\ Response.url c = Response.url hello
  /\ Response.status c = Response.status hello
  /\ Response.statusText c = Response.statusText hello
  /\ Response.headers c = Response.headers hello
  /\ h' !! Response.timings c = Some Timings.empty
  /\ h' !! Response.timings hello = Some measured.
Proof.
  intros h c h'.
  assert (Hwf : Response.well_formed hello).
  { split; [discriminate|]. split; [discriminate|]. reflexivity. }
  destruct (@ResponseFacts.clone_keeps_metadata_and_drops_timings
              string texts node texts_laws h hello Hwf)
    as (Hu & Hs & Ht & Hh & Hempty & _ & Hkept).
  split; [exact Hwf|]. split; [reflexivity|]. split; [exact Hu|].
  split; [exact Hs|]. split; [exact Ht|]. split; [exact Hh|].
  split; [exact Hempty|]. apply Hkept. reflexivity.
Defined.

(** GET of a URL with a character the header container does not accept, in
    manual mode and with a cancellation signal, answered 302 with a
    query-only Location and Content-Encoding deflate: the signal that comes
    before the first chunk changes neither the promise nor a stream. *)
Lemma abort_reaches_nobody_witness :
  let req := with_signal (with_mode "manual" (at_url odd_url get_a)) in
  let res := encoded "deflate" (redirect_to 302 "?next") in
  let s := step req (sent_state req) Socket in
  let s1 := step req s (Incoming res 5) in
  let s2 := step req s1 Abort in
  (awaiting s = true /\ listening s = true /\ Request.redirect req = "manual"
   /\ isRedirect (Res.statusCode res) = true
   /\ Headers.get (Res.headers res) "Location" = Some "?next"
   /\ legal_value (resolve_url (Request.url req) "?next") = false
   /\ content_decoding req res (Res.headers res) = SniffDeflate)
  /\ listening s1 = true
  /\ (exists e, promise s1 = Rejected e /\ Err.name e = Err.TypeError)
  /\ response s1 = None
  /\ promise s2 = promise s1
  /\ (forall e, promise s2 = Rejected e -> Err.name e <> Err.AbortError)
  /\ stream_errors s2 = stream_errors s1
  /\ listening s2 = false.
Proof.
  intros req res s s1 s2. split; [by_computation|].
  apply (abort_reaches_nobody req s res 5 "?next").
  - apply reach_step. apply (reach_dispatch req []). vm_compute. reflexivity.
  - vm_compute. reflexivity.
  - vm_compute. reflexivity.
  - vm_compute. reflexivity.
  - vm_compute. reflexivity.
  - vm_compute. reflexivity.
  - vm_compute. reflexivity.
  - vm_compute. reflexivity.
Defined.

(** GET http://h/a with timeout 1000 arms the timer when the socket is
    assigned; the 302 answer resolves the call with a follow-up whose timeout
    is 0; the socket of the follow-up arms no timer, and with a second hop
    that never answers the call stays pending. *)
Lemma timeout_lost_on_redirect_witness :
  let req := with_timeout 1000 get_a in
  let res := redirect_to 302 "/b" in
  let s := step req (sent_state req) Socket in
  let next := follow_up req res "/b" in
  let t := step next (sent_state next) Socket in
  (awaiting s = true /\ reqTimeout s = true
   /\ promise (step req s (Incoming res 5)) = Forwarded next)
  /\ Request.timeout next = 0
  /\ reqTimeout t = false
  /\ step next t Timeout = t
  /\ fst (fetch [[Socket; Incoming res 5]; [Socket; Timeout]] [] req) = Pending.
Proof.
  intros req res s next t. split; [by_computation|].
  destruct (timeout_lost_on_redirect req s res 5 next) as (H0 & Hlater).
  - apply reach_step. apply (reach_dispatch req []). vm_compute. reflexivity.
  - vm_compute. reflexivity.
  - vm_compute. reflexivity.
  - destruct (Hlater t) as (Hoff & Hidle).
    + apply reach_step. apply (reach_dispatch next []). vm_compute. reflexivity.
    + split; [exact H0|]. split; [exact Hoff|]. split; [exact Hidle|].
      vm_compute. reflexivity.
Defined.


(** A timings object that is in the store before a call with one followed
    redirect is the same afterwards. *)
Lemma fetch_keeps_older_timings_witness :
  [measured] !! 0%nat = Some measured
  /\ snd (fetch two_hops [measured] get_a) !! 0%nat = Some measured.
Proof.
  split; [reflexivity|].
  apply (fetch_keeps_older_timings two_hops [measured] get_a 0%nat measured).
  reflexivity.
Defined.

(** The 200 answer at time 5 fulfils the call with a Response that refers
    to the timings object of the call; "readable" at time 6 shows in it. *)
Lemma response_shares_timings_witness :
  let s := run get_a (sent_state get_a) [Socket; Incoming (answer 200 []) 5] in
  exists r,
    promise s = Fulfilled r
    /\ Response.timings r = timings s
    /\ exists x,
         store s !! Response.timings r = Some x
         /\ Timings.totalTime x <> None
         /\ forall now, readable_once s = true ->
              store (step get_a s (Readable now)) !! Response.timings r
              = Some (Timings.set_firstByteTime now x).
Proof.
  intros s. eexists. split; [vm_compute; reflexivity|].
  apply (response_shares_timings get_a s).
  - apply reachable_run. apply (reach_dispatch get_a []). reflexivity.
  - vm_compute. reflexivity.
Defined.


(** PUT of a stream with an aborted signal: rejected at once, the stream
    destroyed, nothing sent. *)
Lemma aborted_before_dispatch_witness :
  let req := with_aborted_signal put_stream in
  (accepted req = true /\ pre_aborted req = true)
  /\ exists s0,
       dispatch [] req = inr s0
       /\ promise s0 = Rejected (abort_error s0)
       /\ Err.name (abort_error s0) = Err.AbortError
       /\ Err.timings (abort_error s0) = Some (timings s0)
       /\ store s0 !! timings s0 = Some Timings.empty
       /\ sent s0 = false /\ listening s0 = false /\ response s0 = None
       /\ body_destroyed s0
          = match Request.body req with
            | Some Request.Readable => Some (abort_error s0)
            | _ => None
            end
       /\ (forall evs, run req s0 evs = s0)
       /\ (forall hops, fst (fetch hops [] req) = Rejected (abort_error s0)).
Proof.
  intros req. split; [by_computation|].
  apply (aborted_before_dispatch req []); reflexivity.
Defined.

(** A connection reset while the response of GET http://h/a is awaited. *)
Lemma transport_error_rejects_witness :
  let s := step get_a (sent_state get_a) Socket in
  let s' := step get_a s (ReqError "ECONNRESET") in
  sent s = true
  /\ (promise s = Pending ->
      promise s' = Rejected (system_error get_a "ECONNRESET" s)
      /\ Err.name (system_error get_a "ECONNRESET" s) = Err.FetchError
      /\ Err.type (system_error get_a "ECONNRESET" s) = "system"
      /\ Err.cause (system_error get_a "ECONNRESET" s) = Some "ECONNRESET"
      /\ Err.timings (system_error get_a "ECONNRESET" s) = Some (timings s))
  /\ (promise s <> Pending -> promise s' = promise s)
  /\ req_aborted s' = true /\ listening s' = false /\ reqTimeout s' = false
  /\ response s' = response s
  /\ stream_errors s' = stream_errors s
  /\ step get_a s' Timeout = s' /\ step get_a s' Abort = s'.
Proof.
  intros s s'. split; [reflexivity|].
  apply (transport_error_rejects get_a s "ECONNRESET"). reflexivity.
Defined.

(** In mode "error" a 404 answer is delivered. *)
Lemma non_redirect_is_delivered_witness :
  let req := with_mode "error" get_a in
  let res := answer 404 [("X-A", ["1"])] in
  let s := step req (sent_state req) Socket in
  let s' := step req s (Incoming res 5) in
  (awaiting s = true /\ isRedirect (Res.statusCode res) = false)
  /\ (exists r, promise s' = Fulfilled r /\ Response.status r = 404
                /\ Headers.get (Response.headers r) "X-A" = Some "1")
  /\ req_aborted s' = false.
Proof.
  intros req res s s'. split; [by_computation|].
  destruct (non_redirect_is_delivered req s res 5) as (A & _ & _ & _ & D).
  - apply reach_step. apply (reach_dispatch req []). reflexivity.
  - reflexivity.
  - reflexivity.
  - split; [|exact A]. destruct D as (r & P & _ & St & _ & Hd).
    + vm_compute. discriminate.
    + exists r. split; [exact P|]. split; [exact St|]. apply (Hd "X-A"). reflexivity.
Defined.

(** PUT of a stream with follow = 0, answered 302 without Location: the
    302 is delivered, although the limit is reached and the body is a
    stream. *)
Lemma redirect_without_location_is_delivered_witness :
  let req := with_follow 0 put_stream in
  let res := answer 302 [] in
  let s := step req (sent_state req) Socket in
  let s' := step req s (Incoming res 5) in
  (awaiting s = true /\ isRedirect (Res.statusCode res) = true
   /\ Headers.get (Res.headers res) "Location" = None
   /\ Request.redirect req <> "error")
  /\ (exists r, promise s' = Fulfilled r /\ Response.status r = 302)
  /\ req_aborted s' = false.
Proof.
  intros req res s s'. split; [by_computation|].
  destruct (redirect_without_location_is_delivered req s res 5) as (A & _ & _ & _ & D).
  - apply reach_step. apply (reach_dispatch req []). reflexivity.
  - reflexivity.
  - reflexivity.
  - left. split; [reflexivity|discriminate].
  - split; [|exact A]. destruct D as (r & P & _ & St & _).
    + vm_compute. discriminate.
    + exists r. split; [exact P|exact St].
Defined.

(** A 200 answer with Content-Encoding gzip. *)
Lemma gzip_is_gunzipped_witness :
  let res := encoded "gzip" (answer 200 []) in
  let s := step get_a (sent_state get_a) Socket in
  let s' := step get_a s (Incoming res 5) in
  (awaiting s = true /\ terminal get_a s res = true
   /\ Headers.get (Res.headers res) "Content-Encoding" = Some "gzip")
  /\ exists r,
       response s' = Some r
       /\ Response.body r = Some (Piped (Some Gunzip))
       /\ (Request.redirect get_a <> "manual" -> promise s' = Fulfilled r)
       /\ sniff s' = None
       /\ forall chunk t, step get_a s' (Data chunk t) = s'.
Proof.
  intros res s s'. split; [by_computation|].
  assert (R : reachable get_a s)
    by (apply reach_step; apply (reach_dispatch get_a []); reflexivity).
  assert (N1 : Request.method get_a <> "HEAD") by discriminate.
  assert (N2 : Res.statusCode res <> 204) by discriminate.
  assert (N3 : Res.statusCode res <> 304) by discriminate.
  exact (gzip_is_gunzipped get_a s res 5 "gzip" R eq_refl eq_refl eq_refl N1 N2 N3
           eq_refl (or_introl eq_refl)).
Defined.

(** A 200 answer with Content-Encoding deflate whose body ends without a
    chunk: the call stays pending. *)
Lemma deflate_waits_for_first_chunk_witness :
  let res := encoded "deflate" (answer 200 []) in
  let s := step get_a (sent_state get_a) Socket in
  let evs := [Readable 6; Ended; Timeout; Lookup 7] in
  let s' := run get_a (step get_a s (Incoming res 5)) evs in
  (awaiting s = true /\ terminal get_a s res = true
   /\ Headers.get (Res.headers res) "Content-Encoding" = Some "deflate"
   /\ forallb uneventful evs = true)
  /\ response s' = None
  /\ sniff s' <> None
  /\ (forall r, promise s' <> Fulfilled r)
  /\ (Request.redirect get_a <> "manual" -> promise s' = Pending).
Proof.
  intros res s evs s'. split; [by_computation|].
  assert (R : reachable get_a s)
    by (apply reach_step; apply (reach_dispatch get_a []); reflexivity).
  assert (N1 : Request.method get_a <> "HEAD") by discriminate.
  assert (N2 : Res.statusCode res <> 204) by discriminate.
  assert (N3 : Res.statusCode res <> 304) by discriminate.
  exact (deflate_waits_for_first_chunk get_a s res 5 "deflate" evs R eq_refl eq_refl
           eq_refl N1 N2 N3 eq_refl (or_introl eq_refl) eq_refl).
Defined.

(** A first chunk that begins with the zlib header 0x78 0x9c selects the
    zlib inflater; one that begins with 0x4b, as raw deflate data may,
    selects the raw inflater. *)
Lemma first_chunk_decides_by_low_bits_witness :
  let res := encoded "deflate" (answer 200 []) in
  let s := run get_a (sent_state get_a) [Socket; Incoming res 5] in
  sniff s = Some (response_options get_a res (Res.headers res))
  /\ (exists r,
        response (step get_a s (Data [120; 156; 75] 6)) = Some r
        /\ Response.body r = Some (Piped (Some Inflate))
        /\ sniff (step get_a s (Data [120; 156; 75] 6)) = None)
  /\ (exists r,
        response (step get_a s (Data [75; 4; 0] 6)) = Some r
        /\ Response.body r = Some (Piped (Some InflateRaw))
        /\ sniff (step get_a s (Data [75; 4; 0] 6)) = None).
Proof.
  intros res s. split; [reflexivity|]. split.
  - destruct (first_chunk_decides_by_low_bits get_a s
                (response_options get_a res (Res.headers res)) [120; 156; 75] 6)
      as (r & z & R & B & S & I & _); [reflexivity|].
    exists r. split; [exact R|]. split; [|exact S].
    rewrite B. f_equal. f_equal. f_equal. apply I. exists 120, [156; 75].
    split; reflexivity.
  - destruct (first_chunk_decides_by_low_bits get_a s
                (response_options get_a res (Res.headers res)) [75; 4; 0] 6)
      as (r & z & R & B & S & _ & N); [reflexivity|].
    exists r. split; [exact R|]. split; [|exact S].
    rewrite B. f_equal. f_equal. f_equal. apply N.
    intros (b & rest & E & Q). injection E as <- _. vm_compute in Q. discriminate Q.
Defined.

(** The follow-up of POST http://h/a after a 302. *)
Lemma follow_up_inherits_witness :
  let s := sent_state post_a in
  let res := redirect_to 302 "/b" in
  let next := follow_up post_a res "/b" in
  (awaiting s = true /\ promise (step post_a s (Incoming res 5)) = Forwarded next)
  /\ Request.follow next = Request.follow post_a
  /\ Request.agent next = Request.agent post_a
  /\ Request.compress next = Request.compress post_a
  /\ Request.signal next = Request.signal post_a
  /\ Request.counter next <= Request.follow next.
Proof.
  intros s res next. split; [by_computation|].
  apply (follow_up_inherits post_a s res 5 next).
  - apply (reach_dispatch post_a []). reflexivity.
  - reflexivity.
  - reflexivity.
Defined.

(** A redirect to an ftp URL: the call is rejected with the TypeError of
    [getNodeRequestOptions]. *)
Lemma refused_follow_up_rejects_witness :
  let hp := plain_hop (redirect_to 302 "ftp://h/b") in
  let e := Err.mk Err.TypeError "Only HTTP(S) protocols are supported" "" None None in
  (accepted get_a = true /\ pre_aborted get_a = false
   /\ Request.counter get_a < Request.follow get_a
   /\ getNodeRequestOptions (follow_up get_a (Fetch.answer hp) "ftp://h/b") = inl e)
  /\ fst (fetch (events hp :: [[Socket]]) [] get_a) = Rejected e
  /\ length (snd (fetch (events hp :: [[Socket]]) [] get_a)) = 1%nat.
Proof.
  intros hp e. split; [by_computation|].
  apply (refused_follow_up_rejects get_a [] hp "ftp://h/b" e [[Socket]]);
    reflexivity.
Defined.

(** An abort while the response of a streamed PUT is awaited. *)
Lemma abort_is_heard_once_witness :
  let req := with_signal put_stream in
  let s := step req (sent_state req) Socket in
  let s' := step req s Abort in
  listening s = true
  /\ req_aborted s' = true /\ listening s' = false /\ reqTimeout s' = false
  /\ body_destroyed s'
     = match Request.body req with
       | Some Request.Readable => Some (abort_error s)
       | _ => body_destroyed s
       end
  /\ (promise s = Pending ->
      promise s' = Rejected (abort_error s)
      /\ Err.name (abort_error s) = Err.AbortError
      /\ stream_errors s' = stream_errors s)
  /\ (forall r, promise s = Fulfilled r ->
      promise s' = Fulfilled r
      /\ stream_errors s' = stream_errors s ++ [abort_error s])
  /\ step req s' Abort = s'.
Proof.
  intros req s s'. split; [reflexivity|].
  apply (abort_is_heard_once req s).
  - apply reach_step. apply (reach_dispatch req []). reflexivity.
  - reflexivity.
Defined.

(** After the end of the 200 response an abort of the signal does
    nothing. *)
Lemma abort_is_not_heard_witness :
  let req := with_signal get_a in
  let s := run req (sent_state req) [Socket; Incoming (answer 200 []) 5] in
  let s1 := step req s Ended in
  (listening s = true /\ end_once s = true)
  /\ promise s1 = promise s /\ response s1 = response s
  /\ step req s1 Abort = s1.
Proof.
  intros req s s1. split; [by_computation|].
  destruct (abort_is_not_heard req s) as (_ & H).
  - apply reachable_run. apply (reach_dispatch req []). reflexivity.
  - apply H. reflexivity.
Defined.

(** GET http://h/a with timeout 1000: the timer fires on the socket. *)
Lemma timer_fires_once_witness :
  let req := with_timeout 1000 get_a in
  let s := step req (sent_state req) Socket in
  let s' := step req s Timeout in
  reqTimeout s = true
  /\ promise s' = Rejected (timeout_error req s)
  /\ Err.message (timeout_error req s) = "network timeout at: http://h/a"
  /\ step req s' Timeout = s'.
Proof.
  intros req s s'. split; [reflexivity|].
  destruct (timer_fires_once req s) as (_ & P & _ & _ & M & _ & _ & _ & I).
  - apply reach_step. apply (reach_dispatch req []). reflexivity.
  - reflexivity.
  - split; [exact P|]. split; [exact M|exact I].
Defined.

(** After one followed redirect the Response refers to the second of the
    two timings objects the call made. *)
Lemma response_timings_are_the_last_hops_witness :
  exists r,
    fst (fetch two_hops [measured] get_a) = Fulfilled r
    /\ S (Response.timings r) = length (snd (fetch two_hops [measured] get_a))
    /\ (length [measured] <= Response.timings r)%nat
    /\ exists x, snd (fetch two_hops [measured] get_a) !! Response.timings r = Some x
                 /\ Timings.totalTime x <> None.
Proof.
  eexists. split; [vm_compute; reflexivity|].
  apply (response_timings_are_the_last_hops two_hops [measured] get_a).
  vm_compute. reflexivity.
Defined.

(** A text body and headers without Content-Type: the type of the text is
    appended; a given Content-Type is kept. *)
Lemma constructor_content_type_witness :
  let o := Response.mkOpts None None None (Some [("X-A", ["1"])]) None in
  let r := snd (Response.new [] (Some "hello") o None) in
  Headers.has (Headers.new (Response.opt_headers o)) "Content-Type" = false
  /\ Headers.get (Response.headers r) "Content-Type" = Some "text/plain;charset=UTF-8"
  /\ Headers.get (Response.headers r) "X-A" = Some "1".
Proof.
  intros o r. split; [reflexivity|].
  destruct (ResponseFacts.constructor_content_type [] (Some "hello") o None)
    as (_ & A & K).
  split; [apply A; reflexivity|apply K; reflexivity].
Defined.

(** The clone of the text Response, and the clone of that clone. *)
Lemma clone_is_well_formed_witness :
  let h' := fst (Response.clone_response [measured] hello) in
  let c := snd (Response.clone_response [measured] hello) in
  let c2 := snd (Response.clone_response h' c) in
  Response.well_formed hello
  /\ Response.well_formed c
  /\ Response.remoteAddress c = None
  /\ Response.ok c = Response.ok hello
  /\ Response.headers c2 = Response.headers c
  /\ Response.timings c2 <> Response.timings c.
Proof.
  intros h' c c2.
  assert (W : Response.well_formed hello).
  { split; [discriminate|]. split; [discriminate|]. intros _. reflexivity. }
  split; [exact W|].
  destruct (@ResponseFacts.clone_is_well_formed string texts node texts_laws
              [measured] hello) as (A & B & C & _ & _ & _ & D & E).
  split; [exact A|]. split; [exact B|]. split; [exact (C W)|]. split; [exact D|exact E].
Defined.

(** GET http://h/a with a signal is redirected to /b; the signal is aborted
    while the follow-up has its socket but no response. *)
Lemma abort_reaches_follow_up_witness :
  let req := with_signal get_a in
  let hp := plain_hop (redirect_to 302 "/b") in
  (accepted req = true /\ Request.signal req = Some (Request.mkToken false)
   /\ Request.counter req < Request.follow req
   /\ accepted (follow_up req (Fetch.answer hp) "/b") = true)
  /\ exists e,
       fst (fetch (events hp :: ([Socket] ++ Abort :: [Incoming (answer 200 []) 9]) :: [])
              [] req) = Rejected e
       /\ Err.name e = Err.AbortError
       /\ Err.type e = "aborted"
       /\ Err.message e = "The user aborted a request.".
Proof.
  intros req hp. split; [by_computation|].
  apply (abort_reaches_follow_up req [] hp "/b" (Request.mkToken false) [Socket]
           [Incoming (answer 200 []) 9] []); reflexivity.
Defined.

(** GET http://h/a is redirected to /b: the Response has the url
    http://h/b of the follow-up. *)
Lemma fulfilled_response_shape_witness :
  exists r,
    fst (fetch two_hops [] get_a) = Fulfilled r
    /\ last_hop two_hops [] get_a = follow_up get_a (redirect_to 302 "/b") "/b"
    /\ Response.url r = Some "http://h/b"
    /\ Response.remoteAddress r = None
    /\ Response.body r <> None
    /\ Response.status r <> 0.
Proof.
  eexists. split; [vm_compute; reflexivity|].
  split; [vm_compute; reflexivity|].
  destruct (fulfilled_response_shape two_hops [] get_a
              (snd (Response.new [Timings.empty; Timings.empty]
                      (Some (Piped None))
                      (response_options (follow_up get_a (redirect_to 302 "/b") "/b")
                         (answer 200 []) [])
                      (Some 1%nat))))
    as (U & _ & A & B & C & _).
  - vm_compute. reflexivity.
  - split; [exact U|]. split; [exact A|]. split; [exact B|exact C].
Defined.

End Examples.
